(** * A periodic hardware-telemetry sampler: the sampling and delta engine

    Shallow embedding of the C sources [log.c], [util_logger.c],
    [cpu_logger.c], [logger.c] and [combined_gpu_logger.c], and the
    properties of their counter readers, catalog discovery, snapshot
    parsing, utilization arithmetic and tick scheduling.

    Conventions.  An [unsigned long long] is a [Z] reduced modulo [2^64] after
    every operation; an [int] flag is a [Z]; a [double] is a primitive
    binary64 [float]; a C string or file content is a [list ascii]; a
    fixed-size array is a list whose in-place update is stdpp's
    [<[i:=x]>]. *)

From stdpp Require Import base list.
From Stdlib Require Import ZArith Lia Bool List Ascii Floats.
From Stdlib Require String.
Import String.StringSyntax.
Delimit Scope string_scope with string.
Import ListNotations.

Local Open Scope Z_scope.

(** ** Machine integers and doubles *)

Module Machine.

Definition U64_MOD : Z := 2 ^ 64.
Definition U32_MOD : Z := 2 ^ 32.
Definition UINT64_MAX : Z := 2 ^ 64 - 1.

(** Arithmetic of [unsigned long long]: results wrap modulo [2^64]. *)
Definition add64 (a b : Z) : Z := (a + b) mod U64_MOD.
Definition sub64 (a b : Z) : Z := (a - b) mod U64_MOD.

(** Two's-complement reading of the low [w] bits of [z]. *)
Definition wrap_signed (w : Z) (z : Z) : Z :=
  let m := z mod 2 ^ w in
  if m <? 2 ^ (w - 1) then m else m - 2 ^ w.

Definition int_of (z : Z) : Z := wrap_signed 32 z.
Definition long_of (z : Z) : Z := wrap_signed 64 z.

(** The cast [(double)x] of an integer: the binary64 value nearest to [x],
    ties to even. *)
Definition double_of_Z (z : Z) : float :=
  SF2Prim (binary_normalize prec emax z 0 false).

End Machine.

Import Machine.

(** ** The C library functions the sources call

    Strings are lists of characters without their terminating NUL.  The
    conversions of [sscanf] follow the C standard; where the standard
    leaves the result open (a number too large for the object) they do
    what the [strtoul] family of an LP64 Linux C library does: saturate
    at the bound of the 64-bit type, then keep the low bits on storing
    into a narrower object. *)

Module Libc.

Definition cstr : Type := list ascii.

Definition code (c : ascii) : Z := Z.of_N (N_of_ascii c).

Definition NUL : ascii := ascii_of_N 0.
Definition NEWLINE : ascii := ascii_of_N 10.

Definition isdigit (c : ascii) : bool := (48 <=? code c) && (code c <=? 57).

(** Space, and the control characters from horizontal tab to carriage return. *)
Definition isspace (c : ascii) : bool :=
  (code c =? 32) || ((9 <=? code c) && (code c <=? 13)).

Definition digit_val (c : ascii) : Z := code c - 48.

(** The string a [char] buffer holds: its bytes up to the first NUL. *)
Fixpoint c_str (buf : list ascii) : cstr :=
  match buf with
  | [] => []
  | c :: rest => if Ascii.eqb c NUL then [] else c :: c_str rest
  end.

(** [s[i]], where reading the terminator gives NUL. *)
Definition char_at (s : cstr) (i : nat) : ascii := nth i s NUL.

Fixpoint cstr_eqb (a b : cstr) : bool :=
  match a, b with
  | [], [] => true
  | x :: a', y :: b' => Ascii.eqb x y && cstr_eqb a' b'
  | _, _ => false
  end.

(** [strncmp(s1, s2, n) == 0] *)
Definition strncmp_eq0 (s1 s2 : cstr) (n : nat) : bool :=
  cstr_eqb (firstn n s1) (firstn n s2).

Fixpoint starts_with (needle hay : cstr) : bool :=
  match needle, hay with
  | [], _ => true
  | x :: needle', y :: hay' => Ascii.eqb x y && starts_with needle' hay'
  | _ :: _, [] => false
  end.

(** [strstr(haystack, needle) != NULL] *)
Fixpoint strstr_found (haystack needle : cstr) : bool :=
  starts_with needle haystack
  || match haystack with
     | [] => false
     | _ :: rest => strstr_found rest needle
     end.

(** [snprintf(buf, size, ...)] of an already formatted text: at most
    [size - 1] characters are kept. *)
Definition snprintf (size : nat) (text : cstr) : cstr := firstn (size - 1) text.

(** One call of [fgets(buf, size, fp)] on what is left of a stream: at most
    [size - 1] characters, ending after the first newline. *)
Fixpoint fgets_chars (room : nat) (stream : list ascii) : list ascii * list ascii :=
  match room, stream with
  | S room', c :: rest =>
      if Ascii.eqb c NEWLINE then ([c], rest)
      else let '(l, rest') := fgets_chars room' rest in (c :: l, rest')
  | _, _ => ([], stream)
  end.

Definition fgets (size : nat) (stream : list ascii) : option (cstr * list ascii) :=
  match stream with
  | [] => None
  | _ :: _ => let '(l, rest) := fgets_chars (size - 1) stream in Some (c_str l, rest)
  end.

(** The strings successive [fgets] calls return until end of file. *)
Fixpoint fgets_loop (fuel : nat) (size : nat) (stream : list ascii) : list cstr :=
  match fuel with
  | O => []
  | S fuel' =>
      match fgets size stream with
      | None => []
      | Some (line, rest) => line :: fgets_loop fuel' size rest
      end
  end.

(** Every call with [size >= 2] consumes a character, so the length of the
    stream bounds the number of calls. *)
Definition fgets_lines (size : nat) (stream : list ascii) : list cstr :=
  fgets_loop (S (length stream)) size stream.

Fixpoint skip_space (s : cstr) : cstr :=
  match s with
  | c :: rest => if isspace c then skip_space rest else s
  | [] => []
  end.

Fixpoint span_digits (s : cstr) : cstr * cstr :=
  match s with
  | c :: rest =>
      if isdigit c then let '(ds, rest') := span_digits rest in (c :: ds, rest')
      else ([], s)
  | [] => ([], [])
  end.

Fixpoint span_nonspace (s : cstr) : cstr * cstr :=
  match s with
  | c :: rest =>
      if isspace c then ([], s)
      else let '(w, rest') := span_nonspace rest in (c :: w, rest')
  | [] => ([], [])
  end.

Definition digits_value (ds : cstr) : Z :=
  fold_left (fun v c => v * 10 + digit_val c) ds 0.

Definition is_minus (c : ascii) : bool := code c =? 45.
Definition is_plus (c : ascii) : bool := code c =? 43.

(** The subject sequence of a decimal conversion: an optional sign and a
    non-empty run of digits.  [None] when there is no digit. *)
Definition scan_decimal (s : cstr) : option (bool * Z * cstr) :=
  let '(neg, s1) :=
    match s with
    | c :: rest => if is_minus c then (true, rest)
                   else if is_plus c then (false, rest) else (false, s)
    | [] => (false, s)
    end in
  let '(ds, rest) := span_digits s1 in
  match ds with
  | [] => None
  | _ :: _ => Some (neg, digits_value ds, rest)
  end.

(** [strtoull]: saturation at [ULLONG_MAX], negation modulo [2^64]. *)
Definition to_ull (neg : bool) (magnitude : Z) : Z :=
  if UINT64_MAX <? magnitude then UINT64_MAX
  else if neg then (- magnitude) mod U64_MOD else magnitude.

(** [strtol] with a 64-bit [long]: saturation at [LONG_MIN] and [LONG_MAX]. *)
Definition to_long (neg : bool) (magnitude : Z) : Z :=
  if neg then (if 2 ^ 63 <? magnitude then - 2 ^ 63 else - magnitude)
  else (if 2 ^ 63 - 1 <? magnitude then 2 ^ 63 - 1 else magnitude).

(** [atoi(s)], that is [(int) strtol(s, NULL, 10)]. *)
Definition atoi (s : cstr) : Z :=
  match scan_decimal (skip_space s) with
  | Some (neg, m, _) => int_of (to_long neg m)
  | None => 0
  end.

Inductive conversion : Type :=
| Conv_s      (* %s *)
| Conv_u      (* %u *)
| Conv_llu    (* %llu *)
| Conv_d.     (* %d *)

Inductive directive : Type :=
| Lit (c : ascii)          (* an ordinary character *)
| Blank                    (* white space in the format *)
| Conv (k : conversion).

Inductive scanned : Type :=
| VStr (s : cstr)
| VNum (z : Z).

Inductive scan_stop : Type :=
| FormatEnd
| InputFailure
| MatchingFailure.

Definition convert (k : conversion) (s : cstr) : option (scanned * cstr) :=
  match k with
  | Conv_s =>
      let '(w, rest) := span_nonspace s in
      match w with [] => None | _ :: _ => Some (VStr w, rest) end
  | Conv_u =>
      match scan_decimal s with
      | Some (neg, m, rest) => Some (VNum (to_ull neg m mod U32_MOD), rest)
      | None => None
      end
  | Conv_llu =>
      match scan_decimal s with
      | Some (neg, m, rest) => Some (VNum (to_ull neg m), rest)
      | None => None
      end
  | Conv_d =>
      match scan_decimal s with
      | Some (neg, m, rest) => Some (VNum (int_of (to_long neg m)), rest)
      | None => None
      end
  end.

(** The items [sscanf] assigns, in order, and why it stopped. *)
Fixpoint scan (fmt : list directive) (s : cstr) : list scanned * scan_stop :=
  match fmt with
  | [] => ([], FormatEnd)
  | Lit c :: fmt' =>
      match s with
      | [] => ([], InputFailure)
      | x :: rest => if Ascii.eqb x c then scan fmt' rest else ([], MatchingFailure)
      end
  | Blank :: fmt' => scan fmt' (skip_space s)
  | Conv k :: fmt' =>
      match skip_space s with
      | [] => ([], InputFailure)
      | s1 =>
          match convert k s1 with
          | None => ([], MatchingFailure)
          | Some (v, rest) => let '(vs, st) := scan fmt' rest in (v :: vs, st)
          end
      end
  end.

(** The return value of [sscanf]: the number of items assigned, or [EOF]
    when the input ended before the first conversion. *)
Definition scan_count (r : list scanned * scan_stop) : Z :=
  match r with
  | ([], InputFailure) => -1
  | (vs, _) => Z.of_nat (length vs)
  end.

(** The integer assigned to the [i]-th argument, or what the object held
    before the call. *)
Definition assigned (r : list scanned * scan_stop) (i : nat) (before : Z) : Z :=
  match nth_error (fst r) i with
  | Some (VNum z) => z
  | _ => before
  end.

(** The text after a field does not continue its digits. *)
Definition stops_digits (rest : cstr) : Prop :=
  match rest with
  | [] => True
  | c :: _ => isdigit c = false
  end.

Definition lit (s : String.string) : cstr := String.list_ascii_of_string s.

Definition fmt_lit (s : String.string) : list directive := map Lit (lit s).

Arguments lit s%_string.
Arguments fmt_lit s%_string.

End Libc.

Import Libc.

(** ** log.c: per-core CPU times and the utilization calculator *)

Module Log.

Record CpuTime : Type := mkCpuTime {
  user : Z;
  nice : Z;
  system : Z;
  idle : Z;
  iowait : Z;
  irq : Z;
  softirq : Z;
  steal : Z;
  guest : Z;
  guest_nice : Z;
  successfully_parsed : Z
}.

(** [memset(&t, 0, sizeof(CpuTime))]. *)
Definition CpuTime_zero : CpuTime := mkCpuTime 0 0 0 0 0 0 0 0 0 0 0.

(** The value [calculate_core_utilization] returns when a sample is not
    usable. *)
Definition UNAVAILABLE : float := (-1)%float.

Definition idle_of (t : CpuTime) : Z := add64 (idle t) (iowait t).

Definition non_idle_of (t : CpuTime) : Z :=
  add64 (add64 (add64 (add64 (add64 (user t) (nice t)) (system t)) (irq t))
               (softirq t)) (steal t).

Definition total_of (t : CpuTime) : Z := add64 (idle_of t) (non_idle_of t).

(** [(util < 0.0) ? 0.0 : (util > 100.0 ? 100.0 : util)] *)
Definition clamp_percent (util : float) : float :=
  if (util <? 0)%float then 0%float
  else if (100 <? util)%float then 100%float else util.

Definition calculate_core_utilization (prev_times curr_times : CpuTime) : float :=
  if (successfully_parsed prev_times =? 0) || (successfully_parsed curr_times =? 0)
  then UNAVAILABLE
  else
    let prev_idle := idle_of prev_times in
    let curr_idle := idle_of curr_times in
    let prev_total := total_of prev_times in
    let curr_total := total_of curr_times in
    let total_diff := sub64 curr_total prev_total in
    let idle_diff := sub64 curr_idle prev_idle in
    if total_diff =? 0 then 0%float
    else if (curr_total <? prev_total) || (curr_idle <? prev_idle) then 0%float
    else
      let util :=
        (double_of_Z (sub64 total_diff idle_diff) * 100 / double_of_Z total_diff)%float in
      clamp_percent util.

(** The utilization formula in the words of the specification, over
    unbounded integers: idle-like is idle plus iowait, non-idle is the sum
    of user, nice, system, irq, softirq and steal, total is their sum (the
    guest fields take no part), and the percentage is
    [100 * (total_delta - idle_delta) / total_delta], clamped. *)
Definition spec_idle_like (t : CpuTime) : Z := idle t + iowait t.

Definition spec_non_idle (t : CpuTime) : Z :=
  user t + nice t + system t + irq t + softirq t + steal t.

Definition spec_total (t : CpuTime) : Z := spec_idle_like t + spec_non_idle t.

Definition spec_utilization (prev curr : CpuTime) : float :=
  let total_delta := spec_total curr - spec_total prev in
  let idle_delta := spec_idle_like curr - spec_idle_like prev in
  clamp_percent
    (100 * double_of_Z (total_delta - idle_delta) / double_of_Z total_delta)%float.

(** The counters did not go backward between the two samples: neither the
    idle-like time nor the non-idle time decreased (as is the case when
    none of the eight fields that enter the formula decreased). *)
Definition counters_not_backward (prev curr : CpuTime) : Prop :=
  spec_idle_like prev <= spec_idle_like curr
  /\ spec_non_idle prev <= spec_non_idle curr.

(** None of the eight fields that enter the formula decreased. *)
Definition fields_monotone (prev curr : CpuTime) : Prop :=
  user prev <= user curr /\ nice prev <= nice curr /\
  system prev <= system curr /\ idle prev <= idle curr /\
  iowait prev <= iowait curr /\ irq prev <= irq curr /\
  softirq prev <= softirq curr /\ steal prev <= steal curr.

(** The tick counts are non-negative and their sum is representable in an
    [unsigned long long]. *)
Definition ticks_in_range (t : CpuTime) : Prop :=
  0 <= user t /\ 0 <= nice t /\ 0 <= system t /\ 0 <= idle t /\
  0 <= iowait t /\ 0 <= irq t /\ 0 <= softirq t /\ 0 <= steal t /\
  spec_total t < U64_MOD.

(** A line of [/proc/stat] that describes one core: it starts with "cpu"
    and a digit follows. *)
Definition is_core_line (line_buffer : cstr) : bool :=
  strncmp_eq0 line_buffer (lit "cpu") 3 && isdigit (char_at line_buffer 3).

(** ["%s %llu %llu %llu %llu %llu %llu %llu %llu %llu %llu"] *)
Definition core_line_format : list directive :=
  Conv Conv_s :: concat (repeat [Blank; Conv Conv_llu] 10).

(** The body of the second loop of [get_cpu_core_times] for one core line:
    [sscanf] into the fields of the slot, then the flag.  The label is
    taken to fit the 16 bytes of [cpu_label]. *)
Definition parse_core_line (slot : CpuTime) (line_buffer : cstr) : CpuTime :=
  let r := scan core_line_format line_buffer in
  let values_parsed := scan_count r in
  {| user := assigned r 1 (user slot);
     nice := assigned r 2 (nice slot);
     system := assigned r 3 (system slot);
     idle := assigned r 4 (idle slot);
     iowait := assigned r 5 (iowait slot);
     irq := assigned r 6 (irq slot);
     softirq := assigned r 7 (softirq slot);
     steal := assigned r 8 (steal slot);
     guest := assigned r 9 (guest slot);
     guest_nice := assigned r 10 (guest_nice slot);
     successfully_parsed := if 1 + 8 <=? values_parsed then 1 else 0 |}.

(** The number of numeric fields [sscanf] assigned after the label. *)
Definition numeric_fields_parsed (line_buffer : cstr) : Z :=
  scan_count (scan core_line_format line_buffer) - 1.

Fixpoint fill_core_times (lines : list cstr) (num_cores_found current_core_index : nat)
    (temp_core_data : list CpuTime) : list CpuTime :=
  match lines with
  | [] => temp_core_data
  | line_buffer :: rest =>
      if (current_core_index <? num_cores_found)%nat then
        if is_core_line line_buffer then
          fill_core_times rest num_cores_found (S current_core_index)
            (alter (fun slot => parse_core_line slot line_buffer)
                   current_core_index temp_core_data)
        else fill_core_times rest num_cores_found current_core_index temp_core_data
      else temp_core_data
  end.

(** [get_cpu_core_times]: the return value and the array handed back
    ([None] for a pointer left or set to [NULL]).  The argument is the
    content of [/proc/stat], [None] when it cannot be opened; both passes
    read the same content, and the allocation succeeds. *)
Definition get_cpu_core_times (proc_stat : option (list ascii)) : Z * option (list CpuTime) :=
  match proc_stat with
  | None => (-1, None)
  | Some content =>
      let lines := fgets_lines 512 content in
      let num_cores_found := List.length (List.filter is_core_line lines) in
      if (num_cores_found =? 0)%nat then (0, None)
      else
        (Z.of_nat num_cores_found,
         Some (fill_core_times lines num_cores_found 0
                 (repeat CpuTime_zero num_cores_found)))
  end.

(** One per-core cell of a CSV row in [main]: a percentage, or [None] for
    the text N/A. *)
Definition csv_core_cell (prev_core_stats curr_core_stats : list CpuTime)
    (num_cpu_cores : nat) (i : nat) : option float :=
  match prev_core_stats !! i, curr_core_stats !! i with
  | Some p, Some c =>
      if (i <? num_cpu_cores)%nat && negb (successfully_parsed p =? 0)
         && negb (successfully_parsed c =? 0)
      then Some (calculate_core_utilization p c)
      else None
  | _, _ => None
  end.

(** A numeric field as the kernel prints it: a non-empty run of digits. *)
Definition numeric_field (f : cstr) : Prop :=
  f <> [] /\ List.Forall (fun c => isdigit c = true) f.

(** A label: a non-empty run of characters that are not white space. *)
Definition label_text (l : cstr) : Prop :=
  l <> [] /\ List.Forall (fun c => isspace c = false) l.

(** A line of the accounting source: the label, then each field after one
    space, then the newline. *)
Definition render_line (label : cstr) (fields : list cstr) : cstr :=
  label ++ flat_map (fun f => " "%char :: f) fields ++ [NEWLINE].

(** The two samples of the end-to-end example. *)
Definition snapshot1 : CpuTime := mkCpuTime 100 0 0 900 0 0 0 0 0 0 1.
Definition snapshot2 : CpuTime := mkCpuTime 150 0 0 950 0 0 0 0 0 0 1.

End Log.

(** ** util_logger.c: snapshots indexed by core number *)

Module UtilLogger.

Definition MAX_CORES : nat := 8.

Record cpu_snap_t : Type := mk_snap {
  total : list Z;
  idle_like : list Z;
  present : list bool
}.

(** [memset(snap, 0, sizeof *snap)] *)
Definition snap_zero : cpu_snap_t :=
  mk_snap (repeat 0 MAX_CORES) (repeat 0 MAX_CORES) (repeat false MAX_CORES).

(** [delta_u64(a, b)] *)
Definition delta_u64 (a b : Z) : Z :=
  if a <=? b then sub64 b a else add64 (add64 b (sub64 UINT64_MAX a)) 1.

(** The assignment [arr[i] = x]; [None] when [i] is outside the array. *)
Definition store {A : Type} (arr : list A) (i : Z) (x : A) : option (list A) :=
  if (0 <=? i) && (i <? Z.of_nat (List.length arr))
  then Some (<[Z.to_nat i := x]> arr)
  else None.

(** ["cpu%u %llu %llu %llu %llu %llu %llu %llu %llu %llu %llu"] *)
Definition snapshot_format : list directive :=
  fmt_lit "cpu" ++ Conv Conv_u :: concat (repeat [Blank; Conv Conv_llu] 10).

(** [for (i = 0; i < n-1; i++) total += f[i]] *)
Definition sum_fields (r : list scanned * scan_stop) (n : Z) : Z :=
  fold_left (fun total i => add64 total (assigned r (S i) 0)) (seq 0 (Z.to_nat (n - 1))) 0.

(** The body of the loop of [read_cpu_snapshot] for one line.  [None]
    stands for a write outside one of the three arrays. *)
Definition snapshot_line (snap : cpu_snap_t) (line : cstr) : option cpu_snap_t :=
  if negb (strncmp_eq0 line (lit "cpu") 3) then Some snap
  else if negb (isdigit (char_at line 3)) then Some snap
  else
    let r := scan snapshot_format line in
    let n := scan_count r in
    let id := assigned r 0 0 in
    if n <? 5 then Some snap
    else if id <? Z.of_nat MAX_CORES then
      let total_v := sum_fields r n in
      let idle_like_v := add64 (assigned r 4 0) (if 6 <=? n then assigned r 5 0 else 0) in
      match store (total snap) id total_v,
            store (idle_like snap) id idle_like_v,
            store (present snap) id true with
      | Some t, Some i, Some p => Some (mk_snap t i p)
      | _, _, _ => None
      end
    else Some snap.

Fixpoint snapshot_lines (snap : cpu_snap_t) (lines : list cstr) : option cpu_snap_t :=
  match lines with
  | [] => Some snap
  | line :: rest =>
      match snapshot_line snap line with
      | Some snap' => snapshot_lines snap' rest
      | None => None
      end
  end.

(** A recognised core line: the fixed prefix "cpu" followed by a digit. *)
Definition recognised (line : cstr) : bool :=
  strncmp_eq0 line (lit "cpu") 3 && isdigit (char_at line 3).

(** The decimal index written after the prefix, as a number. *)
Definition declared_index (line : cstr) : Z :=
  digits_value (fst (span_digits (skipn 3 line))).

(** What [sscanf] returns for the line, and the values the loop body
    derives from it. *)
Definition line_n (line : cstr) : Z := scan_count (scan snapshot_format line).
Definition line_id (line : cstr) : Z := assigned (scan snapshot_format line) 0 0.
Definition line_total (line : cstr) : Z :=
  sum_fields (scan snapshot_format line) (line_n line).
Definition line_idle_like (line : cstr) : Z :=
  add64 (assigned (scan snapshot_format line) 4 0)
        (if 6 <=? line_n line then assigned (scan snapshot_format line) 5 0 else 0).

(** The three arrays have their declared size. *)
Definition well_sized (snap : cpu_snap_t) : Prop :=
  List.length (total snap) = MAX_CORES
  /\ List.length (idle_like snap) = MAX_CORES
  /\ List.length (present snap) = MAX_CORES.

(** The snapshot with slot [c] holding the sample [(t, i)]. *)
Definition with_slot (snap : cpu_snap_t) (c : nat) (t i : Z) : cpu_snap_t :=
  mk_snap (<[c := t]> (total snap)) (<[c := i]> (idle_like snap))
          (<[c := true]> (present snap)).

(** The lines of a text that leave a sample in slot [c]. *)
Definition stored_in (c : nat) (line : cstr) : bool :=
  recognised line && (5 <=? line_n line) && (line_id line =? Z.of_nat c).

(** The last line of a list that leaves a sample in slot [c], if any. *)
Definition last_stored (c : nat) (lines : list cstr) : option cstr :=
  fold_left (fun acc line => if stored_in c line then Some line else acc) lines None.

(** What slot [c] of a snapshot holds. *)
Definition slot (snap : cpu_snap_t) (c : nat) : option Z * option Z * option bool :=
  (total snap !! c, idle_like snap !! c, present snap !! c).

(** A core line with three numeric fields, and the aggregate line. *)
Definition short_core_line : cstr := lit "cpu1 5 6 7" ++ [NEWLINE].
Definition aggregate_line : cstr := lit "cpu  10 20 30 40 50 60 70 80 0 0" ++ [NEWLINE].

(** [read_cpu_snapshot]: the return value and the snapshot written. *)
Definition read_cpu_snapshot (proc_stat : option (list ascii)) : option (Z * cpu_snap_t) :=
  match proc_stat with
  | None => Some (-1, snap_zero)
  | Some content =>
      match snapshot_lines snap_zero (fgets_lines 1024 content) with
      | Some snap => Some (0, snap)
      | None => None
      end
  end.

Definition UNAVAILABLE : float := (-1)%float.

(** The per-core computation in [main]. *)
Definition core_util (s1 s2 : cpu_snap_t) (c : nat) : float :=
  if nth c (present s1) false && nth c (present s2) false then
    let dt := delta_u64 (nth c (total s1) 0) (nth c (total s2) 0) in
    let di := delta_u64 (nth c (idle_like s1) 0) (nth c (idle_like s2) 0) in
    if (0 <? dt) && (di <=? dt)
    then (100 * double_of_Z (sub64 dt di) / double_of_Z dt)%float
    else UNAVAILABLE
  else UNAVAILABLE.

(** [read_gpu_busy(&out)]: the return value and the content of [out]
    afterwards.  The argument is the content of the busy-percentage node,
    [None] when it cannot be opened. *)
Definition read_gpu_busy (node : option (list ascii)) (out : Z) : Z * Z :=
  match node with
  | None => (-1, out)
  | Some content =>
      let r := scan [Conv Conv_d] content in
      if negb (scan_count r =? 1) then (-1, out)
      else
        let val := assigned r 0 (-1) in
        if val <? 0 then (-1, out) else (0, val)
  end.

(** The value [main] writes into the [gpu_busy] column. *)
Definition gpu_busy_column (node : option (list ascii)) : Z :=
  let '(ret, gpu_busy) := read_gpu_busy node (-1) in
  if negb (ret =? 0) then -1 else gpu_busy.

End UtilLogger.

(** ** The integer reader of cpu_logger.c, logger.c and combined_gpu_logger.c *)

Module FastParse.

Definition is_blank (c : ascii) : bool :=
  (code c =? 32) || (code c =? 9) || (code c =? 10) || (code c =? 13).

Fixpoint skip_blank (s : cstr) : cstr :=
  match s with
  | c :: rest => if is_blank c then skip_blank rest else s
  | [] => []
  end.

(** The digit loop: [v = v * 10 + digit] in a [long], which the model
    lets wrap around, and the flag [seen]. *)
Fixpoint accumulate (v : Z) (seen : bool) (s : cstr) : Z * bool :=
  match s with
  | c :: rest =>
      if isdigit c then accumulate (long_of (v * 10 + digit_val c)) true rest
      else (v, seen)
  | [] => (v, seen)
  end.

(** The value returned when no digit was found. *)
Definition PARSE_FAILURE : Z := -1.

Definition fast_parse_int (s : cstr) : Z :=
  let s1 := skip_blank s in
  let '(neg, s2) :=
    match s1 with
    | c :: rest => if is_minus c then (true, rest) else (false, s1)
    | [] => (false, s1)
    end in
  let '(v, seen) := accumulate 0 false s2 in
  if negb seen then PARSE_FAILURE
  else if neg then int_of (long_of (- v)) else int_of v.

(** What [read(fd, buf, bufsz - 1)] followed by [buf[n] = 0] leaves in the
    buffer, as a string; [None] when [read] returns no byte. *)
Definition read_buffer (bufsz : nat) (content : list ascii) : option cstr :=
  match firstn (bufsz - 1) content with
  | [] => None
  | buf => Some (c_str buf)
  end.

End FastParse.

Import FastParse.

(** ** cpu_logger.c: discovery of per-core frequency nodes and thermal zones *)

Module CpuLogger.

Definition MAX_CPUS : nat := 128.
Definition MAX_THERMAL_ZONES : nat := 128.
Definition THERMAL_DIR : cstr := lit "/sys/class/thermal".
Definition CPU_DIR : cstr := lit "/sys/devices/system/cpu".

Record cpu_info_t : Type := mk_cpu_info {
  cpu_num : Z;
  freq_path : cstr
}.

Record thermal_info_t : Type := mk_thermal_info {
  zone_name : cstr;
  type_name : cstr;
  temp_path : cstr
}.

(** What the scan sees of the file system: the names [readdir] returns for
    a directory, in the order it returns them ([None] when [opendir]
    fails); whether [access(path, R_OK)] succeeds; and the bytes of a file
    ([None] when [open] fails). *)
Record filesystem : Type := mk_fs {
  dir_entries : cstr -> option (list cstr);
  access_R_OK : cstr -> bool;
  file_content : cstr -> option (list ascii)
}.

Definition read_int_file (fs : filesystem) (path : cstr) : Z :=
  match file_content fs path with
  | None => -1
  | Some content =>
      match read_buffer 128 content with
      | None => -1
      | Some buf => fast_parse_int buf
      end
  end.

(** [read_string_file]: [None] for the return value -1, otherwise the
    string left in [buf]. *)
Definition read_string_file (fs : filesystem) (path : cstr) (bufsz : nat) : option cstr :=
  match file_content fs path with
  | None => None
  | Some content =>
      match firstn (bufsz - 1) content with
      | [] => None
      | buf =>
          if Ascii.eqb (last buf NUL) NEWLINE then Some (c_str (removelast buf))
          else Some (c_str buf)
      end
  end.

Definition cpu_freq_path (d_name : cstr) : cstr :=
  snprintf 256 (CPU_DIR ++ lit "/" ++ d_name ++ lit "/cpufreq/scaling_cur_freq").

(** The body of the loop of [scan_cpus] for one directory entry. *)
Definition scan_cpus_entry (fs : filesystem) (cpus : list cpu_info_t) (d_name : cstr)
    : list cpu_info_t :=
  if negb (strncmp_eq0 d_name (lit "cpu") 3) then cpus
  else if negb (isdigit (char_at d_name 3)) then cpus
  else
    let cpu_num := atoi (skipn 3 d_name) in
    let test_path := cpu_freq_path d_name in
    if access_R_OK fs test_path
    then cpus ++ [mk_cpu_info cpu_num (cpu_freq_path d_name)]
    else cpus.

(** [while ((entry = readdir(dir)) != NULL && num_cpus < MAX_CPUS)] *)
Fixpoint scan_cpus_loop (fs : filesystem) (entries : list cstr) (cpus : list cpu_info_t)
    : list cpu_info_t :=
  match entries with
  | [] => cpus
  | d_name :: rest =>
      if (List.length cpus <? MAX_CPUS)%nat
      then scan_cpus_loop fs rest (scan_cpus_entry fs cpus d_name)
      else cpus
  end.

(** [scan_cpus], on the table [cpus] whose length is [num_cpus]. *)
Definition scan_cpus (fs : filesystem) (cpus : list cpu_info_t) : list cpu_info_t :=
  match dir_entries fs CPU_DIR with
  | None => cpus
  | Some entries => scan_cpus_loop fs entries cpus
  end.

Definition zone_type_path (d_name : cstr) : cstr :=
  snprintf 256 (THERMAL_DIR ++ lit "/" ++ d_name ++ lit "/type").

Definition zone_temp_path (d_name : cstr) : cstr :=
  snprintf 256 (THERMAL_DIR ++ lit "/" ++ d_name ++ lit "/temp").

(** The test on the declared type of a zone. *)
Definition type_matches (type_buf : cstr) : bool :=
  strstr_found type_buf (lit "cpu") || strstr_found type_buf (lit "CPU").

(** The size of the field [zone_name], which [type_name] follows in
    [thermal_info_t]. *)
Definition ZONE_NAME_SIZE : nat := 32.

(** The string at [zone_name] after
    [strcpy(zone_name, entry->d_name); strcpy(type_name, type_buf)].
    The first copy has no bound.  A name of fewer than 32 characters is
    stored with its terminator.  A longer name fills the 32 bytes of
    [zone_name] and runs on into [type_name]; the second copy then writes
    the type and its terminator from the first byte of [type_name], so the
    string that starts at [zone_name] is the first 32 characters of the
    name followed by the type.  [type_buf] holds at most 63 characters
    and [readdir] returns names of at most 255, so both copies end inside
    the 352 bytes of the record. *)
Definition stored_zone_name (d_name type_buf : cstr) : cstr :=
  if (List.length d_name <? ZONE_NAME_SIZE)%nat then d_name
  else firstn ZONE_NAME_SIZE d_name ++ type_buf.

(** The body of the loop of [scan_thermal_zones] for one directory entry. *)
Definition scan_thermal_entry (fs : filesystem) (zones : list thermal_info_t)
    (d_name : cstr) : list thermal_info_t :=
  if negb (strncmp_eq0 d_name (lit "thermal_zone") 12) then zones
  else
    match read_string_file fs (zone_type_path d_name) 64 with
    | Some type_buf =>
        if type_matches type_buf
        then zones ++ [mk_thermal_info (stored_zone_name d_name type_buf) type_buf
                                       (zone_temp_path d_name)]
        else zones
    | None => zones
    end.

Fixpoint scan_thermal_loop (fs : filesystem) (entries : list cstr)
    (zones : list thermal_info_t) : list thermal_info_t :=
  match entries with
  | [] => zones
  | d_name :: rest =>
      if (List.length zones <? MAX_THERMAL_ZONES)%nat
      then scan_thermal_loop fs rest (scan_thermal_entry fs zones d_name)
      else zones
  end.

Definition scan_thermal_zones (fs : filesystem) (zones : list thermal_info_t)
    : list thermal_info_t :=
  match dir_entries fs THERMAL_DIR with
  | None => zones
  | Some entries => scan_thermal_loop fs entries zones
  end.

(** A column of the CSV header [main] writes: the frequency of a core,
    named by its number, or the temperature of a zone, named by its type. *)
Inductive CounterSource : Type :=
| CpuFreq (cpu_num : Z)
| ThermalZone (type_name : cstr).

(** The columns in the order [main] writes them after [scan_cpus] and
    [scan_thermal_zones] ran on the empty tables; [None] when no CPU was
    found and [main] gives up. *)
Definition discover (fs : filesystem) : option (list CounterSource) :=
  let cpus := scan_cpus fs [] in
  let thermal_zones := scan_thermal_zones fs [] in
  if (List.length cpus =? 0)%nat then None
  else Some (map (fun c => CpuFreq (cpu_num c)) cpus
             ++ map (fun z => ThermalZone (type_name z)) thermal_zones).

(** The entry of the table a directory entry gives rise to, if any. *)
Definition cpu_of (fs : filesystem) (d_name : cstr) : option cpu_info_t :=
  if strncmp_eq0 d_name (lit "cpu") 3 && isdigit (char_at d_name 3)
     && access_R_OK fs (cpu_freq_path d_name)
  then Some (mk_cpu_info (atoi (skipn 3 d_name)) (cpu_freq_path d_name))
  else None.

(** A thermal-zone candidate: a directory entry named [thermal_zone...]. *)
Definition candidate (d_name : cstr) : bool :=
  strncmp_eq0 d_name (lit "thermal_zone") 12.

(** The declared type of a zone, as [read_string_file] returns it. *)
Definition declared_type (fs : filesystem) (d_name : cstr) : option cstr :=
  read_string_file fs (zone_type_path d_name) 64.

Definition zone_of (fs : filesystem) (d_name : cstr) : option thermal_info_t :=
  if candidate d_name then
    match declared_type fs d_name with
    | Some type_buf =>
        if type_matches type_buf
        then Some (mk_thermal_info (stored_zone_name d_name type_buf) type_buf
                                   (zone_temp_path d_name))
        else None
    | None => None
    end
  else None.

(** [needle] occurs in [hay] as a substring. *)
Definition contains (needle hay : cstr) : Prop :=
  exists pre post : cstr, hay = pre ++ needle ++ post.

(** Case-insensitive containment, in the words of the specification: the
    needle occurs in the text once both are put in lower case. *)
Definition tolower (c : ascii) : ascii :=
  if (65 <=? code c) && (code c <=? 90) then ascii_of_N (N_of_ascii c + 32) else c.

Definition contains_nocase (needle hay : cstr) : bool :=
  strstr_found (map tolower hay) (map tolower needle).

(** The layout of the example: cores 0, 1 and 3, each with a readable
    frequency node, enumerated in the order [cpu_order], and one thermal
    zone whose type file holds [zone_type]. *)
Definition layout (cpu_order : list cstr) (zone_type : cstr) : filesystem :=
  mk_fs
    (fun dir =>
       if cstr_eqb dir CPU_DIR then Some cpu_order
       else if cstr_eqb dir THERMAL_DIR
            then Some [lit "."; lit ".."; lit "cooling_device0"; lit "thermal_zone0"]
            else None)
    (fun path =>
       cstr_eqb path (cpu_freq_path (lit "cpu0"))
       || cstr_eqb path (cpu_freq_path (lit "cpu1"))
       || cstr_eqb path (cpu_freq_path (lit "cpu3")))
    (fun path =>
       if cstr_eqb path (zone_type_path (lit "thermal_zone0"))
       then Some (zone_type ++ [NEWLINE])
       else None).

Definition ascending_order : list cstr :=
  [lit "."; lit ".."; lit "cpu0"; lit "cpu1"; lit "cpu3"; lit "cpufreq"; lit "cpuidle"].

Definition other_order : list cstr :=
  [lit "cpu3"; lit "cpuidle"; lit "."; lit "cpu0"; lit ".."; lit "cpufreq"; lit "cpu1"].

End CpuLogger.

(** ** logger.c: descriptor reads with one reopen, and the tick loop *)

Module Logger.

(** [read_int_fd(fd, buf, bufsz)].  [node] is what the kernel returns for
    the descriptor at this read: [None] when [lseek] or [read] fails. *)
Definition read_int_fd (fd : Z) (node : option (list ascii)) (bufsz : nat) : Z :=
  if fd <? 0 then -1
  else
    match node with
    | None => -1
    | Some content =>
        match read_buffer bufsz content with
        | None => -1
        | Some buf => fast_parse_int buf
        end
    end.

Record counter_read : Type := mk_counter_read {
  value : Z;
  fd_after : Z;
  reopened : bool
}.

(** One counter of a tick: the read, and when its result is negative and
    the descriptor is valid, [close], [open] (returning [fd_new]) and a
    second read. *)
Definition read_counter (fd : Z) (first : option (list ascii))
    (fd_new : Z) (second : option (list ascii)) : counter_read :=
  let v := read_int_fd fd first 128 in
  if (v <? 0) && (0 <=? fd)
  then mk_counter_read (read_int_fd fd_new second 128) fd_new true
  else mk_counter_read v fd false.

Record timespec : Type := mk_timespec {
  tv_sec : Z;
  tv_nsec : Z
}.

Definition NSEC_PER_SEC : Z := 1000000000.

Definition nanoseconds (t : timespec) : Z := tv_sec t * NSEC_PER_SEC + tv_nsec t.

(** The calls by which the loops of the sources wait. *)
Inductive wait_call : Type :=
| clock_nanosleep_ABSTIME (deadline : timespec)
| nanosleep (duration : timespec).

(** The state of the loop that matters for its timing: the anchor [next],
    the reading of the monotonic clock in nanoseconds, and the waits
    issued so far. *)
Record loop_state : Type := mk_loop_state {
  next : timespec;
  clock : Z;
  waits : list wait_call
}.

(** [clock_gettime(CLOCK_MONOTONIC, &next)] at the time [t0]. *)
Definition loop_start (t0 : timespec) : loop_state :=
  mk_loop_state t0 (nanoseconds t0) [].

(** The clock when a wait returns with no delay of its own: an absolute
    wait returns at once if the deadline has passed. *)
Definition after_wait (now : Z) (w : wait_call) : Z :=
  match w with
  | clock_nanosleep_ABSTIME deadline => Z.max now (nanoseconds deadline)
  | nanosleep duration => now + nanoseconds duration
  end.

(** One iteration of the loop of [main]: the reads and the row take [work]
    nanoseconds, then [next.tv_sec += 1] and the absolute wait. *)
Definition tick (st : loop_state) (work : Z) : loop_state :=
  let next' := mk_timespec (long_of (tv_sec (next st) + 1)) (tv_nsec (next st)) in
  let w := clock_nanosleep_ABSTIME next' in
  mk_loop_state next' (after_wait (clock st + work) w) (waits st ++ [w]).

(** The loop, for the iterations whose work durations are given. *)
Definition run_ticks (t0 : timespec) (works : list Z) : loop_state :=
  fold_left tick works (loop_start t0).

(** [msleep_exact(ms)] of util_logger.c. *)
Definition msleep_exact (ms : Z) : wait_call :=
  nanosleep (mk_timespec (Z.quot ms 1000) (Z.rem ms 1000 * 1000000)).

(** One iteration of the loop of util_logger.c: the relative wait, then
    the work; the anchor plays no part. *)
Definition tick_relative (interval_sec : Z) (st : loop_state) (work : Z) : loop_state :=
  let w := msleep_exact (int_of (interval_sec * 1000)) in
  mk_loop_state (next st) (after_wait (clock st) w + work) (waits st ++ [w]).

Definition run_ticks_relative (interval_sec : Z) (t0 : timespec) (works : list Z)
    : loop_state :=
  fold_left (tick_relative interval_sec) works (loop_start t0).

Definition is_absolute (w : wait_call) : bool :=
  match w with
  | clock_nanosleep_ABSTIME _ => true
  | nanosleep _ => false
  end.

End Logger.

(** ** More of the C library: [strtol] with its end pointer, [strchr],
    [strcspn] and [strcmp] *)

Module LibcMore.

Definition CR : ascii := ascii_of_N 13.

(** The characters ["\r\n"]. *)
Definition CRLF : cstr := [CR; NEWLINE].

(** [strtol(nptr, &end, 10)]: the value and the string at [end]; [None]
    when no conversion is performed, where [strtol] returns 0 and sets
    [end] to [nptr]. *)
Definition strtol (nptr : cstr) : option (Z * cstr) :=
  match scan_decimal (skip_space nptr) with
  | Some (neg, m, rest) => Some (to_long neg m, rest)
  | None => None
  end.

(** [strchr(s, c) + 1]: the string after the first [c]; [None] for NULL. *)
Fixpoint strchr_after (s : cstr) (c : ascii) : option cstr :=
  match s with
  | [] => None
  | x :: rest => if Ascii.eqb x c then Some rest else strchr_after rest c
  end.

(** [strcspn(s, reject)] *)
Fixpoint strcspn (s reject : cstr) : nat :=
  match s with
  | [] => O
  | c :: rest => if existsb (Ascii.eqb c) reject then O else S (strcspn rest reject)
  end.

(** [strcmp(a, b) == 0] *)
Definition strcmp_eq0 (a b : cstr) : bool := cstr_eqb a b.

(** The value of the digits [ds] read after the value [v]. *)
Definition digits_from (v : Z) (ds : cstr) : Z :=
  fold_left (fun v c => v * 10 + digit_val c) ds v.

(** The character [c] does not occur in [s]. *)
Definition free_of (c : ascii) (s : cstr) : Prop :=
  List.Forall (fun x => Ascii.eqb x c = false) s.

End LibcMore.

Import LibcMore.

(** ** The command line of cpu_logger.c, logger.c and combined_gpu_logger.c *)

Module TimeArg.

(** The loop of [parse_time_arg] over [argv[i]], [argv[i+1]], ...: the
    return value and the content of [out] afterwards. *)
Fixpoint time_arg_loop (args : list cstr) (out : Z) : Z * Z :=
  match args with
  | [] => (-1, out)
  | arg :: rest =>
      if strncmp_eq0 arg (lit "-time") 5 || strncmp_eq0 arg (lit "-t") 2 then
        let val :=
          match strchr_after arg "="%char with
          | Some after => Some after
          | None => match rest with
                    | next :: _ => Some next
                    | [] => None
                    end
          end in
        match val with
        | None => (-1, out)
        | Some v =>
            match strtol v with
            | None => (-1, out)
            | Some (s, _) => if s <=? 0 then (-1, out) else (0, s)
            end
        end
      else time_arg_loop rest out
  end.

(** [parse_time_arg(argc, argv, &out)]; [argv[0]] is not looked at. *)
Definition parse_time_arg (argv : list cstr) (out : Z) : Z * Z :=
  time_arg_loop (tl argv) out.

(** An argument the loop takes for the time option. *)
Definition is_time_option (arg : cstr) : bool :=
  strncmp_eq0 arg (lit "-time") 5 || strncmp_eq0 arg (lit "-t") 2.

End TimeArg.

(** ** log.c: the GPU node, the custom sensors and the command line *)

Module LogIO.

Definition MAX_CUSTOM_SENSORS : nat := 50.
Definition MAX_SENSOR_PATH_LEN : nat := 256.
Definition MAX_SENSOR_VALUE_LEN : nat := 128.

(** [get_gpu_utilization(gpu_path)], on the content of the node, [None]
    when it cannot be opened. *)
Definition get_gpu_utilization (node : option (list ascii)) : Z :=
  match node with
  | None => -1
  | Some content =>
      match fgets 32 content with
      | Some (buffer, _) =>
          let r := scan [Conv Conv_d] buffer in
          if negb (scan_count r =? 1) then -1 else assigned r 0 (-1)
      | None => -1
      end
  end.

(** [s[strcspn(s, "\r\n")] = 0]: the string cut at its first line
    terminator. *)
Definition chomp (s : cstr) : cstr := firstn (strcspn s CRLF) s.

(** [read_generic_sensor_value(path, value_buffer, buffer_len)]: the
    string left in the buffer when the function returns 0, [None] when it
    returns -1. *)
Definition read_generic_sensor_value (file : option (list ascii)) (buffer_len : nat)
    : option cstr :=
  match file with
  | None => None
  | Some content =>
      match fgets buffer_len content with
      | Some (value_buffer, _) => Some (chomp value_buffer)
      | None => None
      end
  end.

(** The cell [main] shows for a sensor. *)
Definition sensor_cell (file : option (list ascii)) : cstr :=
  match read_generic_sensor_value file MAX_SENSOR_VALUE_LEN with
  | Some v => v
  | None => lit "N/A"
  end.

(** The second loop of [load_custom_sensor_paths], on the paths stored so
    far ([current_idx] is their number). *)
Fixpoint load_paths_loop (lines : list cstr) (count : nat) (paths : list cstr)
    : list cstr :=
  match lines with
  | [] => paths
  | line_buffer :: rest =>
      if (List.length paths <? count)%nat then
        let line := chomp line_buffer in
        if (0 <? List.length line)%nat
        then load_paths_loop rest count (paths ++ [line])
        else load_paths_loop rest count paths
      else paths
  end.

(** [load_custom_sensor_paths(filename)]: the paths stored in
    [custom_sensor_paths], whose number is [num_custom_sensors].  The
    argument is the content of the list file, [None] when no file name
    was given or the file cannot be opened; both passes read the same
    content and the allocations succeed. *)
Definition load_custom_sensor_paths (list_file : option (list ascii)) : list cstr :=
  match list_file with
  | None => []
  | Some content =>
      let lines := fgets_lines MAX_SENSOR_PATH_LEN content in
      let count :=
        List.length (List.filter (fun l => (0 <? strcspn l CRLF)%nat) lines) in
      if (count =? 0)%nat then []
      else
        let count := if (MAX_CUSTOM_SENSORS <? count)%nat then MAX_CUSTOM_SENSORS else count in
        load_paths_loop lines count []
  end.

Record options : Type := mk_options {
  csv_output_filename : option cstr;
  sensor_list_filename : option cstr;
  run_duration_seconds : Z;
  quiet_mode : bool
}.

(** What the argument loop of [main] ends in: the options to run with, or
    the exit status [main] returns at once. *)
Inductive parse_result : Type :=
| Run (o : options)
| Exit (status : Z).

Definition initial_options : options := mk_options None None (-1) false.

Definition is_option (arg : cstr) (short long : String.string) : bool :=
  strcmp_eq0 arg (lit short) || strcmp_eq0 arg (lit long).

Arguments is_option arg (short long)%_string.

(** The argument loop of [main], over [argv[i]], [argv[i+1]], ... *)
Fixpoint parse_args (args : list cstr) (o : options) : parse_result :=
  match args with
  | [] => Run o
  | arg :: rest =>
      if is_option arg "-o" "--out" then
        match rest with
        | v :: rest' =>
            parse_args rest'
              (mk_options (Some v) (sensor_list_filename o) (run_duration_seconds o)
                          (quiet_mode o))
        | [] => Exit 1
        end
      else if is_option arg "-d" "--duration" then
        match rest with
        | v :: rest' =>
            match strtol v with
            | Some (s, []) =>
                if s <=? 0 then Exit 1
                else parse_args rest'
                       (mk_options (csv_output_filename o) (sensor_list_filename o) s
                                   (quiet_mode o))
            | _ => Exit 1
            end
        | [] => Exit 1
        end
      else if is_option arg "-s" "--sensors" then
        match rest with
        | v :: rest' =>
            parse_args rest'
              (mk_options (csv_output_filename o) (Some v) (run_duration_seconds o)
                          (quiet_mode o))
        | [] => Exit 1
        end
      else if is_option arg "-q" "--quiet" then
        parse_args rest
          (mk_options (csv_output_filename o) (sensor_list_filename o)
                      (run_duration_seconds o) true)
      else if is_option arg "-h" "--help" then Exit 0
      else Exit 1
  end.

(** The options [main] runs with for the command line [argv]. *)
Definition main_options (argv : list cstr) : parse_result :=
  parse_args (tl argv) initial_options.

End LogIO.

(** ** util_logger.c: the command line *)

Module UtilArgs.

Record options : Type := mk_options {
  interval_sec : Z;
  samples : Z;
  out_path : cstr
}.

Definition initial_options : options := mk_options 1 (-1) (lit "util_log.csv").

(** The argument loop of [main]: the options, or [None] when [main]
    prints the usage and returns 1. *)
Fixpoint parse_args (args : list cstr) (o : options) : option options :=
  match args with
  | [] => Some o
  | arg :: rest =>
      match rest with
      | v :: rest' =>
          if strcmp_eq0 arg (lit "-i") then
            let interval := atoi v in
            parse_args rest'
              (mk_options (if interval <=? 0 then 1 else interval) (samples o) (out_path o))
          else if strcmp_eq0 arg (lit "-n") then
            let n := match strtol v with
                     | Some (s, _) => s
                     | None => 0
                     end in
            parse_args rest'
              (mk_options (interval_sec o) (if n <? 0 then -1 else n) (out_path o))
          else if strcmp_eq0 arg (lit "-o") then
            parse_args rest' (mk_options (interval_sec o) (samples o) v)
          else None
      | [] => None
      end
  end.

Definition main_options (argv : list cstr) : option options :=
  parse_args (tl argv) initial_options.

End UtilArgs.

(** ** logger.c: one counter over the ticks of a run *)

Module LoggerRun.

Import Logger.

(** What a tick presents to one counter: the node at the first read, the
    descriptor a reopen would return, and the node at the second read. *)
Record counter_tick : Type := mk_counter_tick {
  first_read : option (list ascii);
  reopen_fd : Z;
  second_read : option (list ascii)
}.

(** The values one counter contributes to the rows of the run, and its
    descriptor at the end: each tick reads through the descriptor the
    tick before left. *)
Fixpoint counter_ticks (fd : Z) (ticks : list counter_tick) : list Z * Z :=
  match ticks with
  | [] => ([], fd)
  | t :: rest =>
      let r := read_counter fd (first_read t) (reopen_fd t) (second_read t) in
      let '(vs, fd') := counter_ticks (fd_after r) rest in
      (value r :: vs, fd')
  end.

End LoggerRun.

(** ** log.c: the sampling loop of [main] *)

Module LogRun.

Import Log.

Definition CSV_FLUSH_INTERVAL : Z := 10.

(** What the loop is set up with: the two flags of the command line,
    whether the CSV file was given and could be opened, whether the GPU
    node could be opened at start, the sensor paths loaded, and the
    duration (-1 for none).  The buffers for the sensor values are taken
    to be allocated. *)
Record setup : Type := mk_setup {
  quiet_mode : bool;
  csv_file : bool;
  gpu_monitoring_available : bool;
  custom_sensor_paths : list cstr;
  run_duration_seconds : Z
}.

(** What one pass of the loop reads: [/proc/stat], the GPU node, and the
    file behind each sensor path ([None] for a file that cannot be
    opened). *)
Record tick : Type := mk_tick {
  proc_stat : option (list ascii);
  gpu_node : option (list ascii);
  sensor_file : cstr -> option (list ascii)
}.

Inductive cell : Type :=
| Percent (util : float)     (* "%.2f" *)
| Number (z : Z)             (* "%d" *)
| Text (s : cstr)            (* "%s" *)
| NA.                        (* "N/A" *)


(** What the loop sends to the CSV file: a row, made of the time stamp
    and the cells after it, or a call of [fflush]. *)
Inductive event : Type :=
| Row (timestamp : Z) (cells : list cell)
| Flush.

(** The variables of [main] that live across passes. *)
Record loop_state : Type := mk_state {
  prev_core_stats : list CpuTime;
  prev_num_cpu_cores : nat;
  csv_seconds_counter : Z;
  csv_lines_since_last_flush : Z
}.

(** [i < bound && prev_core_stats[i].successfully_parsed
     && curr_core_stats[i].successfully_parsed], then the utilization or
    N/A.  [None] stands for a read outside one of the two arrays. *)
Definition core_cell (prev curr : list CpuTime) (bound : nat) (i : nat) : option cell :=
  if (i <? bound)%nat then
    match prev !! i with
    | None => None
    | Some p =>
        if successfully_parsed p =? 0 then Some NA
        else
          match curr !! i with
          | None => None
          | Some c =>
              if successfully_parsed c =? 0 then Some NA
              else Some (Percent (calculate_core_utilization p c))
          end
    end
  else Some NA.

(** The per-core lines of the console display: [i] runs over the cores of
    the current sample, guarded by [i < prev_num_cpu_cores]. *)
Definition console_cores (st : loop_state) (curr : list CpuTime) (num_cpu_cores : nat)
    : option (list cell) :=
  mapM (core_cell (prev_core_stats st) curr (prev_num_cpu_cores st)) (seq 0 num_cpu_cores).

(** The per-core cells of a CSV row: [i] runs below [prev_num_cpu_cores],
    guarded by [i < num_cpu_cores]. *)
Definition csv_cores (st : loop_state) (curr : list CpuTime) (num_cpu_cores : nat)
    : option (list cell) :=
  mapM (core_cell (prev_core_stats st) curr num_cpu_cores) (seq 0 (prev_num_cpu_cores st)).

Definition gpu_cells (cfg : setup) (gpu_util : Z) : list cell :=
  if gpu_monitoring_available cfg
  then [if gpu_util =? -1 then NA else Number gpu_util]
  else [].

(** How a pass of the loop ends: with a read outside an array, at the
    bottom of the loop with [keep_running] still set, or with
    [keep_running] cleared because the duration is reached. *)
Inductive outcome : Type :=
| Fault
| Continue (st : loop_state) (out : list event)
| Stop (st : loop_state) (out : list event).

(** The CSV block of a pass: what is sent to the file, nothing when no
    file is open. *)
Definition csv_row (cfg : setup) (st : loop_state) (curr : list CpuTime)
    (num_cpu_cores : nat) (gpu_util : Z) (custom_sensor_values : list cstr)
    : option (list event) :=
  if csv_file cfg then
    match csv_cores st curr num_cpu_cores with
    | Some cores =>
        Some [Row (csv_seconds_counter st)
                  (cores ++ gpu_cells cfg gpu_util ++ map Text custom_sensor_values)]
    | None => None
    end
  else Some [].

(** The end of a pass, after the row [written] went to the file: the
    flush every [CSV_FLUSH_INTERVAL] rows, the exchange of the two
    samples, the counter, and the test of the duration. *)
Definition finish_pass (cfg : setup) (st : loop_state) (curr : list CpuTime)
    (num_cpu_cores : nat) (written : list event) : outcome :=
  let lines :=
    if csv_file cfg then (csv_lines_since_last_flush st + 1) mod U32_MOD
    else csv_lines_since_last_flush st in
  let flushed := csv_file cfg && (CSV_FLUSH_INTERVAL <=? lines) in
  let out := if flushed then written ++ [Flush] else written in
  let counter := add64 (csv_seconds_counter st) 1 in
  let st' :=
    mk_state curr
             (if quiet_mode cfg then prev_num_cpu_cores st else num_cpu_cores)
             counter
             (if flushed then 0 else lines) in
  if (0 <? run_duration_seconds cfg) && (run_duration_seconds cfg <=? long_of counter)
  then Stop st' out
  else Continue st' out.

(** One pass of [while (keep_running)] that is not cut short by the
    signal. *)
Definition step (cfg : setup) (st : loop_state) (t : tick) : outcome :=
  let '(current_num_cpu_cores, curr_core_stats) := get_cpu_core_times (proc_stat t) in
  let gpu_util :=
    if gpu_monitoring_available cfg then LogIO.get_gpu_utilization (gpu_node t) else -1 in
  let custom_sensor_values :=
    map (fun path => LogIO.sensor_cell (sensor_file t path)) (custom_sensor_paths cfg) in
  match curr_core_stats with
  | None => Continue st []
  | Some curr =>
      if current_num_cpu_cores <=? 0 then Continue st []
      else
        let num_cpu_cores := Z.to_nat current_num_cpu_cores in
        let console :=
          if quiet_mode cfg then Some [] else console_cores st curr num_cpu_cores in
        match console,
              csv_row cfg st curr num_cpu_cores gpu_util custom_sensor_values with
        | Some _, Some written => finish_pass cfg st curr num_cpu_cores written
        | _, _ => Fault
        end
  end.

(** The loop over the passes that take place before the signal arrives:
    what was sent to the CSV file and the variables at the end, or [None]
    when a pass reads outside an array. *)
Fixpoint main_loop (cfg : setup) (st : loop_state) (ticks : list tick)
    : option (list event * loop_state) :=
  match ticks with
  | [] => Some ([], st)
  | t :: rest =>
      match step cfg st t with
      | Fault => None
      | Stop st' out => Some (out, st')
      | Continue st' out =>
          match main_loop cfg st' rest with
          | Some (outs, st'') => Some (out ++ outs, st'')
          | None => None
          end
      end
  end.

(** The variables as [main] sets them before the loop, from the first
    reading of [/proc/stat]; [None] when [main] returns 1. *)
Definition start (initial_stat : option (list ascii)) : option loop_state :=
  match get_cpu_core_times initial_stat with
  | (num_cpu_cores, Some prev) =>
      if num_cpu_cores <=? 0 then None
      else Some (mk_state prev (Z.to_nat num_cpu_cores) 0 0)
  | (_, None) => None
  end.



Definition timestamps (out : list event) : list Z :=
  omap (fun e => match e with Row ts _ => Some ts | Flush => None end) out.

(** The rows written since the last [fflush]. *)
Definition unflushed (out : list event) : nat :=
  fold_left (fun n e => match e with Row _ _ => S n | Flush => O end) out O.

(** A tick that only supplies [/proc/stat]. *)
Definition stat_tick (content : list ascii) : tick :=
  mk_tick (Some content) None (fun _ => None).

(** [/proc/stat] with the aggregate line and [n] core lines. *)
Definition stat_with_cores (n : nat) : list ascii :=
  lit "cpu  10 20 30 40 50 60 70 80 0 0" ++ [NEWLINE]
  ++ flat_map (fun _ => lit "cpu0 1 2 3 4 5 6 7 8 0 0" ++ [NEWLINE]) (seq 0 n).

End LogRun.

(** ** util_logger.c: the sampling loop of [main] *)

Module UtilRun.

Import UtilLogger.

(** What one pass of the loop reads: [/proc/stat] and the GPU node. *)
Record tick : Type := mk_tick {
  proc_stat : option (list ascii);
  gpu_node : option (list ascii)
}.

Inductive cell : Type :=
| Percent (util : float)     (* "%.2f" *)
| Unavailable.               (* "-1.00" *)

Record row : Type := mk_row {
  sample_idx : Z;
  gpu_busy : Z;
  cells : list cell
}.

(** [if (util[c] >= 0.0) ... else ...] *)
Definition util_cell (util : float) : cell :=
  if (0 <=? util)%float then Percent util else Unavailable.

Definition row_cells (s1 s2 : cpu_snap_t) : list cell :=
  map (fun c => util_cell (core_util s1 s2 c)) (seq 0 MAX_CORES).

(** [while (samples < 0 || sample_idx < samples)], over the passes that
    take place: the rows written, or [None] when a snapshot writes
    outside its arrays. *)
Fixpoint main_loop (samples sample_idx : Z) (s1 : cpu_snap_t) (ticks : list tick)
    : option (list row) :=
  match ticks with
  | [] => Some []
  | t :: rest =>
      if (samples <? 0) || (sample_idx <? samples) then
        match read_cpu_snapshot (proc_stat t) with
        | None => None
        | Some (ret, s2) =>
            if negb (ret =? 0) then Some []
            else
              let gpu_busy := gpu_busy_column (gpu_node t) in
              let sample_idx' := long_of (sample_idx + 1) in
              match main_loop samples sample_idx' s2 rest with
              | Some rows => Some (mk_row sample_idx' gpu_busy (row_cells s1 s2) :: rows)
              | None => None
              end
        end
      else Some []
  end.

(** The number of passes before the first one in which [/proc/stat]
    cannot be opened. *)
Fixpoint readable (ticks : list tick) : nat :=
  match ticks with
  | t :: rest => match proc_stat t with Some _ => S (readable rest) | None => O end
  | [] => O
  end.

End UtilRun.

(** * Properties *)

(** ** Facts about the machine arithmetic and the C library model *)

Section LibcFacts.

Lemma SFmul_comm (p e : Z) (x y : spec_float) : SFmul p e x y = SFmul p e y x.
Proof.
  destruct x as [sx| sx| |sx mx ex], y as [sy| sy| |sy my ey]; simpl;
    try reflexivity; try (now rewrite xorb_comm).
  now rewrite xorb_comm, Pos.mul_comm, Z.add_comm.
Qed.

Lemma float_mul_comm (x y : float) : (x * y = y * x)%float.
Proof.
  apply Prim2SF_inj. rewrite !mul_spec. apply SFmul_comm.
Qed.

(** Comparison of two floating-point values, neither of them a NaN, is
    defined and antisymmetric. *)
Lemma SFcompare_antisym (x y : spec_float) (c : comparison) :
  SFcompare x y = Some c -> SFcompare y x = Some (CompOpp c).
Proof.
  destruct x as [sx| sx| |sx mx ex], y as [sy| sy| |sy my ey]; cbn;
    try discriminate; intros [= <-];
    try (destruct sx; reflexivity); try (destruct sy; reflexivity);
    try (destruct sx, sy; reflexivity).
  destruct sx, sy; try reflexivity; f_equal.
  - rewrite (Z.compare_antisym ey ex).
    destruct (ey ?= ex); cbn; try reflexivity.
    now rewrite (Pos.compare_cont_antisym mx my Eq).
  - rewrite (Z.compare_antisym ey ex).
    destruct (ey ?= ex); cbn; try reflexivity.
    now rewrite (Pos.compare_cont_antisym mx my Eq).
Qed.

Lemma SFcompare_defined (x y : spec_float) :
  x <> S754_nan -> y <> S754_nan -> exists c, SFcompare x y = Some c.
Proof.
  intros Hx Hy.
  destruct x as [sx| sx| |sx mx ex], y as [sy| sy| |sy my ey]; cbn;
    try contradiction; eexists; reflexivity.
Qed.

Lemma add64_small (a b : Z) : 0 <= a + b < U64_MOD -> add64 a b = a + b.
Proof. intros H. unfold add64. now apply Z.mod_small. Qed.

Lemma sub64_small (a b : Z) : 0 <= a - b < U64_MOD -> sub64 a b = a - b.
Proof. intros H. unfold sub64. now apply Z.mod_small. Qed.

Lemma add64_add64_l (a b c : Z) : add64 (add64 a b) c = add64 a (b + c).
Proof. unfold add64. rewrite Zplus_mod_idemp_l. f_equal. lia. Qed.

Lemma long_of_small (z : Z) : - 2 ^ 63 <= z < 2 ^ 63 -> long_of z = z.
Proof.
  intros H. unfold long_of, wrap_signed.
  change (2 ^ (64 - 1)) with (2 ^ 63). 
  destruct (Z.ltb_spec (z mod 2 ^ 64) (2 ^ 63)) as [Hlt|Hge].
  - destruct (Z.neg_nonneg_cases z) as [Hneg|Hpos].
    + assert (E : z mod 2 ^ 64 = z + 2 ^ 64).
      { symmetry. apply Z.mod_unique_pos with (q := -1); lia. }
      lia.
    + apply Z.mod_small. lia.
  - destruct (Z.neg_nonneg_cases z) as [Hneg|Hpos].
    + assert (E : z mod 2 ^ 64 = z + 2 ^ 64).
      { symmetry. apply Z.mod_unique_pos with (q := -1); lia. }
      lia.
    + rewrite Z.mod_small in Hge by lia. lia.
Qed.

Lemma digit_is_plain (c : ascii) :
  isdigit c = true -> isspace c = false /\ is_minus c = false /\ is_plus c = false.
Proof.
  unfold isdigit, isspace, is_minus, is_plus. intros H.
  apply andb_true_iff in H as [H1 H2]. apply Z.leb_le in H1, H2.
  repeat split.
  - apply orb_false_iff. split; [apply Z.eqb_neq; lia|].
    apply andb_false_iff. right. apply Z.leb_gt. lia.
  - apply Z.eqb_neq. lia.
  - apply Z.eqb_neq. lia.
Qed.

Lemma span_digits_cons (d : ascii) (rest : cstr) :
  isdigit d = true ->
  span_digits (d :: rest) = (d :: fst (span_digits rest), snd (span_digits rest)).
Proof.
  intros H. cbn [span_digits]. rewrite H. now destruct (span_digits rest).
Qed.

Lemma span_digits_app (f rest : cstr) :
  List.Forall (fun c => isdigit c = true) f -> stops_digits rest ->
  span_digits (f ++ rest) = (f, rest).
Proof.
  intros Hf Hrest. induction Hf as [|c f Hc _ IH].
  - destruct rest as [|r rest]; [reflexivity|]. cbn in *. now rewrite Hrest.
  - cbn [app span_digits]. now rewrite Hc, IH.
Qed.

Lemma span_nonspace_app (l rest : cstr) (ws : ascii) :
  List.Forall (fun c => isspace c = false) l -> isspace ws = true ->
  span_nonspace (l ++ ws :: rest) = (l, ws :: rest).
Proof.
  intros Hl Hws. induction Hl as [|c l Hc _ IH].
  - cbn. now rewrite Hws.
  - cbn [app span_nonspace]. now rewrite Hc, IH.
Qed.

Lemma span_digits_nonneg (s : cstr) : 0 <= digits_value (fst (span_digits s)).
Proof.
  unfold digits_value.
  assert (G : forall (ds : cstr) (acc : Z), 0 <= acc ->
              List.Forall (fun c => isdigit c = true) ds ->
              0 <= fold_left (fun v c => v * 10 + digit_val c) ds acc).
  { induction ds as [|d ds IH]; intros acc Hacc Hall; [exact Hacc|].
    cbn [fold_left]. inversion Hall as [|? ? Hd Hds]; subst. apply IH; [|exact Hds].
    unfold isdigit in Hd. apply andb_true_iff in Hd as [H1 _]. apply Z.leb_le in H1.
    unfold digit_val. lia. }
  apply G; [lia|].
  induction s as [|c rest IH]; [constructor|].
  cbn [span_digits]. destruct (isdigit c) eqn:Hc; [|constructor].
  destruct (span_digits rest). cbn [fst] in *. now constructor.
Qed.

Lemma starts_with_iff (needle hay : cstr) :
  starts_with needle hay = true <-> exists post, hay = needle ++ post.
Proof.
  revert hay. induction needle as [|x needle IH]; intros hay.
  - cbn. split; [intros _; now exists hay | reflexivity].
  - destruct hay as [|y hay]; cbn [starts_with].
    + split; [discriminate | intros [post H]; discriminate].
    + rewrite andb_true_iff, Ascii.eqb_eq, IH. split.
      * intros [-> [post ->]]. now exists post.
      * intros [post [= -> ->]]. split; [reflexivity | now exists post].
Qed.

Lemma fgets_chars_rest (room : nat) (stream : list ascii) :
  (List.length (snd (fgets_chars room stream)) <= List.length stream)%nat.
Proof.
  revert stream. induction room as [|room IH]; intros stream.
  - destruct stream; cbn; lia.
  - destruct stream as [|c rest]; [cbn; lia|].
    cbn [fgets_chars]. destruct (Ascii.eqb c NEWLINE); [cbn; lia|].
    specialize (IH rest). destruct (fgets_chars room rest) as [l rest']. cbn in *. lia.
Qed.

(** A call of [fgets] with room for a character consumes at least one. *)
Lemma fgets_consumes (size : nat) (stream : list ascii) (line : cstr) (rest : list ascii) :
  (2 <= size)%nat -> fgets size stream = Some (line, rest) ->
  (List.length rest < List.length stream)%nat.
Proof.
  intros Hsize. unfold fgets. destruct stream as [|c stream]; [discriminate|].
  destruct (size - 1)%nat as [|room] eqn:E; [lia|].
  cbn [fgets_chars]. destruct (Ascii.eqb c NEWLINE).
  - intros [= _ <-]. cbn. lia.
  - pose proof (fgets_chars_rest room stream) as H.
    destruct (fgets_chars room stream) as [l rest']. intros [= _ <-]. cbn in *. lia.
Qed.

(** The fuel of [fgets_lines] is never exhausted: with any larger fuel the
    loop returns the same lines, the last call being the one that finds
    the end of the file. *)
Lemma fgets_lines_fuel (size fuel : nat) (stream : list ascii) :
  (2 <= size)%nat -> (List.length stream < fuel)%nat ->
  fgets_loop fuel size stream = fgets_lines size stream.
Proof.
  intros Hsize. unfold fgets_lines.
  assert (G : forall n m s, (List.length s < n)%nat -> (List.length s < m)%nat ->
                            fgets_loop n size s = fgets_loop m size s).
  { induction n as [|n IH]; intros m s Hn Hm; [lia|].
    destruct m as [|m]; [lia|]. cbn [fgets_loop].
    destruct (fgets size s) as [[line rest]|] eqn:E; [|reflexivity].
    pose proof (fgets_consumes size s line rest Hsize E) as Hlt.
    f_equal. apply IH; lia. }
  intros Hfuel. apply G; lia.
Qed.

End LibcFacts.

(** ** The utilization calculator of log.c *)

Section UtilizationCalculator.

Import Log.

Lemma unavailable_not_zero : Log.UNAVAILABLE <> 0%float.
Proof.
  intro H. apply (f_equal (fun x => PrimFloat.ltb x 0)) in H.
  vm_compute in H. discriminate.
Qed.

Lemma idle_of_spec (t : CpuTime) : ticks_in_range t -> idle_of t = spec_idle_like t.
Proof.
  unfold ticks_in_range, spec_total, spec_idle_like, spec_non_idle, idle_of.
  intros H. apply add64_small. lia.
Qed.

Lemma non_idle_of_spec (t : CpuTime) : ticks_in_range t -> non_idle_of t = spec_non_idle t.
Proof.
  unfold ticks_in_range, spec_total, spec_idle_like, spec_non_idle, non_idle_of.
  intros H.
  repeat match goal with
         | |- context [add64 ?a ?b] => rewrite (add64_small a b) by lia
         end.
  reflexivity.
Qed.

Lemma total_of_spec (t : CpuTime) : ticks_in_range t -> total_of t = spec_total t.
Proof.
  intros H. unfold total_of. rewrite idle_of_spec, non_idle_of_spec by assumption.
  apply add64_small. unfold ticks_in_range, spec_total, spec_idle_like, spec_non_idle in *.
  lia.
Qed.

Lemma non_idle_of_mod (t : CpuTime) : non_idle_of t = spec_non_idle t mod U64_MOD.
Proof.
  unfold non_idle_of, spec_non_idle. rewrite !add64_add64_l. unfold add64. f_equal. lia.
Qed.

(** The 64-bit total is the unbounded total reduced modulo [2^64]. *)
Lemma total_of_mod (t : CpuTime) : total_of t = spec_total t mod U64_MOD.
Proof.
  unfold total_of. rewrite non_idle_of_mod. unfold idle_of, spec_total, add64.
  fold (spec_idle_like t). symmetry. apply Z.add_mod. unfold U64_MOD. lia.
Qed.

Lemma spec_total_delta_zero (prev curr : CpuTime) :
  spec_total curr - spec_total prev = 0 -> sub64 (total_of curr) (total_of prev) = 0.
Proof.
  intros H. rewrite !total_of_mod. replace (spec_total curr) with (spec_total prev) by lia.
  unfold sub64. rewrite Z.sub_diag. reflexivity.
Qed.

Lemma add64_range (a b : Z) : 0 <= add64 a b < U64_MOD.
Proof. unfold add64. apply Z.mod_pos_bound. unfold U64_MOD. lia. Qed.

(** On the 64-bit totals themselves: when neither the total nor the
    idle-like value decreased, the total increased and the idle delta does
    not exceed the total delta, the result is the clamped quotient of the
    deltas, with no assumption on the size of the tick counts. *)
Lemma utilization_of_deltas (prev curr : CpuTime) :
  successfully_parsed prev <> 0 ->
  successfully_parsed curr <> 0 ->
  total_of prev < total_of curr ->
  idle_of prev <= idle_of curr ->
  idle_of curr - idle_of prev <= total_of curr - total_of prev ->
  calculate_core_utilization prev curr
  = clamp_percent
      (double_of_Z ((total_of curr - total_of prev) - (idle_of curr - idle_of prev))
       * 100 / double_of_Z (total_of curr - total_of prev))%float.
Proof.
  intros Hp Hc Ht Hi Hle. unfold calculate_core_utilization.
  apply Z.eqb_neq in Hp, Hc. rewrite Hp, Hc. cbn [orb].
  pose proof (add64_range (idle_of prev) (non_idle_of prev)) as Rp.
  pose proof (add64_range (idle_of curr) (non_idle_of curr)) as Rc.
  pose proof (add64_range (idle prev) (iowait prev)) as Ip.
  pose proof (add64_range (idle curr) (iowait curr)) as Ic.
  fold (total_of prev) in Rp. fold (total_of curr) in Rc.
  fold (idle_of prev) in Ip. fold (idle_of curr) in Ic.
  rewrite (sub64_small (total_of curr)), (sub64_small (idle_of curr)) by lia.
  rewrite sub64_small by lia.
  destruct (Z.eqb_spec (total_of curr - total_of prev) 0) as [E|_]; [lia|].
  destruct (Z.ltb_spec (total_of curr) (total_of prev)) as [E|_]; [lia|].
  destruct (Z.ltb_spec (idle_of curr) (idle_of prev)) as [E|_]; [lia|].
  reflexivity.
Qed.

(** The clamp leaves a value between 0 and 100, unless it is handed a NaN. *)
Lemma clamp_percent_range (u : float) :
  PrimFloat.is_nan (clamp_percent u) = false ->
  (0 <=? clamp_percent u)%float = true /\ (clamp_percent u <=? 100)%float = true.
Proof.
  unfold clamp_percent.
  destruct (u <? 0)%float eqn:Hlo; [intros _; split; reflexivity|].
  destruct (100 <? u)%float eqn:Hhi; [intros _; split; reflexivity|].
  intros Hnan. unfold PrimFloat.is_nan in Hnan. apply negb_false_iff in Hnan.
  rewrite eqb_spec in Hnan. rewrite ltb_spec in Hlo, Hhi. rewrite !leb_spec.
  assert (Hu : Prim2SF u <> S754_nan).
  { intros E. rewrite E in Hnan. discriminate. }
  change (Prim2SF 0) with (S754_zero false) in *.
  set (h := Prim2SF 100) in *.
  assert (Hh : h <> S754_nan) by (vm_compute; discriminate).
  clearbody h.
  split.
  - destruct (SFcompare_defined (Prim2SF u) (S754_zero false) Hu) as [c Hc]; [discriminate|].
    unfold SFltb in Hlo. unfold SFleb. rewrite Hc in Hlo.
    rewrite (SFcompare_antisym _ _ _ Hc). destruct c; (reflexivity || discriminate).
  - destruct (SFcompare_defined h (Prim2SF u) Hh Hu) as [c Hc].
    unfold SFltb in Hhi. unfold SFleb. rewrite Hc in Hhi.
    rewrite (SFcompare_antisym _ _ _ Hc). destruct c; (reflexivity || discriminate).
Qed.

(** For two successfully parsed samples the result, when it is a number,
    is a percentage between 0 and 100. *)
Lemma utilization_in_range (prev curr : CpuTime) :
  successfully_parsed prev <> 0 ->
  successfully_parsed curr <> 0 ->
  PrimFloat.is_nan (calculate_core_utilization prev curr) = false ->
  (0 <=? calculate_core_utilization prev curr)%float = true
  /\ (calculate_core_utilization prev curr <=? 100)%float = true.
Proof.
  intros Hp Hc. unfold calculate_core_utilization.
  apply Z.eqb_neq in Hp, Hc. rewrite Hp, Hc. cbn [orb].
  destruct (sub64 (total_of curr) (total_of prev) =? 0); [intros _; split; reflexivity|].
  destruct ((total_of curr <? total_of prev) || (idle_of curr <? idle_of prev));
    [intros _; split; reflexivity|].
  apply clamp_percent_range.
Qed.

Lemma fields_monotone_not_backward (prev curr : CpuTime) :
  fields_monotone prev curr -> counters_not_backward prev curr.
Proof.
  unfold fields_monotone, counters_not_backward, spec_idle_like, spec_non_idle. lia.
Qed.

(** Where log.c meets the formula.  For two successfully parsed samples
    whose tick counts are in range, of which neither the idle-like nor the
    non-idle time decreased, and whose total delta is positive,
    [calculate_core_utilization] returns
    [100 * (total_delta - idle_delta) / total_delta] clamped to [0, 100],
    with idle-like = idle + iowait, non-idle = user + nice + system + irq +
    softirq + steal and total = idle-like + non-idle (guest fields
    excluded); the result, when it is a number, lies between 0 and 100; on
    the samples {user=100, idle=900} and {user=150, idle=950} it is exactly
    50.0. *)
Theorem utilization_matches_formula (prev curr : CpuTime) :
  successfully_parsed prev <> 0 ->
  successfully_parsed curr <> 0 ->
  ticks_in_range prev ->
  ticks_in_range curr ->
  counters_not_backward prev curr ->
  0 < spec_total curr - spec_total prev ->
  calculate_core_utilization prev curr = spec_utilization prev curr
  /\ (PrimFloat.is_nan (calculate_core_utilization prev curr) = false ->
      (0 <=? calculate_core_utilization prev curr)%float = true
      /\ (calculate_core_utilization prev curr <=? 100)%float = true)
  /\ calculate_core_utilization snapshot1 snapshot2 = 50%float.
Proof.
  intros Hp Hc Rp Rc Hmono Hpos.
  split; [|split; [now apply utilization_in_range | vm_compute; reflexivity]].
  unfold calculate_core_utilization, spec_utilization.
  apply Z.eqb_neq in Hp, Hc. rewrite Hp, Hc. cbn [orb].
  rewrite !total_of_spec, !idle_of_spec by assumption.
  assert (Hi : 0 <= spec_idle_like curr - spec_idle_like prev
               <= spec_total curr - spec_total prev).
  { unfold counters_not_backward, spec_total in *. lia. }
  assert (Ht : spec_total curr - spec_total prev < U64_MOD).
  { unfold ticks_in_range, spec_total, spec_idle_like, spec_non_idle in *. lia. }
  rewrite (sub64_small (spec_total curr)), (sub64_small (spec_idle_like curr)) by lia.
  rewrite sub64_small by lia.
  destruct (Z.eqb_spec (spec_total curr - spec_total prev) 0) as [E|_]; [lia|].
  destruct (Z.ltb_spec (spec_total curr) (spec_total prev)) as [E|_]; [lia|].
  destruct (Z.ltb_spec (spec_idle_like curr) (spec_idle_like prev)) as [E|_]; [lia|].
  cbn [orb]. f_equal. f_equal. apply float_mul_comm.
Qed.

Lemma utilization_matches_formula_witness :
  calculate_core_utilization snapshot1 snapshot2 = spec_utilization snapshot1 snapshot2.
Proof.
  apply (proj1 (utilization_matches_formula snapshot1 snapshot2
                  ltac:(vm_compute; discriminate) ltac:(vm_compute; discriminate)
                  ltac:(vm_compute; intuition discriminate)
                  ltac:(vm_compute; intuition discriminate)
                  ltac:(vm_compute; intuition discriminate)
                  ltac:(vm_compute; reflexivity))).
Defined.

(** C2. For two successfully parsed samples whose total delta is exactly
    zero, [calculate_core_utilization] returns 0.0, which is not the
    unavailable marker, whatever the idle fields hold. *)
Theorem zero_total_delta_is_zero_percent (prev curr : CpuTime) :
  successfully_parsed prev <> 0 ->
  successfully_parsed curr <> 0 ->
  sub64 (total_of curr) (total_of prev) = 0 ->
  calculate_core_utilization prev curr = 0%float
  /\ calculate_core_utilization prev curr <> UNAVAILABLE.
Proof.
  intros Hp Hc Hz.
  assert (E : calculate_core_utilization prev curr = 0%float).
  { unfold calculate_core_utilization.
    apply Z.eqb_neq in Hp, Hc. rewrite Hp, Hc. cbn [orb].
    rewrite Hz. reflexivity. }
  split; [exact E|]. rewrite E. intro H. symmetry in H. now apply unavailable_not_zero.
Qed.

Lemma zero_total_delta_is_zero_percent_witness :
  calculate_core_utilization snapshot1 snapshot1 = 0%float
  /\ calculate_core_utilization snapshot1 snapshot1 <> UNAVAILABLE.
Proof.
  apply (zero_total_delta_is_zero_percent snapshot1 snapshot1);
    [vm_compute; discriminate | vm_compute; discriminate | vm_compute; reflexivity].
Defined.

(** C3. For two successfully parsed samples where the current total is
    below the previous total, or the current idle-like value is below the
    previous one, [calculate_core_utilization] returns 0.0: not the
    unavailable marker and not a negative value. *)
Theorem backward_counter_is_zero_percent (prev curr : CpuTime) :
  successfully_parsed prev <> 0 ->
  successfully_parsed curr <> 0 ->
  total_of curr < total_of prev \/ idle_of curr < idle_of prev ->
  calculate_core_utilization prev curr = 0%float
  /\ calculate_core_utilization prev curr <> UNAVAILABLE
  /\ (calculate_core_utilization prev curr <? 0)%float = false.
Proof.
  intros Hp Hc Hback.
  assert (E : calculate_core_utilization prev curr = 0%float).
  { unfold calculate_core_utilization.
    apply Z.eqb_neq in Hp, Hc. rewrite Hp, Hc. cbn [orb].
    destruct (sub64 (total_of curr) (total_of prev) =? 0); [reflexivity|].
    destruct Hback as [H|H]; apply Z.ltb_lt in H; rewrite H;
      [reflexivity | now rewrite orb_true_r]. }
  rewrite E. repeat split.
  intro H. symmetry in H. now apply unavailable_not_zero.
Qed.

Lemma backward_counter_is_zero_percent_witness :
  calculate_core_utilization snapshot2 snapshot1 = 0%float
  /\ calculate_core_utilization snapshot2 snapshot1 <> UNAVAILABLE
  /\ (calculate_core_utilization snapshot2 snapshot1 <? 0)%float = false.
Proof.
  apply (backward_counter_is_zero_percent snapshot2 snapshot1);
    [vm_compute; discriminate | vm_compute; discriminate | left; vm_compute; reflexivity].
Defined.

(** C4. When the success flag of either sample is false,
    [calculate_core_utilization] returns the unavailable marker, which is
    neither zero nor a percentage; the result does not depend on any tick
    field of the two samples, and the CSV cell [main] writes for such a
    core is N/A. *)
Theorem unparsed_sample_is_unavailable (prev curr : CpuTime) :
  successfully_parsed prev = 0 \/ successfully_parsed curr = 0 ->
  calculate_core_utilization prev curr = UNAVAILABLE
  /\ UNAVAILABLE <> 0%float
  /\ (UNAVAILABLE <? 0)%float = true
  /\ (forall prev' curr' : CpuTime,
        successfully_parsed prev' = successfully_parsed prev ->
        successfully_parsed curr' = successfully_parsed curr ->
        calculate_core_utilization prev' curr' = calculate_core_utilization prev curr)
  /\ (forall (prev_core_stats curr_core_stats : list CpuTime) (num_cpu_cores i : nat),
        prev_core_stats !! i = Some prev ->
        curr_core_stats !! i = Some curr ->
        csv_core_cell prev_core_stats curr_core_stats num_cpu_cores i = None).
Proof.
  intros Hflag.
  assert (E : forall p c, successfully_parsed p = successfully_parsed prev ->
                          successfully_parsed c = successfully_parsed curr ->
                          calculate_core_utilization p c = UNAVAILABLE).
  { intros p c Ep Ec. unfold calculate_core_utilization. rewrite Ep, Ec.
    destruct Hflag as [H|H]; rewrite H; cbn; [reflexivity | now rewrite orb_true_r]. }
  split; [now apply E|]. split; [exact unavailable_not_zero|].
  split; [reflexivity|]. split.
  - intros p c Ep Ec. rewrite (E p c Ep Ec). symmetry. now apply E.
  - intros ps cs n i Hp Hc. unfold csv_core_cell. rewrite Hp, Hc.
    destruct Hflag as [H|H]; rewrite H; cbn;
      [now rewrite andb_false_r | now rewrite andb_false_r].
Qed.

Lemma unparsed_sample_is_unavailable_witness :
  calculate_core_utilization CpuTime_zero snapshot2 = UNAVAILABLE.
Proof.
  apply (proj1 (unparsed_sample_is_unavailable CpuTime_zero snapshot2 (or_introl eq_refl))).
Defined.

(** C1.  The claim fails on log.c where the lower clamp would be needed.
    When the non-idle time decreased while the total and the idle-like
    time did not go backward, the numerator [total_delta - idle_delta] of
    the formula is negative and the claimed result is 0.0.  The code
    forms the numerator in unsigned 64-bit arithmetic, where it wraps to
    [2^64 + total_delta - idle_delta], so the value converted to double
    is never negative, the test [util < 0.0] never succeeds, and the
    upper clamp turns the result into 100.0.  So it is on the samples
    {user=100, idle=900, steal=7} and {user=100, idle=1000, steal=5}, and
    on {user=10} and {user=5, idle=10}: both parsed, total delta 98 and 5,
    idle-like delta 100 and 10. *)
Theorem lower_clamp_is_missed :
  (forall prev curr : CpuTime,
      ticks_in_range prev -> ticks_in_range curr ->
      spec_total prev <= spec_total curr ->
      spec_idle_like prev <= spec_idle_like curr ->
      spec_non_idle curr < spec_non_idle prev ->
      sub64 (sub64 (total_of curr) (total_of prev)) (sub64 (idle_of curr) (idle_of prev))
      = U64_MOD + ((spec_total curr - spec_total prev)
                   - (spec_idle_like curr - spec_idle_like prev))
      /\ 0 < sub64 (sub64 (total_of curr) (total_of prev))
                   (sub64 (idle_of curr) (idle_of prev)))
  /\ (let prev := mkCpuTime 100 0 0 900 0 0 0 7 0 0 1 in
      let curr := mkCpuTime 100 0 0 1000 0 0 0 5 0 0 1 in
      spec_total curr - spec_total prev = 98
      /\ spec_idle_like curr - spec_idle_like prev = 100
      /\ spec_utilization prev curr = 0%float
      /\ calculate_core_utilization prev curr = 100%float)
  /\ (let prev := mkCpuTime 10 0 0 0 0 0 0 0 0 0 1 in
      let curr := mkCpuTime 5 0 0 10 0 0 0 0 0 0 1 in
      spec_total curr - spec_total prev = 5
      /\ spec_idle_like curr - spec_idle_like prev = 10
      /\ spec_utilization prev curr = 0%float
      /\ calculate_core_utilization prev curr = 100%float).
Proof.
  split; [|split; vm_compute; repeat split].
  intros prev curr Rp Rc Ht Hi Hn.
  rewrite !total_of_spec, !idle_of_spec by assumption.
  assert (Bp : 0 <= spec_idle_like prev /\ spec_idle_like prev <= spec_total prev
               /\ spec_total prev < U64_MOD)
    by (unfold ticks_in_range, spec_total, spec_idle_like, spec_non_idle in *; lia).
  assert (Bc : 0 <= spec_idle_like curr /\ spec_idle_like curr <= spec_total curr
               /\ spec_total curr < U64_MOD)
    by (unfold ticks_in_range, spec_total, spec_idle_like, spec_non_idle in *; lia).
  assert (Hd : spec_total curr - spec_total prev
               < spec_idle_like curr - spec_idle_like prev)
    by (unfold spec_total in *; lia).
  rewrite (sub64_small (spec_total curr)), (sub64_small (spec_idle_like curr)) by lia.
  assert (E : sub64 (spec_total curr - spec_total prev)
                    (spec_idle_like curr - spec_idle_like prev)
              = U64_MOD + ((spec_total curr - spec_total prev)
                           - (spec_idle_like curr - spec_idle_like prev))).
  { unfold sub64. symmetry. apply Z.mod_unique_pos with (q := -1); unfold U64_MOD in *; lia. }
  rewrite E. split; [reflexivity | unfold U64_MOD in *; lia].
Qed.

(** When the non-idle counters went backward by more than the idle ones
    advanced, the unsigned difference wraps and log.c reports 100.0. *)
Example non_idle_backward_reports_full_load :
  Log.calculate_core_utilization
    (Log.mkCpuTime 10 0 0 0 0 0 0 0 0 0 1) (Log.mkCpuTime 5 0 0 10 0 0 0 0 0 0 1)
  = 100%float.
Proof. vm_compute. reflexivity. Qed.

(** util_logger.c differs from log.c on three of the policies.  With no
    time elapsed between two present samples it reports the unavailable
    value, not zero. *)
Lemma util_logger_zero_delta (s1 s2 : UtilLogger.cpu_snap_t) (c : nat) :
  nth c (UtilLogger.total s1) 0 = nth c (UtilLogger.total s2) 0 ->
  UtilLogger.core_util s1 s2 c = UtilLogger.UNAVAILABLE.
Proof.
  intros E. unfold UtilLogger.core_util.
  destruct (nth c (UtilLogger.present s1) false && nth c (UtilLogger.present s2) false);
    [|reflexivity].
  rewrite E. unfold UtilLogger.delta_u64 at 1. rewrite Z.leb_refl.
  unfold sub64. rewrite Z.sub_diag. reflexivity.
Qed.

End UtilizationCalculator.

(** ** The per-core lines of log.c *)

Section CoreLineParsing.

Import Log.

Lemma parse_core_line_flag (slot : CpuTime) (line : cstr) :
  successfully_parsed (parse_core_line slot line)
  = if 8 <=? numeric_fields_parsed line then 1 else 0.
Proof.
  unfold parse_core_line, numeric_fields_parsed. cbn [successfully_parsed].
  destruct (Z.leb_spec (1 + 8) (scan_count (scan core_line_format line)));
    destruct (Z.leb_spec 8 (scan_count (scan core_line_format line) - 1));
    (reflexivity || lia).
Qed.

(** The second pass stores the core lines in the order of the file: with
    [done] slots filled and as many zeroed slots left as there are core
    lines to come, it ends with one parsed slot per core line. *)
Lemma fill_core_times_spec (lines : list cstr) (done : list CpuTime) :
  fill_core_times lines
    (List.length done + List.length (List.filter is_core_line lines))
    (List.length done)
    (done ++ repeat CpuTime_zero (List.length (List.filter is_core_line lines)))
  = done ++ map (parse_core_line CpuTime_zero) (List.filter is_core_line lines).
Proof.
  revert done. induction lines as [|line rest IH]; intros done.
  - reflexivity.
  - cbn [fill_core_times List.filter].
    destruct (is_core_line line) eqn:Hcore.
    + cbn [List.length repeat map].
      assert (Hlt : (List.length done <? List.length done
                       + S (List.length (List.filter is_core_line rest)))%nat = true)
        by (apply Nat.ltb_lt; lia).
      rewrite Hlt.
      replace (alter (fun slot => parse_core_line slot line) (List.length done)
                 (done ++ CpuTime_zero
                    :: repeat CpuTime_zero (List.length (List.filter is_core_line rest))))
        with ((done ++ [parse_core_line CpuTime_zero line])
                ++ repeat CpuTime_zero (List.length (List.filter is_core_line rest))).
      2:{ rewrite alter_app_r_alt by lia. rewrite Nat.sub_diag. cbn.
          now rewrite <- app_assoc. }
      specialize (IH (done ++ [parse_core_line CpuTime_zero line])).
      rewrite length_app in IH. cbn [List.length] in IH.
      replace (List.length done + S (List.length (List.filter is_core_line rest)))%nat
        with (List.length done + 1 + List.length (List.filter is_core_line rest))%nat by lia.
      replace (S (List.length done)) with (List.length done + 1)%nat by lia.
      rewrite IH. now rewrite <- app_assoc.
    + destruct (Nat.ltb_spec (List.length done)
                  (List.length done + List.length (List.filter is_core_line rest))) as [_|Hge].
      * apply IH.
      * assert (Hk : List.length (List.filter is_core_line rest) = 0%nat) by lia.
        rewrite Hk. apply List.length_zero_iff_nil in Hk. rewrite Hk. reflexivity.
Qed.

(** What [get_cpu_core_times] hands back: one slot per core line of the
    file, in file order, each the parse of its line into a zeroed slot. *)
Lemma get_cpu_core_times_spec (content : list ascii) :
  get_cpu_core_times (Some content)
  = match List.filter is_core_line (fgets_lines 512 content) with
    | [] => (0, None)
    | core_lines =>
        (Z.of_nat (List.length core_lines),
         Some (map (parse_core_line CpuTime_zero) core_lines))
    end.
Proof.
  unfold get_cpu_core_times. cbv zeta.
  pose proof (fill_core_times_spec (fgets_lines 512 content) []) as H.
  cbn [List.length app Nat.add] in H.
  destruct (List.filter is_core_line (fgets_lines 512 content)) as [|l ls] eqn:E.
  - reflexivity.
  - rewrite H. reflexivity.
Qed.

Lemma fields_tail_stops (fields : list cstr) :
  stops_digits (flat_map (fun f => " "%char :: f) fields ++ [NEWLINE]).
Proof. destruct fields; reflexivity. Qed.

Lemma fields_tail_space (fields : list cstr) :
  exists ws rest,
    flat_map (fun f => " "%char :: f) fields ++ [NEWLINE] = ws :: rest
    /\ isspace ws = true.
Proof.
  destruct fields as [|f fs].
  - exists NEWLINE, []. split; reflexivity.
  - exists " "%char, (f ++ flat_map (fun f => " "%char :: f) fs ++ [NEWLINE]).
    split; [cbn; now rewrite <- app_assoc | reflexivity].
Qed.

(** Scanning [k] numeric conversions over rendered fields assigns the
    first [k] of them, and stops on the input when they run out. *)
Lemma scan_numeric_fields (k : nat) (fields : list cstr) :
  List.Forall numeric_field fields ->
  fst (scan (concat (repeat [Blank; Conv Conv_llu] k))
            (flat_map (fun f => " "%char :: f) fields ++ [NEWLINE]))
  = map (fun f => VNum (to_ull false (digits_value f))) (take k fields).
Proof.
  revert fields. induction k as [|k IH]; intros fields Hall.
  - reflexivity.
  - cbn [repeat concat app scan].
    destruct Hall as [|f fs [Hne Hdig] Hfs].
    + reflexivity.
    + destruct f as [|d f]; [contradiction|].
      inversion Hdig as [|? ? Hd Hdf]; subst.
      destruct (digit_is_plain d Hd) as (Hs & Hm & Hp).
      cbn [flat_map app skip_space isspace]. 
      change (isspace " ") with true. cbn iota.
      rewrite <- !app_assoc. cbn [app skip_space]. rewrite Hs. cbn [skip_space].
      rewrite Hs. cbn [convert]. unfold scan_decimal. rewrite Hm, Hp.
      change (d :: f ++ flat_map (fun f0 => " "%char :: f0) fs ++ [NEWLINE])
        with ((d :: f) ++ flat_map (fun f0 => " "%char :: f0) fs ++ [NEWLINE]).
      rewrite (span_digits_app (d :: f) _ Hdig (fields_tail_stops fs)).
      specialize (IH fs Hfs).
      destruct (scan (concat (repeat [Blank; Conv Conv_llu] k))
                     (flat_map (fun f => " "%char :: f) fs ++ [NEWLINE])) as [vs st].
      cbn [fst] in *. cbn [take map]. now rewrite IH.
Qed.

(** On a rendered core line [sscanf] assigns the label and the first ten
    fields, so the number of numeric fields parsed is the number of
    fields on the line, up to ten. *)
Lemma numeric_fields_parsed_rendered (label : cstr) (fields : list cstr) :
  label_text label -> List.Forall numeric_field fields ->
  numeric_fields_parsed (render_line label fields)
  = Z.of_nat (Nat.min 10 (List.length fields)).
Proof.
  intros [Hne Hl] Hall. unfold numeric_fields_parsed, render_line, core_line_format.
  destruct label as [|c label]; [contradiction|].
  inversion Hl as [|? ? Hc Hl']; subst.
  destruct (fields_tail_space fields) as (ws & rest & E & Hws).
  cbn [scan]. cbn [app skip_space]. rewrite Hc. cbn [convert].
  change (c :: label ++ flat_map (fun f => " "%char :: f) fields ++ [NEWLINE])
    with ((c :: label) ++ flat_map (fun f => " "%char :: f) fields ++ [NEWLINE]).
  rewrite E, (span_nonspace_app (c :: label) rest ws Hl Hws), <- E.
  pose proof (scan_numeric_fields 10 fields Hall) as Hscan.
  destruct (scan (concat (repeat [Blank; Conv Conv_llu] 10))
                 (flat_map (fun f => " "%char :: f) fields ++ [NEWLINE])) as [vs st].
  cbn [fst] in Hscan. subst vs. unfold scan_count.
  cbn [List.length]. rewrite length_map, length_take. lia.
Qed.

(** A rendered core line is marked successfully parsed exactly when it
    carries at least 8 numeric fields. *)
Lemma rendered_line_flag (slot : CpuTime) (label : cstr) (fields : list cstr) :
  label_text label -> List.Forall numeric_field fields ->
  (successfully_parsed (parse_core_line slot (render_line label fields)) = 1
   <-> (8 <= List.length fields)%nat).
Proof.
  intros Hl Hall. rewrite parse_core_line_flag, numeric_fields_parsed_rendered by assumption.
  destruct (Z.leb_spec 8 (Z.of_nat (Nat.min 10 (List.length fields)))); split; intros; lia.
Qed.

(** C5. The flag [successfully_parsed] of the slot a core line is parsed
    into is set if and only if [sscanf] assigned at least 8 numeric fields
    after the label; with fewer than 8 the flag is cleared.  This holds for
    every slot of the array [get_cpu_core_times] hands back, slot by slot
    against the core lines of the file; and a line made of a label and
    space-separated decimal fields has its flag set exactly when it
    carries at least 8 fields. *)
Theorem parsed_flag_iff_eight_fields (slot : CpuTime) (line : cstr) :
  (successfully_parsed (parse_core_line slot line) = 1
     <-> 8 <= numeric_fields_parsed line)
  /\ (successfully_parsed (parse_core_line slot line) = 0
     <-> numeric_fields_parsed line < 8)
  /\ (forall (content : list ascii) (times : list CpuTime),
        snd (get_cpu_core_times (Some content)) = Some times ->
        Forall2 (fun l t => successfully_parsed t = 1 <-> 8 <= numeric_fields_parsed l)
                (List.filter is_core_line (fgets_lines 512 content)) times)
  /\ (forall (label : cstr) (fields : list cstr),
        label_text label -> List.Forall numeric_field fields ->
        (successfully_parsed (parse_core_line slot (render_line label fields)) = 1
         <-> (8 <= List.length fields)%nat)).
Proof.
  assert (F : forall s l, (successfully_parsed (parse_core_line s l) = 1
                            <-> 8 <= numeric_fields_parsed l)
                          /\ (successfully_parsed (parse_core_line s l) = 0
                            <-> numeric_fields_parsed l < 8)).
  { intros s l. rewrite parse_core_line_flag.
    destruct (Z.leb_spec 8 (numeric_fields_parsed l)); split; split; intros; lia. }
  split; [apply F|]. split; [apply F|].
  split; [|intros label fields Hl Hf; now apply rendered_line_flag].
  intros content times. rewrite get_cpu_core_times_spec.
  destruct (List.filter is_core_line (fgets_lines 512 content)) as [|l ls]; [discriminate|].
  cbn [snd]. intros [= <-].
  change (Forall2 (fun l t => successfully_parsed t = 1 <-> 8 <= numeric_fields_parsed l)
            (l :: ls) (map (parse_core_line CpuTime_zero) (l :: ls))).
  generalize (l :: ls). intros cl.
  induction cl as [|x cl IH]; constructor; [apply F | exact IH].
Qed.

(** log.c stores the core lines by position in the file, not by the index
    they declare: the line of core 3 lands in slot 2 when core 2 has no
    line. *)
Example log_slots_are_positional :
  Log.get_cpu_core_times
    (Some (lit "cpu0 1 1 1 1 1 1 1 1" ++ NEWLINE :: lit "cpu1 2 2 2 2 2 2 2 2"
             ++ NEWLINE :: lit "cpu3 4 4 4 4 4 4 4 4" ++ [NEWLINE]))
  = (3, Some [Log.mkCpuTime 1 1 1 1 1 1 1 1 0 0 1;
              Log.mkCpuTime 2 2 2 2 2 2 2 2 0 0 1;
              Log.mkCpuTime 4 4 4 4 4 4 4 4 0 0 1]).
Proof. vm_compute. reflexivity. Qed.

End CoreLineParsing.

(** ** The snapshot of util_logger.c *)

Section SnapshotParsing.

Import UtilLogger.

Lemma recognised_shape (line : cstr) :
  recognised line = true ->
  exists d rest, line = "c"%char :: "p"%char :: "u"%char :: d :: rest /\ isdigit d = true.
Proof.
  unfold recognised, strncmp_eq0. intros H. apply andb_true_iff in H as [Hp Hd].
  destruct line as [|a [|b [|c [|d rest]]]]; cbn in Hp, Hd; try discriminate.
  apply andb_true_iff in Hp as [Ha Hp]. apply andb_true_iff in Hp as [Hb Hp].
  apply andb_true_iff in Hp as [Hc _].
  apply Ascii.eqb_eq in Ha, Hb, Hc. subst. exists d, rest. split; [reflexivity | exact Hd].
Qed.

(** On a recognised line the index conversion succeeds, and the value
    [sscanf] stores is the declared index saturated at 64 bits and cut to
    32 bits. *)
Lemma scan_recognised (line : cstr) :
  recognised line = true ->
  exists vs st,
    scan snapshot_format line
    = (VNum (to_ull false (declared_index line) mod U32_MOD) :: vs, st).
Proof.
  intros H. destruct (recognised_shape line H) as (d & rest & -> & Hd).
  destruct (digit_is_plain d Hd) as (Hs & Hm & Hpl).
  unfold snapshot_format, declared_index.
  cbn [fmt_lit lit String.list_ascii_of_string map app scan Ascii.eqb Bool.eqb andb skipn].
  cbn [skip_space]. rewrite Hs. cbn [convert]. unfold scan_decimal. rewrite Hm, Hpl.
  rewrite (span_digits_cons d rest Hd). cbn [fst].
  destruct (scan (concat (repeat [Blank; Conv Conv_llu] 10)) (snd (span_digits rest)))
    as [vs st] eqn:E2.
  exists vs, st. reflexivity.
Qed.

Lemma line_id_recognised (line : cstr) :
  recognised line = true ->
  line_id line = to_ull false (declared_index line) mod U32_MOD.
Proof.
  intros H. destruct (scan_recognised line H) as (vs & st & E).
  unfold line_id, assigned. now rewrite E.
Qed.

Lemma line_id_declared (line : cstr) :
  recognised line = true -> 0 <= declared_index line < U32_MOD ->
  line_id line = declared_index line.
Proof.
  intros H R. rewrite (line_id_recognised line H). unfold to_ull, UINT64_MAX.
  unfold U32_MOD in *.
  destruct (Z.ltb_spec (2 ^ 64 - 1) (declared_index line)); [lia|].
  apply Z.mod_small. lia.
Qed.

Lemma line_id_range (line : cstr) :
  recognised line = true -> 0 <= line_id line < U32_MOD.
Proof.
  intros H. rewrite (line_id_recognised line H). apply Z.mod_pos_bound.
  unfold U32_MOD. lia.
Qed.

Lemma store_in_range {A : Type} (arr : list A) (i : Z) (x : A) :
  0 <= i < Z.of_nat (List.length arr) -> store arr i x = Some (<[Z.to_nat i := x]> arr).
Proof.
  intros [H1 H2]. unfold store.
  apply Z.leb_le in H1. apply Z.ltb_lt in H2. now rewrite H1, H2.
Qed.

Lemma with_slot_well_sized (snap : cpu_snap_t) (c : nat) (t i : Z) :
  well_sized snap -> well_sized (with_slot snap c t i).
Proof.
  unfold well_sized, with_slot. cbn. now rewrite !length_insert.
Qed.

(** What one line does to a snapshot: either nothing, or one in-bounds
    write of the sample into the slot the line names. *)
Lemma snapshot_line_spec (snap : cpu_snap_t) (line : cstr) :
  well_sized snap ->
  snapshot_line snap line
  = Some (if recognised line && (5 <=? line_n line)
             && (line_id line <? Z.of_nat MAX_CORES)
          then with_slot snap (Z.to_nat (line_id line)) (line_total line) (line_idle_like line)
          else snap).
Proof.
  intros (Ht & Hi & Hp). unfold snapshot_line.
  destruct (recognised line) eqn:Hrec.
  - pose proof (line_id_range line Hrec) as Hid.
    unfold recognised in Hrec. apply andb_true_iff in Hrec as [H1 H2].
    rewrite H1, H2. cbn [negb andb].
    fold (line_n line). fold (line_id line).
    destruct (Z.ltb_spec (line_n line) 5) as [Hn|Hn].
    + destruct (Z.leb_spec 5 (line_n line)); [lia | reflexivity].
    + destruct (Z.leb_spec 5 (line_n line)); [|lia]. cbn [andb].
      destruct (Z.ltb_spec (line_id line) (Z.of_nat MAX_CORES)) as [Hlt|Hge]; [|reflexivity].
      rewrite (store_in_range (total snap)) by (rewrite Ht; lia).
      rewrite (store_in_range (idle_like snap)) by (rewrite Hi; lia).
      rewrite (store_in_range (present snap)) by (rewrite Hp; lia).
      reflexivity.
  - unfold recognised in Hrec.
    destruct (strncmp_eq0 line (lit "cpu") 3); cbn [negb andb] in *; [|reflexivity].
    rewrite Hrec. reflexivity.
Qed.

Lemma snapshot_line_well_sized (snap snap' : cpu_snap_t) (line : cstr) :
  well_sized snap -> snapshot_line snap line = Some snap' -> well_sized snap'.
Proof.
  intros W. rewrite (snapshot_line_spec snap line W). intros [= <-].
  destruct (_ && _ && _); [now apply with_slot_well_sized | exact W].
Qed.

(** No line of any text writes outside the arrays. *)
Lemma snapshot_lines_total (lines : list cstr) (snap : cpu_snap_t) :
  well_sized snap ->
  exists snap', snapshot_lines snap lines = Some snap' /\ well_sized snap'.
Proof.
  revert snap. induction lines as [|line rest IH]; intros snap W.
  - exists snap. split; [reflexivity | exact W].
  - cbn [snapshot_lines]. rewrite (snapshot_line_spec snap line W).
    apply IH. destruct (_ && _ && _); [now apply with_slot_well_sized | exact W].
Qed.

Lemma snap_zero_well_sized : well_sized snap_zero.
Proof. repeat split. Qed.

Lemma slot_with_slot (snap : cpu_snap_t) (c c' : nat) (t i : Z) :
  well_sized snap -> (c' < MAX_CORES)%nat ->
  slot (with_slot snap c t i) c'
  = if (c =? c')%nat then (Some t, Some i, Some true) else slot snap c'.
Proof.
  intros (Ht & Hi & Hp) Hc. unfold slot, with_slot. cbn [total idle_like present].
  destruct (Nat.eqb_spec c c') as [->|Hne].
  - rewrite !list_lookup_insert_eq by lia. reflexivity.
  - rewrite !list_lookup_insert_ne by assumption. reflexivity.
Qed.

Lemma last_stored_acc (c : nat) (lines : list cstr) (acc : option cstr) :
  fold_left (fun acc line => if stored_in c line then Some line else acc) lines acc
  = match last_stored c lines with
    | Some line => Some line
    | None => acc
    end.
Proof.
  unfold last_stored. revert acc. induction lines as [|l rest IH]; intros acc.
  - reflexivity.
  - cbn [fold_left]. rewrite IH. rewrite (IH (if stored_in c l then Some l else None)).
    destruct (fold_left _ rest None); [reflexivity|].
    now destruct (stored_in c l).
Qed.

(** After one line, slot [c] holds the sample of the line if the line is
    stored in [c], and what it held before otherwise. *)
Lemma snapshot_line_slot (snap snap' : cpu_snap_t) (line : cstr) (c : nat) :
  well_sized snap -> (c < MAX_CORES)%nat ->
  snapshot_line snap line = Some snap' ->
  slot snap' c
  = if stored_in c line
    then (Some (line_total line), Some (line_idle_like line), Some true)
    else slot snap c.
Proof.
  intros W Hc. rewrite (snapshot_line_spec snap line W). intros [= <-].
  unfold stored_in.
  destruct (recognised line) eqn:Hrec; cbn [andb]; [|reflexivity].
  destruct (5 <=? line_n line); cbn [andb]; [|reflexivity].
  pose proof (line_id_range line Hrec) as Hid.
  destruct (Z.ltb_spec (line_id line) (Z.of_nat MAX_CORES)) as [Hlt|Hge].
  - rewrite slot_with_slot by assumption.
    destruct (Nat.eqb_spec (Z.to_nat (line_id line)) c) as [E|E];
      destruct (Z.eqb_spec (line_id line) (Z.of_nat c)) as [E'|E']; try reflexivity; lia.
  - destruct (Z.eqb_spec (line_id line) (Z.of_nat c)) as [E'|E']; [lia | reflexivity].
Qed.

Lemma snapshot_lines_slot (lines : list cstr) (snap : cpu_snap_t) :
  well_sized snap ->
  exists snap',
    snapshot_lines snap lines = Some snap' /\ well_sized snap'
    /\ forall c : nat, (c < MAX_CORES)%nat ->
         slot snap' c
         = match last_stored c lines with
           | Some line => (Some (line_total line), Some (line_idle_like line), Some true)
           | None => slot snap c
           end.
Proof.
  revert snap. induction lines as [|line rest IH]; intros snap W.
  - exists snap. repeat split; try apply W.
  - cbn [snapshot_lines].
    destruct (snapshot_line snap line) as [snap1|] eqn:E1.
    2:{ rewrite (snapshot_line_spec snap line W) in E1. discriminate. }
    pose proof (snapshot_line_well_sized snap snap1 line W E1) as W1.
    destruct (IH snap1 W1) as (snap' & E & W' & Hslots).
    exists snap'. split; [exact E|]. split; [exact W'|].
    intros c Hc. rewrite (Hslots c Hc).
    unfold last_stored at 2. cbn [fold_left]. rewrite last_stored_acc.
    destruct (last_stored c rest); [reflexivity|].
    rewrite (snapshot_line_slot snap snap1 line c W Hc E1).
    now destruct (stored_in c line).
Qed.

(** A recognised line with a representable index is stored in slot [c]
    exactly when it has at least four numeric fields and declares [c]. *)
Lemma stored_in_declared (c : nat) (line : cstr) :
  recognised line = true -> 0 <= declared_index line < U32_MOD ->
  (stored_in c line = true <-> 5 <= line_n line /\ declared_index line = Z.of_nat c).
Proof.
  intros Hrec R. unfold stored_in. rewrite Hrec, (line_id_declared line Hrec R).
  cbn [andb]. rewrite andb_true_iff, Z.leb_le, Z.eqb_eq. reflexivity.
Qed.

(** C8, as the code has it.  For every text, [read_cpu_snapshot] performs
    no write outside its arrays and returns 0 with a snapshot in which
    slot [c] holds the sample of the last line stored in [c], and zeros
    with [present = false] when there is none.  A line that is not
    recognised (the aggregate line among them) is stored nowhere; a
    recognised line whose declared index fits 32 bits is stored in slot
    [c] exactly when at least four numeric fields parsed and it declares
    [c]; so a line declaring an index from [MAX_CORES] on is ignored. *)
Theorem snapshot_slots_by_declared_index (text : list ascii) :
  exists snap : cpu_snap_t,
    read_cpu_snapshot (Some text) = Some (0, snap)
    /\ well_sized snap
    /\ (forall c : nat, (c < MAX_CORES)%nat ->
          slot snap c
          = match last_stored c (fgets_lines 1024 text) with
            | Some line => (Some (line_total line), Some (line_idle_like line), Some true)
            | None => (Some 0, Some 0, Some false)
            end)
    /\ (forall (c : nat) (line : cstr), recognised line = false -> stored_in c line = false)
    /\ recognised aggregate_line = false
    /\ (forall (c : nat) (line : cstr),
          recognised line = true -> declared_index line < U32_MOD ->
          (stored_in c line = true
           <-> 5 <= line_n line /\ declared_index line = Z.of_nat c))
    /\ (forall (c : nat) (line : cstr),
          (c < MAX_CORES)%nat -> recognised line = true ->
          Z.of_nat MAX_CORES <= declared_index line < U32_MOD ->
          stored_in c line = false).
Proof.
  destruct (snapshot_lines_slot (fgets_lines 1024 text) snap_zero snap_zero_well_sized)
    as (snap & E & W & Hslots).
  exists snap. split; [unfold read_cpu_snapshot; now rewrite E|].
  split; [exact W|]. split.
  { intros c Hc. rewrite (Hslots c Hc).
    destruct (last_stored c (fgets_lines 1024 text)); [reflexivity|].
    unfold MAX_CORES in Hc.
    do 8 (destruct c as [|c]; [reflexivity|]). lia. }
  split; [intros c line H; unfold stored_in; now rewrite H|].
  split; [reflexivity|]. split.
  { intros c line Hrec Hlt. apply stored_in_declared; [exact Hrec|].
    split; [apply span_digits_nonneg | exact Hlt]. }
  intros c line Hc Hrec [Hge Hlt].
  destruct (stored_in c line) eqn:Hs; [|reflexivity].
  apply stored_in_declared in Hs as [_ Hd]; [lia | exact Hrec |].
  split; [apply span_digits_nonneg | exact Hlt].
Qed.

(** The line "cpu1 5 6 7" is a recognised core line that declares index 1,
    yet the snapshot read from it has nothing in slot 1. *)
Lemma short_core_line_not_stored :
  recognised short_core_line = true
  /\ declared_index short_core_line = 1
  /\ read_cpu_snapshot (Some short_core_line) = Some (0, snap_zero)
  /\ present snap_zero !! 1%nat = Some false.
Proof. vm_compute. repeat split. Qed.

(** A core line with four numeric fields makes the core present in
    util_logger.c, while log.c marks it unsuccessfully parsed; and the
    total of util_logger.c adds the guest fields. *)
Example four_fields_and_guest :
  UtilLogger.read_cpu_snapshot (Some (lit "cpu0 1 2 3 4" ++ [NEWLINE]))
  = Some (0, UtilLogger.with_slot UtilLogger.snap_zero 0 10 4)
  /\ Log.successfully_parsed
       (Log.parse_core_line Log.CpuTime_zero (lit "cpu0 1 2 3 4" ++ [NEWLINE])) = 0
  /\ UtilLogger.line_total (lit "cpu0 1 0 0 0 0 0 0 0 5 7" ++ [NEWLINE]) = 13
  /\ Log.total_of
       (Log.parse_core_line Log.CpuTime_zero (lit "cpu0 1 0 0 0 0 0 0 0 5 7" ++ [NEWLINE])) = 1.
Proof. vm_compute. repeat split. Qed.

End SnapshotParsing.

(** ** Catalog discovery in cpu_logger.c *)

Section CatalogDiscovery.

Import CpuLogger.

Lemma scan_cpus_entry_spec (fs : filesystem) (cpus : list cpu_info_t) (d_name : cstr) :
  scan_cpus_entry fs cpus d_name
  = cpus ++ match cpu_of fs d_name with Some c => [c] | None => [] end.
Proof.
  unfold scan_cpus_entry, cpu_of.
  destruct (strncmp_eq0 d_name (lit "cpu") 3); cbn [negb andb]; [|now rewrite app_nil_r].
  destruct (isdigit (char_at d_name 3)); cbn [negb andb]; [|now rewrite app_nil_r].
  destruct (access_R_OK fs (cpu_freq_path d_name)); [reflexivity | now rewrite app_nil_r].
Qed.

Lemma scan_thermal_entry_spec (fs : filesystem) (zones : list thermal_info_t) (d_name : cstr) :
  scan_thermal_entry fs zones d_name
  = zones ++ match zone_of fs d_name with Some z => [z] | None => [] end.
Proof.
  unfold scan_thermal_entry, zone_of, candidate, declared_type.
  destruct (strncmp_eq0 d_name (lit "thermal_zone") 12); cbn [negb]; [|now rewrite app_nil_r].
  destruct (read_string_file fs (zone_type_path d_name) 64) as [t|]; [|now rewrite app_nil_r].
  destruct (type_matches t); [reflexivity | now rewrite app_nil_r].
Qed.

(** A loop that appends what [pick] selects while the table has room ends
    with the first selected entries, in the order of the enumeration, up
    to the capacity of the table. *)
Lemma bounded_scan_spec {A : Type} (pick : cstr -> option A) (cap : nat)
    (loop : list cstr -> list A -> list A) :
  (forall table, loop [] table = table) ->
  (forall d rest table,
      loop (d :: rest) table
      = if (List.length table <? cap)%nat
        then loop rest (table ++ match pick d with Some x => [x] | None => [] end)
        else table) ->
  forall entries table, (List.length table <= cap)%nat ->
    loop entries table = table ++ take (cap - List.length table) (omap pick entries).
Proof.
  intros Hnil Hcons. induction entries as [|d rest IH]; intros table Hlen.
  - rewrite Hnil. cbn. now rewrite take_nil, app_nil_r.
  - rewrite Hcons. destruct (Nat.ltb_spec (List.length table) cap) as [Hlt|Hge].
    + rewrite IH.
      2:{ rewrite length_app. destruct (pick d); cbn; lia. }
      change (omap pick (d :: rest))
        with (match pick d with Some y => y :: omap pick rest | None => omap pick rest end).
      destruct (pick d) as [x|].
      * rewrite length_app. cbn [List.length]. rewrite <- app_assoc. cbn [app].
        replace (cap - List.length table)%nat with (S (cap - (List.length table + 1)))%nat by lia.
        reflexivity.
      * rewrite app_nil_r. reflexivity.
    + replace (cap - List.length table)%nat with 0%nat by lia.
      now rewrite take_0, app_nil_r.
Qed.

Lemma scan_cpus_loop_spec (fs : filesystem) (entries : list cstr) :
  scan_cpus_loop fs entries [] = take MAX_CPUS (omap (cpu_of fs) entries).
Proof.
  rewrite (bounded_scan_spec (cpu_of fs) MAX_CPUS (scan_cpus_loop fs)).
  - cbn [List.length app]. now rewrite Nat.sub_0_r.
  - reflexivity.
  - intros d rest table. cbn [scan_cpus_loop]. now rewrite scan_cpus_entry_spec.
  - cbn. lia.
Qed.

Lemma scan_thermal_loop_spec (fs : filesystem) (entries : list cstr) :
  scan_thermal_loop fs entries [] = take MAX_THERMAL_ZONES (omap (zone_of fs) entries).
Proof.
  rewrite (bounded_scan_spec (zone_of fs) MAX_THERMAL_ZONES (scan_thermal_loop fs)).
  - cbn [List.length app]. now rewrite Nat.sub_0_r.
  - reflexivity.
  - intros d rest table. cbn [scan_thermal_loop]. now rewrite scan_thermal_entry_spec.
  - cbn. lia.
Qed.

(** [strstr] finds the needle exactly when it occurs as a substring. *)
Lemma strstr_found_iff (hay needle : cstr) :
  strstr_found hay needle = true <-> contains needle hay.
Proof.
  unfold contains. induction hay as [|y hay IH].
  - cbn [strstr_found]. rewrite orb_false_r, starts_with_iff. split.
    + intros [post H]. now exists [], post.
    + intros (pre & post & H). destruct pre as [|p pre]; [now exists post | discriminate].
  - cbn [strstr_found]. rewrite orb_true_iff, starts_with_iff, IH. split.
    + intros [[post H] | (pre & post & H)].
      * now exists [], post.
      * exists (y :: pre), post. now rewrite H.
    + intros (pre & post & H). destruct pre as [|p pre].
      * left. now exists post.
      * right. injection H as _ H. now exists pre, post.
Qed.

Lemma type_matches_iff (type_buf : cstr) :
  type_matches type_buf = true
  <-> contains (lit "cpu") type_buf \/ contains (lit "CPU") type_buf.
Proof.
  unfold type_matches. now rewrite orb_true_iff, !strstr_found_iff.
Qed.

(** C6, as the code has it.  The discovered list is a function of the
    enumeration: the accepted CPU entries, then the accepted thermal
    zones, each group in the order [readdir] returns the entries and cut
    at the capacity of its table; nothing is sorted, and there is no list
    when no CPU entry is accepted.  On the layout with cores 0, 1 and 3
    and one zone of type cpu-thermal, enumerated in ascending order, the
    list is cpu0, cpu1, cpu3, cpu-thermal. *)
Theorem discovery_follows_enumeration_order (fs : filesystem) :
  discover fs
  = match take MAX_CPUS (omap (cpu_of fs) (default [] (dir_entries fs CPU_DIR))) with
    | [] => None
    | cpus =>
        Some (map (fun c => CpuFreq (cpu_num c)) cpus
              ++ map (fun z => ThermalZone (type_name z))
                   (take MAX_THERMAL_ZONES
                      (omap (zone_of fs) (default [] (dir_entries fs THERMAL_DIR)))))
    end
  /\ discover (layout ascending_order (lit "cpu-thermal"))
     = Some [CpuFreq 0; CpuFreq 1; CpuFreq 3; ThermalZone (lit "cpu-thermal")].
Proof.
  split; [|vm_compute; reflexivity].
  assert (Ec : scan_cpus fs []
               = take MAX_CPUS (omap (cpu_of fs) (default [] (dir_entries fs CPU_DIR)))).
  { unfold scan_cpus. destruct (dir_entries fs CPU_DIR) as [entries|]; cbn [default].
    - apply scan_cpus_loop_spec.
    - reflexivity. }
  assert (Ez : scan_thermal_zones fs []
               = take MAX_THERMAL_ZONES
                   (omap (zone_of fs) (default [] (dir_entries fs THERMAL_DIR)))).
  { unfold scan_thermal_zones.
    destruct (dir_entries fs THERMAL_DIR) as [entries|]; cbn [default].
    - apply scan_thermal_loop_spec.
    - reflexivity. }
  unfold discover. cbv zeta. rewrite Ec, Ez.
  destruct (take MAX_CPUS (omap (cpu_of fs) (default [] (dir_entries fs CPU_DIR))));
    reflexivity.
Qed.

(** The same directory, with the same entries enumerated in another
    order, gives another list, which is not in ascending order of the
    core numbers. *)
Lemma discovery_order_not_sorted :
  Permutation other_order ascending_order
  /\ discover (layout other_order (lit "cpu-thermal"))
     = Some [CpuFreq 3; CpuFreq 0; CpuFreq 1; ThermalZone (lit "cpu-thermal")]
  /\ discover (layout ascending_order (lit "cpu-thermal"))
     = Some [CpuFreq 0; CpuFreq 1; CpuFreq 3; ThermalZone (lit "cpu-thermal")].
Proof.
  split; [|split; vm_compute; reflexivity].
  pose (ascii_eq := ascii_dec : EqDecision ascii).
  apply (bool_decide_unpack (Permutation other_order ascending_order)).
  vm_compute. exact I.
Qed.

(** C7, as the code has it.  A thermal-zone candidate met while the table
    has room is added to it if and only if its type could be read and
    contains the substring cpu, all in lower case, or CPU, all in upper
    case; the zone added carries that type, the temperature node of the
    entry, and the name as the two copies leave it in the record: the
    entry name itself when it has fewer than 32 characters. *)
Theorem thermal_zone_included_iff (fs : filesystem) (zones : list thermal_info_t)
    (d_name : cstr) :
  candidate d_name = true ->
  (scan_thermal_entry fs zones d_name <> zones
   <-> exists type_buf : cstr,
         declared_type fs d_name = Some type_buf
         /\ (contains (lit "cpu") type_buf \/ contains (lit "CPU") type_buf))
  /\ (forall type_buf : cstr,
        declared_type fs d_name = Some type_buf ->
        contains (lit "cpu") type_buf \/ contains (lit "CPU") type_buf ->
        scan_thermal_entry fs zones d_name
        = zones ++ [mk_thermal_info (stored_zone_name d_name type_buf) type_buf
                                    (zone_temp_path d_name)]
        /\ ((List.length d_name < ZONE_NAME_SIZE)%nat ->
            scan_thermal_entry fs zones d_name
            = zones ++ [mk_thermal_info d_name type_buf (zone_temp_path d_name)])).
Proof.
  intros Hcand. rewrite scan_thermal_entry_spec. unfold zone_of. rewrite Hcand.
  assert (Hne : forall z : thermal_info_t, zones ++ [z] <> zones).
  { intros z H. apply (f_equal (@List.length _)) in H.
    rewrite length_app in H. cbn in H. lia. }
  split.
  - destruct (declared_type fs d_name) as [t|].
    + destruct (type_matches t) eqn:Hm.
      * split; [|intros _; apply Hne].
        intros _. exists t. split; [reflexivity | now apply type_matches_iff].
      * rewrite app_nil_r. split; [intros H; now contradiction H|].
        intros (t' & [= <-] & Hc). apply type_matches_iff in Hc. congruence.
    + rewrite app_nil_r. split; [intros H; now contradiction H|].
      intros (t' & H & _). discriminate.
  - intros t Ht Hc. rewrite Ht. apply type_matches_iff in Hc. rewrite Hc.
    split; [reflexivity|]. intros Hlen. unfold stored_zone_name.
    apply Nat.ltb_lt in Hlen. now rewrite Hlen.
Qed.

Lemma thermal_zone_included_iff_witness :
  scan_thermal_entry (layout ascending_order (lit "cpu-thermal")) [] (lit "thermal_zone0")
  = [mk_thermal_info (lit "thermal_zone0") (lit "cpu-thermal")
       (zone_temp_path (lit "thermal_zone0"))].
Proof.
  apply (proj2 (thermal_zone_included_iff
                  (layout ascending_order (lit "cpu-thermal")) [] (lit "thermal_zone0")
                  eq_refl) (lit "cpu-thermal")).
  - vm_compute. reflexivity.
  - left. exists [], (lit "-thermal"). reflexivity.
  - vm_compute. lia.
Defined.

(** A zone of type Cpu-thermal contains cpu when case is ignored, and is
    left out of the table. *)
Lemma mixed_case_type_not_included :
  contains_nocase (lit "cpu") (lit "Cpu-thermal") = true
  /\ candidate (lit "thermal_zone0") = true
  /\ declared_type (layout ascending_order (lit "Cpu-thermal")) (lit "thermal_zone0")
     = Some (lit "Cpu-thermal")
  /\ scan_thermal_zones (layout ascending_order (lit "Cpu-thermal")) [] = [].
Proof. vm_compute. repeat split. Qed.

End CatalogDiscovery.

(** ** The tick loop *)

Section Scheduler.

Import Logger.

Lemma run_ticks_snoc (t0 : timespec) (works : list Z) (w : Z) :
  run_ticks t0 (works ++ [w]) = tick (run_ticks t0 works) w.
Proof. unfold run_ticks. now rewrite fold_left_app. Qed.

(** The anchor and the waits after the iterations in [works]. *)
Lemma run_ticks_anchor (t0 : timespec) (works : list Z) :
  0 <= tv_sec t0 ->
  tv_sec t0 + Z.of_nat (List.length works) < 2 ^ 63 ->
  next (run_ticks t0 works)
  = mk_timespec (tv_sec t0 + Z.of_nat (List.length works)) (tv_nsec t0)
  /\ waits (run_ticks t0 works)
     = map (fun k => clock_nanosleep_ABSTIME
                       (mk_timespec (tv_sec t0 + Z.of_nat k) (tv_nsec t0)))
           (seq 1 (List.length works)).
Proof.
  intros H0. induction works as [|w works IH] using rev_ind; intros Hn.
  - cbn. rewrite Z.add_0_r. now destruct t0.
  - rewrite length_app in *. cbn [List.length] in *.
    destruct IH as [IHn IHw]; [lia|].
    rewrite run_ticks_snoc. unfold tick. cbn [next waits].
    rewrite IHn, IHw. cbn [tv_sec tv_nsec].
    rewrite long_of_small by lia.
    replace (tv_sec t0 + Z.of_nat (List.length works) + 1)
      with (tv_sec t0 + Z.of_nat (List.length works + 1)) by lia.
    split; [reflexivity|].
    rewrite seq_app, map_app. cbn [seq map].
    replace (1 + List.length works)%nat with (List.length works + 1)%nat by lia.
    reflexivity.
Qed.

(** When the work of every iteration fits in one interval, every wait
    returns exactly at its deadline. *)
Lemma run_ticks_clock (t0 : timespec) (works : list Z) :
  0 <= tv_sec t0 ->
  tv_sec t0 + Z.of_nat (List.length works) < 2 ^ 63 ->
  List.Forall (fun w => 0 <= w <= NSEC_PER_SEC) works ->
  clock (run_ticks t0 works)
  = nanoseconds t0 + Z.of_nat (List.length works) * NSEC_PER_SEC.
Proof.
  intros H0. induction works as [|w works IH] using rev_ind; intros Hn Hall.
  - cbn. lia.
  - apply Forall_app in Hall as [Hall Hw]. inversion Hw as [|? ? Hw' _]; subst.
    rewrite length_app in *. cbn [List.length] in *.
    rewrite run_ticks_snoc. unfold tick. cbn [clock after_wait].
    rewrite IH by (assumption || lia).
    destruct (run_ticks_anchor t0 works H0) as [En _]; [lia|]. rewrite En.
    cbn [tv_sec tv_nsec]. rewrite long_of_small by lia.
    unfold nanoseconds. cbn [tv_sec tv_nsec]. lia.
Qed.

(** C9. In the loop of logger.c, started at [t0], after [N] completed
    iterations the anchor is [t0] plus exactly [N] seconds; the waits
    issued are the absolute waits until [t0 + 1], ..., [t0 + N] seconds,
    one per iteration; and when the work of each iteration fits in the
    interval, the clock after the [N]-th wait is [t0 + N] seconds whatever
    the work took, so that no work time accumulates. *)
Theorem absolute_anchor_no_drift (t0 : timespec) (works : list Z) :
  0 <= tv_sec t0 ->
  tv_sec t0 + Z.of_nat (List.length works) < 2 ^ 63 ->
  next (run_ticks t0 works)
  = mk_timespec (tv_sec t0 + Z.of_nat (List.length works)) (tv_nsec t0)
  /\ waits (run_ticks t0 works)
     = map (fun k => clock_nanosleep_ABSTIME
                       (mk_timespec (tv_sec t0 + Z.of_nat k) (tv_nsec t0)))
           (seq 1 (List.length works))
  /\ forallb is_absolute (waits (run_ticks t0 works)) = true
  /\ (List.Forall (fun w => 0 <= w <= NSEC_PER_SEC) works ->
      clock (run_ticks t0 works)
      = nanoseconds t0 + Z.of_nat (List.length works) * NSEC_PER_SEC).
Proof.
  intros H0 Hn. destruct (run_ticks_anchor t0 works H0 Hn) as [En Ew].
  split; [exact En|]. split; [exact Ew|]. split.
  - rewrite Ew. apply forallb_forall. intros w Hin.
    apply in_map_iff in Hin as (k & <- & _). reflexivity.
  - now apply run_ticks_clock.
Qed.

Lemma absolute_anchor_no_drift_witness :
  next (run_ticks (mk_timespec 10 5) [300000000; 0; 999999999]) = mk_timespec 13 5
  /\ clock (run_ticks (mk_timespec 10 5) [300000000; 0; 999999999]) = 13000000005.
Proof.
  destruct (absolute_anchor_no_drift (mk_timespec 10 5) [300000000; 0; 999999999])
    as (En & _ & _ & Ec); [cbn; lia | cbn; lia |].
  split; [exact En|]. apply Ec.
  repeat constructor; unfold NSEC_PER_SEC; lia.
Defined.

(** The loop of util_logger.c waits by a relative sleep: with an interval
    of one second the clock after [N] iterations is [t0] plus [N] seconds
    plus all the work done, and no wait is absolute. *)
Lemma relative_sleep_accumulates_work (t0 : timespec) (works : list Z) :
  clock (run_ticks_relative 1 t0 works)
  = nanoseconds t0 + Z.of_nat (List.length works) * NSEC_PER_SEC
    + fold_right Z.add 0 works
  /\ forallb (fun w => negb (is_absolute w)) (waits (run_ticks_relative 1 t0 works)) = true.
Proof.
  induction works as [|w works IH] using rev_ind.
  - split; [cbn; lia | reflexivity].
  - destruct IH as [E Hw].
    unfold run_ticks_relative in *. rewrite fold_left_app. cbn [fold_left].
    unfold tick_relative at 1 3. cbn [clock waits].
    split.
    + rewrite E, length_app. cbn [List.length].
      assert (F : forall l : list Z, fold_right Z.add 0 (l ++ [w]) = fold_right Z.add 0 l + w).
      { induction l as [|x l IHl]; cbn; lia. }
      rewrite F.
      change (msleep_exact (int_of (1 * 1000))) with (nanosleep (mk_timespec 1 0)).
      unfold after_wait, nanoseconds. cbn [tv_sec tv_nsec]. lia.
    + rewrite forallb_app, Hw. reflexivity.
Qed.

End Scheduler.

(** ** The integer readers *)

Section CounterReaders.

Import Logger.

(** The reader on the inputs of the specification: a signed number after
    leading blanks, nothing at all, and a text without a digit. *)
Example fast_parse_int_examples :
  fast_parse_int (lit "  -42" ++ [NEWLINE]) = -42
  /\ fast_parse_int [] = PARSE_FAILURE
  /\ fast_parse_int (lit "abc") = PARSE_FAILURE.
Proof. repeat split. Qed.

Lemma read_gpu_busy_negative (content : list ascii) (out : Z) :
  scan_count (scan [Conv Conv_d] content) = 1 ->
  assigned (scan [Conv Conv_d] content) 0 (-1) < 0 ->
  UtilLogger.read_gpu_busy (Some content) out = (-1, out)
  /\ UtilLogger.gpu_busy_column (Some content) = -1.
Proof.
  intros Hn Hneg. unfold UtilLogger.gpu_busy_column, UtilLogger.read_gpu_busy.
  rewrite Hn. cbn [Z.eqb Pos.eqb negb].
  apply Z.ltb_lt in Hneg. rewrite Hneg. split; reflexivity.
Qed.

(** C10. The reader returns -1 both when it finds no digit and when the
    text is "-1", and [read_int_fd] returns the same -1 when the
    descriptor is invalid and when the read fails.  A caller cannot tell
    these apart: whenever the value read through a valid descriptor is
    negative, the loop of logger.c closes and reopens the node as after a
    failed read; and [read_gpu_busy] of util_logger.c reports failure for
    every negative value, so that the column holds -1. *)
Theorem negative_value_taken_for_failure (fd fd_new : Z) (content : list ascii)
    (second : option (list ascii)) :
  0 <= fd ->
  read_int_fd fd (Some content) 128 < 0 ->
  reopened (read_counter fd (Some content) fd_new second) = true
  /\ fast_parse_int (lit "-1") = PARSE_FAILURE
  /\ PARSE_FAILURE = -1
  /\ read_int_fd fd (Some (lit "-1")) 128 = read_int_fd fd None 128
  /\ read_int_fd fd (Some (lit "-1")) 128 = read_int_fd (-1) (Some (lit "-1")) 128
  /\ read_int_fd fd (Some (lit "-1")) 128 = read_int_fd fd (Some (lit "abc")) 128
  /\ (forall (node : list ascii) (out : Z),
        scan_count (scan [Conv Conv_d] node) = 1 ->
        assigned (scan [Conv Conv_d] node) 0 (-1) < 0 ->
        UtilLogger.read_gpu_busy (Some node) out = (-1, out)
        /\ UtilLogger.gpu_busy_column (Some node) = -1).
Proof.
  intros Hfd Hneg. split.
  { unfold read_counter. apply Z.ltb_lt in Hneg. apply Z.leb_le in Hfd.
    now rewrite Hneg, Hfd. }
  assert (E : (fd <? 0) = false) by (apply Z.ltb_ge; lia).
  split; [reflexivity|]. split; [reflexivity|].
  split; [unfold read_int_fd; now rewrite E|].
  split; [unfold read_int_fd; now rewrite E|].
  split; [unfold read_int_fd; now rewrite E|].
  intros node out Hn Hv. now apply read_gpu_busy_negative.
Qed.

Lemma negative_value_taken_for_failure_witness :
  reopened (read_counter 3 (Some (lit "-5")) 4 (Some (lit "-5"))) = true
  /\ value (read_counter 3 (Some (lit "-5")) 4 (Some (lit "-5"))) = -5
  /\ UtilLogger.gpu_busy_column (Some (lit "-5")) = -1.
Proof.
  destruct (negative_value_taken_for_failure 3 4 (lit "-5") (Some (lit "-5")))
    as (Hr & _ & _ & _ & _ & _ & Hg); [lia | vm_compute; reflexivity |].
  split; [exact Hr|]. split; [reflexivity|].
  apply (Hg (lit "-5") 0); vm_compute; reflexivity.
Defined.

End CounterReaders.

(** ** Further properties of util_logger.c *)

Section UtilLoggerArithmetic.

Import UtilLogger Logger.

(** X1. [delta_u64] is subtraction modulo [2^64] on both of its branches: the
    result is in range, and advancing [a] by it gives [b] back, also when
    the counter wrapped between the two readings. *)
Theorem delta_u64_modular (a b : Z) :
  0 <= a < U64_MOD -> 0 <= b < U64_MOD ->
  delta_u64 a b = (b - a) mod U64_MOD
  /\ 0 <= delta_u64 a b < U64_MOD
  /\ add64 a (delta_u64 a b) = b.
Proof.
  intros Ha Hb. unfold U64_MOD in *.
  assert (E : delta_u64 a b = (b - a) mod 2 ^ 64).
  { unfold delta_u64, sub64, add64, UINT64_MAX, U64_MOD.
    destruct (Z.leb_spec a b) as [Hle|Hgt]; [reflexivity|].
    rewrite (Z.mod_small (2 ^ 64 - 1 - a)) by lia.
    rewrite (Z.mod_small (b + (2 ^ 64 - 1 - a))) by lia.
    replace (b + (2 ^ 64 - 1 - a) + 1) with (b - a + 1 * 2 ^ 64) by lia.
    apply Z_mod_plus_full. }
  split; [exact E|]. rewrite E. split.
  - apply Z.mod_pos_bound. lia.
  - unfold add64, U64_MOD. rewrite Zplus_mod_idemp_r.
    replace (a + (b - a)) with b by lia. apply Z.mod_small. lia.
Qed.

Lemma delta_u64_modular_witness :
  delta_u64 (2 ^ 64 - 1) 4 = 5 /\ add64 (2 ^ 64 - 1) (delta_u64 (2 ^ 64 - 1) 4) = 4.
Proof.
  destruct (delta_u64_modular (2 ^ 64 - 1) 4) as (E & _ & R);
    [unfold U64_MOD; lia | unfold U64_MOD; lia |].
  split; [rewrite E; reflexivity | exact R].
Defined.

(** X2. For a non-negative number of milliseconds [msleep_exact] asks
    [nanosleep] for exactly that duration, in a normalised [timespec]
    (whole seconds, and less than a second of nanoseconds). *)
Theorem msleep_exact_duration (ms now : Z) :
  0 <= ms ->
  exists ts : timespec,
    msleep_exact ms = nanosleep ts
    /\ 0 <= tv_sec ts
    /\ 0 <= tv_nsec ts < NSEC_PER_SEC
    /\ nanoseconds ts = ms * 1000000
    /\ after_wait now (msleep_exact ms) = now + ms * 1000000.
Proof.
  intros Hms. exists (mk_timespec (Z.quot ms 1000) (Z.rem ms 1000 * 1000000)).
  rewrite Z.quot_div_nonneg, Z.rem_mod_nonneg by lia.
  pose proof (Z.mod_pos_bound ms 1000 ltac:(lia)) as Hm.
  pose proof (Z.div_mod ms 1000 ltac:(lia)) as Hd.
  pose proof (Z.div_pos ms 1000 Hms ltac:(lia)) as Hq.
  assert (N : nanoseconds (mk_timespec (ms / 1000) (ms mod 1000 * 1000000)) = ms * 1000000).
  { unfold nanoseconds, NSEC_PER_SEC. cbn [tv_sec tv_nsec]. lia. }
  split.
  { unfold msleep_exact. now rewrite Z.quot_div_nonneg, Z.rem_mod_nonneg by lia. }
  cbn [tv_sec tv_nsec]. split; [exact Hq|]. split; [unfold NSEC_PER_SEC; lia|].
  split; [exact N|].
  unfold msleep_exact, after_wait.
  rewrite Z.quot_div_nonneg, Z.rem_mod_nonneg by lia. now rewrite N.
Qed.

Lemma msleep_exact_duration_witness :
  after_wait 7 (msleep_exact 2500) = 7 + 2500 * 1000000.
Proof.
  destruct (msleep_exact_duration 2500 7 ltac:(lia)) as (ts & _ & _ & _ & _ & E).
  exact E.
Defined.

End UtilLoggerArithmetic.

(** ** Further properties of the integer reader *)

Section FastParseValues.

Import Logger LoggerRun.

Lemma wrap_signed_small (w z : Z) :
  0 < w -> - 2 ^ (w - 1) <= z < 2 ^ (w - 1) -> wrap_signed w z = z.
Proof.
  intros Hw H. unfold wrap_signed.
  assert (P : 2 ^ w = 2 * 2 ^ (w - 1)).
  { replace w with (Z.succ (w - 1)) at 1 by lia. apply Z.pow_succ_r. lia. }
  assert (Q : 0 < 2 ^ (w - 1)) by (apply Z.pow_pos_nonneg; lia).
  destruct (Z.neg_nonneg_cases z) as [Hneg|Hpos].
  - assert (E : z mod 2 ^ w = z + 2 ^ w).
    { symmetry. apply Z.mod_unique_pos with (q := -1); lia. }
    rewrite E. destruct (Z.ltb_spec (z + 2 ^ w) (2 ^ (w - 1))); lia.
  - rewrite Z.mod_small by lia. destruct (Z.ltb_spec z (2 ^ (w - 1))); lia.
Qed.

Lemma int_of_small (z : Z) : - 2 ^ 31 <= z < 2 ^ 31 -> int_of z = z.
Proof. intros H. apply wrap_signed_small; [lia | exact H]. Qed.

Lemma digit_not_blank (c : ascii) :
  isdigit c = true -> is_blank c = false /\ is_minus c = false.
Proof.
  unfold isdigit, is_blank, is_minus. intros H.
  apply andb_true_iff in H as [H1 H2]. apply Z.leb_le in H1, H2.
  split; [|apply Z.eqb_neq; lia].
  repeat (apply orb_false_iff; split); apply Z.eqb_neq; lia.
Qed.

Lemma skip_blank_app (blanks : cstr) (c : ascii) (t : cstr) :
  List.Forall (fun x => is_blank x = true) blanks -> is_blank c = false ->
  skip_blank (blanks ++ c :: t) = c :: t.
Proof.
  intros Hb Hc. induction Hb as [|x blanks Hx _ IH].
  - cbn. now rewrite Hc.
  - cbn [app skip_blank]. now rewrite Hx.
Qed.

Lemma skip_blank_all (blanks : cstr) :
  List.Forall (fun x => is_blank x = true) blanks -> skip_blank blanks = [].
Proof.
  intros Hb. induction Hb as [|x blanks Hx _ IH]; [reflexivity|].
  cbn [skip_blank]. now rewrite Hx.
Qed.

Lemma digit_val_range (c : ascii) : isdigit c = true -> 0 <= digit_val c <= 9.
Proof.
  unfold isdigit, digit_val. intros H.
  apply andb_true_iff in H as [H1 H2]. apply Z.leb_le in H1, H2. lia.
Qed.

Lemma digits_from_ge (ds : cstr) (v : Z) :
  0 <= v -> List.Forall (fun c => isdigit c = true) ds -> v <= digits_from v ds.
Proof.
  unfold digits_from. intros Hv Hds. revert v Hv.
  induction Hds as [|d ds Hd _ IH]; intros v Hv; [cbn; lia|].
  cbn [fold_left]. pose proof (digit_val_range d Hd).
  specialize (IH (v * 10 + digit_val d) ltac:(lia)). lia.
Qed.

(** Without overflow of the [long] the digit loop computes the decimal
    value of the digits. *)
Lemma accumulate_digits (ds rest : cstr) (v : Z) (seen : bool) :
  0 <= v -> List.Forall (fun c => isdigit c = true) ds -> stops_digits rest ->
  digits_from v ds < 2 ^ 63 ->
  accumulate v seen (ds ++ rest)
  = (digits_from v ds, seen || match ds with [] => false | _ :: _ => true end).
Proof.
  intros Hv Hds Hrest. revert v seen Hv.
  induction Hds as [|d ds Hd Hds' IH]; intros v seen Hv Hlt.
  - cbn [app digits_from fold_left]. rewrite orb_false_r.
    destruct rest as [|r rest]; [reflexivity|]. cbn in *. now rewrite Hrest.
  - cbn [app accumulate]. rewrite Hd.
    pose proof (digit_val_range d Hd) as Hr.
    assert (Hstep : v * 10 + digit_val d < 2 ^ 63).
    { pose proof (digits_from_ge ds (v * 10 + digit_val d) ltac:(lia) Hds').
      unfold digits_from in *. cbn [fold_left] in Hlt. lia. }
    rewrite long_of_small by lia.
    rewrite IH by (lia || exact Hlt).
    unfold digits_from. cbn [fold_left]. now rewrite orb_true_r.
Qed.

(** X3. [fast_parse_int] on optional blanks, an optional minus sign and a run
    of digits whose value fits a [long]: the value, with its sign, reduced
    to an [int]; whatever follows the digits is ignored.  Below [2^31] the
    value is returned as it is written. *)
Theorem fast_parse_int_value (blanks ds rest : cstr) :
  List.Forall (fun x => is_blank x = true) blanks ->
  Log.numeric_field ds ->
  stops_digits rest ->
  digits_value ds < 2 ^ 63 ->
  fast_parse_int (blanks ++ ds ++ rest) = int_of (digits_value ds)
  /\ fast_parse_int (blanks ++ "-"%char :: ds ++ rest) = int_of (- digits_value ds)
  /\ (digits_value ds < 2 ^ 31 ->
      fast_parse_int (blanks ++ ds ++ rest) = digits_value ds
      /\ fast_parse_int (blanks ++ "-"%char :: ds ++ rest) = - digits_value ds).
Proof.
  intros Hb [Hne Hds] Hrest Hlt.
  destruct ds as [|d ds]; [contradiction|].
  inversion Hds as [|? ? Hd _]; subst.
  destruct (digit_not_blank d Hd) as [Hdb Hdm].
  pose proof (digits_from_ge (d :: ds) 0 ltac:(lia) Hds) as Hge.
  change (digits_from 0 (d :: ds)) with (digits_value (d :: ds)) in Hge.
  pose proof (accumulate_digits (d :: ds) rest 0 false ltac:(lia) Hds Hrest Hlt) as Hacc.
  change (digits_from 0 (d :: ds)) with (digits_value (d :: ds)) in Hacc.
  cbn [orb] in Hacc.
  assert (P : fast_parse_int (blanks ++ (d :: ds) ++ rest) = int_of (digits_value (d :: ds))).
  { unfold fast_parse_int. cbn [app]. rewrite (skip_blank_app blanks d _ Hb Hdb).
    rewrite Hdm. change (d :: ds ++ rest) with ((d :: ds) ++ rest). now rewrite Hacc. }
  assert (N : fast_parse_int (blanks ++ "-"%char :: (d :: ds) ++ rest)
              = int_of (- digits_value (d :: ds))).
  { unfold fast_parse_int. rewrite (skip_blank_app blanks "-"%char _ Hb eq_refl).
    change (is_minus "-") with true. cbn iota.
    rewrite Hacc. cbn [negb]. now rewrite long_of_small by lia. }
  split; [exact P|]. split; [exact N|].
  intros H31. rewrite P, N. split; apply int_of_small; lia.
Qed.

Lemma fast_parse_int_value_witness :
  fast_parse_int (lit "  -42" ++ [NEWLINE]) = -42.
Proof.
  apply (proj2 (proj2 (proj2 (fast_parse_int_value (lit "  ") (lit "42") [NEWLINE]
                  ltac:(repeat constructor)
                  ltac:(split; [discriminate | repeat constructor])
                  ltac:(reflexivity)
                  ltac:(vm_compute; reflexivity)))
                ltac:(vm_compute; reflexivity))).
Defined.

(** X4. [fast_parse_int] returns its failure value whenever no digit follows
    the leading blanks and the optional minus sign: on an empty or blank
    text, on a text that starts with another character (a plus sign, a
    form feed, a letter), and on a minus sign not followed at once by a
    digit. *)
Theorem fast_parse_int_no_digit (blanks : cstr) :
  List.Forall (fun x => is_blank x = true) blanks ->
  fast_parse_int blanks = PARSE_FAILURE
  /\ (forall (c : ascii) (t : cstr),
        isdigit c = false -> is_blank c = false -> is_minus c = false ->
        fast_parse_int (blanks ++ c :: t) = PARSE_FAILURE)
  /\ (forall t : cstr,
        stops_digits t -> fast_parse_int (blanks ++ "-"%char :: t) = PARSE_FAILURE).
Proof.
  intros Hb. split; [|split].
  - unfold fast_parse_int. now rewrite (skip_blank_all blanks Hb).
  - intros c t Hd Hc Hm. unfold fast_parse_int.
    rewrite (skip_blank_app blanks c t Hb Hc), Hm. cbn [accumulate]. now rewrite Hd.
  - intros t Ht. unfold fast_parse_int.
    rewrite (skip_blank_app blanks "-"%char t Hb eq_refl).
    change (is_minus "-") with true. cbn iota.
    destruct t as [|c t]; [reflexivity|]. cbn in Ht. cbn [accumulate]. now rewrite Ht.
Qed.

Lemma fast_parse_int_no_digit_witness :
  fast_parse_int (lit " +5") = PARSE_FAILURE /\ fast_parse_int (lit " - 5") = PARSE_FAILURE.
Proof.
  destruct (fast_parse_int_no_digit (lit " ") ltac:(repeat constructor)) as (_ & Hc & Hm).
  split.
  - apply (Hc "+"%char (lit "5")); reflexivity.
  - apply (Hm (lit " 5")). reflexivity.
Defined.

Lemma read_counter_unopened (fd fd_new : Z) (first second : option (list ascii)) :
  fd < 0 -> read_counter fd first fd_new second = mk_counter_read (-1) fd false.
Proof.
  intros Hfd. unfold read_counter, read_int_fd.
  destruct (Z.ltb_spec fd 0); [|lia]. cbn.
  destruct (Z.leb_spec 0 fd); [lia | reflexivity].
Qed.

(** X5. The retry of a tick does not change what a stable node reports, a
    non-negative first reading is returned without reopening, and a
    counter whose descriptor is invalid is never reopened. *)
Theorem read_counter_retry (fd fd_new : Z) (first second : option (list ascii)) :
  (0 <= fd -> 0 <= fd_new ->
   value (read_counter fd first fd_new first) = read_int_fd fd first 128)
  /\ (0 <= read_int_fd fd first 128 ->
      read_counter fd first fd_new second
      = mk_counter_read (read_int_fd fd first 128) fd false)
  /\ (fd < 0 -> read_counter fd first fd_new second = mk_counter_read (-1) fd false).
Proof.
  split; [|split].
  - intros Hfd Hnew. unfold read_counter.
    destruct ((read_int_fd fd first 128 <? 0) && (0 <=? fd)); [|reflexivity].
    cbn [value]. unfold read_int_fd.
    destruct (Z.ltb_spec fd 0), (Z.ltb_spec fd_new 0); (reflexivity || lia).
  - intros Hv. unfold read_counter.
    destruct (Z.ltb_spec (read_int_fd fd first 128) 0); [lia | reflexivity].
  - apply read_counter_unopened.
Qed.

(** X6. Once its descriptor is invalid, because the node could not be opened
    at start or because one reopen failed, a counter reports -1 on every
    later tick of the run and is never opened again. *)
Theorem counter_lost_for_the_run (fd : Z) (ticks : list counter_tick) :
  fd < 0 ->
  counter_ticks fd ticks = (repeat (-1) (List.length ticks), fd).
Proof.
  intros Hfd. induction ticks as [|t rest IH]; [reflexivity|].
  cbn [counter_ticks List.length repeat].
  rewrite (read_counter_unopened fd (reopen_fd t) (first_read t) (second_read t) Hfd).
  cbn [fd_after value]. now rewrite IH.
Qed.

Lemma counter_lost_for_the_run_witness :
  counter_ticks (-1)
    [mk_counter_tick (Some (lit "40000")) 5 (Some (lit "41000"));
     mk_counter_tick (Some (lit "42000")) 5 (Some (lit "43000"))]
  = ([-1; -1], -1).
Proof.
  apply (counter_lost_for_the_run (-1)). lia.
Defined.

End FastParseValues.

Section FastParsePlain.

(** The reader on a run of digits below [2^31] and what follows it. *)
Lemma fast_parse_int_value_plain (ds rest : cstr) :
  Log.numeric_field ds -> stops_digits rest -> digits_value ds < 2 ^ 31 ->
  fast_parse_int (ds ++ rest) = digits_value ds
  /\ fast_parse_int ("-"%char :: ds ++ rest) = - digits_value ds.
Proof.
  intros [Hne Hds] Hrest Hlt.
  destruct ds as [|d ds]; [contradiction|].
  inversion Hds as [|? ? Hd _]; subst.
  destruct (digit_not_blank d Hd) as [Hdb Hdm].
  pose proof (digits_from_ge (d :: ds) 0 ltac:(lia) Hds) as Hge.
  change (digits_from 0 (d :: ds)) with (digits_value (d :: ds)) in Hge.
  assert (Hlt' : digits_from 0 (d :: ds) < 2 ^ 63)
    by (change (digits_from 0 (d :: ds)) with (digits_value (d :: ds)); lia).
  pose proof (accumulate_digits (d :: ds) rest 0 false ltac:(lia) Hds Hrest Hlt') as Hacc.
  change (digits_from 0 (d :: ds)) with (digits_value (d :: ds)) in Hacc.
  cbn [orb] in Hacc.
  split.
  - unfold fast_parse_int. cbn [app skip_blank]. rewrite Hdb, Hdm.
    change (d :: ds ++ rest) with ((d :: ds) ++ rest). rewrite Hacc. cbn [negb].
    apply int_of_small. lia.
  - unfold fast_parse_int. cbn [skip_blank]. change (is_blank "-") with false.
    cbn iota. change (is_minus "-") with true. cbn iota.
    rewrite Hacc. cbn [negb]. rewrite long_of_small by lia. apply int_of_small. lia.
Qed.

End FastParsePlain.

(** ** Strings and decimal conversions *)

Section StringFacts.

Lemma cstr_eqb_eq (a b : cstr) : cstr_eqb a b = true <-> a = b.
Proof.
  revert b. induction a as [|x a IH]; intros [|y b]; cbn [cstr_eqb];
    try (split; (reflexivity || discriminate)).
  rewrite andb_true_iff, Ascii.eqb_eq, IH. split.
  - intros [-> ->]. reflexivity.
  - intros [= -> ->]. split; reflexivity.
Qed.

Lemma c_str_plain (s : cstr) : free_of NUL s -> c_str s = s.
Proof.
  intros H. induction H as [|c s Hc _ IH]; [reflexivity|].
  cbn [c_str]. now rewrite Hc, IH.
Qed.

Lemma c_str_prefix (buf : list ascii) : exists tail, buf = c_str buf ++ tail.
Proof.
  induction buf as [|c buf [tail IH]]; [now exists []|].
  cbn [c_str]. destruct (Ascii.eqb c NUL).
  - now exists (c :: buf).
  - exists tail. cbn [app]. now rewrite <- IH.
Qed.

Lemma c_str_free (buf : list ascii) : free_of NUL (c_str buf).
Proof.
  induction buf as [|c buf IH]; [constructor|].
  cbn [c_str]. destruct (Ascii.eqb c NUL) eqn:E; [constructor|].
  constructor; assumption.
Qed.

Lemma c_str_length (buf : list ascii) : (List.length (c_str buf) <= List.length buf)%nat.
Proof.
  destruct (c_str_prefix buf) as [tail E]. rewrite E at 2. rewrite length_app. lia.
Qed.

Lemma digits_value_nonneg (ds : cstr) :
  List.Forall (fun c => isdigit c = true) ds -> 0 <= digits_value ds.
Proof.
  intros H. change (digits_value ds) with (digits_from 0 ds).
  apply digits_from_ge; [lia | exact H].
Qed.

Lemma digit_free (c : ascii) :
  isdigit c = true ->
  Ascii.eqb c NUL = false /\ Ascii.eqb c NEWLINE = false /\ Ascii.eqb c CR = false.
Proof.
  intros H. repeat split; apply Ascii.eqb_neq; intros ->; discriminate H.
Qed.

(** A run of digits, with whatever follows it, as the subject of a
    decimal conversion. *)
Lemma scan_decimal_digits (ds rest : cstr) :
  Log.numeric_field ds -> stops_digits rest ->
  skip_space (ds ++ rest) = ds ++ rest
  /\ scan_decimal (ds ++ rest) = Some (false, digits_value ds, rest)
  /\ scan_decimal ("-"%char :: ds ++ rest) = Some (true, digits_value ds, rest).
Proof.
  intros [Hne Hds] Hrest. destruct ds as [|d ds]; [contradiction|].
  inversion Hds as [|? ? Hd _]; subst.
  destruct (digit_is_plain d Hd) as (Hs & Hm & Hp).
  split; [|split].
  - cbn [app skip_space]. now rewrite Hs.
  - unfold scan_decimal. cbn [app]. rewrite Hm, Hp.
    change (d :: ds ++ rest) with ((d :: ds) ++ rest).
    now rewrite (span_digits_app (d :: ds) rest Hds Hrest).
  - unfold scan_decimal. change (is_minus "-") with true. cbn iota.
    now rewrite (span_digits_app (d :: ds) rest Hds Hrest).
Qed.

Lemma strtol_digits (ds rest : cstr) :
  Log.numeric_field ds -> stops_digits rest -> digits_value ds < 2 ^ 63 ->
  strtol (ds ++ rest) = Some (digits_value ds, rest).
Proof.
  intros Hf Hrest Hlt. unfold strtol.
  destruct (scan_decimal_digits ds rest Hf Hrest) as (-> & -> & _).
  unfold to_long. destruct (Z.ltb_spec (2 ^ 63 - 1) (digits_value ds)); [lia | reflexivity].
Qed.

Lemma atoi_digits (ds rest : cstr) :
  Log.numeric_field ds -> stops_digits rest -> digits_value ds < 2 ^ 31 ->
  atoi (ds ++ rest) = digits_value ds.
Proof.
  intros Hf Hrest Hlt. unfold atoi.
  destruct (scan_decimal_digits ds rest Hf Hrest) as (-> & -> & _).
  pose proof (digits_value_nonneg ds (proj2 Hf)).
  unfold to_long. destruct (Z.ltb_spec (2 ^ 63 - 1) (digits_value ds)); [lia|].
  apply int_of_small. lia.
Qed.

Lemma scan_decimal_nonneg (s : cstr) (neg : bool) (m : Z) (rest : cstr) :
  scan_decimal s = Some (neg, m, rest) -> 0 <= m.
Proof.
  unfold scan_decimal.
  destruct (match s with
            | c :: rest0 => if is_minus c then (true, rest0)
                            else if is_plus c then (false, rest0) else (false, s)
            | [] => (false, s)
            end) as [n s1].
  pose proof (span_digits_nonneg s1) as H.
  destruct (span_digits s1) as [ds r]. cbn [fst] in H.
  destruct ds; [discriminate|]. intros [= _ <- _]. exact H.
Qed.

Lemma to_long_range (neg : bool) (m : Z) :
  0 <= m -> - 2 ^ 63 <= to_long neg m <= 2 ^ 63 - 1.
Proof.
  intros H. unfold to_long. destruct neg.
  - destruct (Z.ltb_spec (2 ^ 63) m); lia.
  - destruct (Z.ltb_spec (2 ^ 63 - 1) m); lia.
Qed.

Lemma strtol_range (v : cstr) (s : Z) (rest : cstr) :
  strtol v = Some (s, rest) -> - 2 ^ 63 <= s <= 2 ^ 63 - 1.
Proof.
  unfold strtol. destruct (scan_decimal (skip_space v)) as [[[neg m] r]|] eqn:E; [|discriminate].
  intros [= <- _]. apply to_long_range. exact (scan_decimal_nonneg _ _ _ _ E).
Qed.

Lemma int_of_range (z : Z) : - 2 ^ 31 <= int_of z < 2 ^ 31.
Proof.
  unfold int_of, wrap_signed. change (2 ^ (32 - 1)) with (2 ^ 31).
  pose proof (Z.mod_pos_bound z (2 ^ 32) ltac:(lia)).
  destruct (Z.ltb_spec (z mod 2 ^ 32) (2 ^ 31)); lia.
Qed.

End StringFacts.

(** ** The tables of cpu_logger.c *)

Section CatalogTables.

Import CpuLogger.

(** X7. [read_string_file] returns the text of a one-line file without its
    line terminator, and removes one terminator only; a text without a
    terminator is returned as it is. *)
Theorem read_string_file_line (fs : filesystem) (path : cstr) (bufsz : nat) (s : cstr) :
  free_of NUL s -> (List.length s + 1 < bufsz)%nat ->
  (file_content fs path = Some (s ++ [NEWLINE]) -> read_string_file fs path bufsz = Some s)
  /\ (s <> [] -> List.last s NUL <> NEWLINE -> file_content fs path = Some s ->
      read_string_file fs path bufsz = Some s).
Proof.
  intros Hfree Hlen. split.
  - intros E. unfold read_string_file. rewrite E.
    rewrite firstn_all2 by (rewrite length_app; cbn; lia).
    destruct (s ++ [NEWLINE]) as [|c buf] eqn:B; [now destruct s|].
    rewrite <- B, last_last, removelast_last.
    change (Ascii.eqb NEWLINE NEWLINE) with true. cbn iota.
    now rewrite (c_str_plain s Hfree).
  - intros Hne Hlast E. unfold read_string_file. rewrite E.
    rewrite firstn_all2 by lia.
    destruct s as [|c s']; [contradiction|].
    apply Ascii.eqb_neq in Hlast. rewrite Hlast.
    now rewrite (c_str_plain (c :: s') Hfree).
Qed.

Lemma read_string_file_line_witness :
  read_string_file (layout ascending_order (lit "cpu-thermal"))
    (zone_type_path (lit "thermal_zone0")) 64
  = Some (lit "cpu-thermal").
Proof.
  apply (proj1 (read_string_file_line (layout ascending_order (lit "cpu-thermal"))
                  (zone_type_path (lit "thermal_zone0")) 64 (lit "cpu-thermal")
                  ltac:(repeat constructor) ltac:(cbn; lia))).
  vm_compute. reflexivity.
Defined.

(** X8. Whatever the file holds, the string [read_string_file] returns fits
    the buffer with its terminator, and is the beginning of the content
    of the file, which is not empty. *)
Theorem read_string_file_fits (fs : filesystem) (path : cstr) (bufsz : nat) (r : cstr) :
  read_string_file fs path bufsz = Some r ->
  (List.length r <= bufsz - 1)%nat
  /\ free_of NUL r
  /\ exists content tail : list ascii,
       file_content fs path = Some content /\ content <> [] /\ content = r ++ tail.
Proof.
  unfold read_string_file. destruct (file_content fs path) as [content|]; [|discriminate].
  pose proof (firstn_le_length (bufsz - 1) content) as Hlen.
  pose proof (firstn_skipn (bufsz - 1) content) as Hsplit.
  destruct (firstn (bufsz - 1) content) as [|c buf] eqn:B; [discriminate|].
  assert (Hcontent : content <> []) by (intros ->; now rewrite firstn_nil in B).
  assert (G : forall kept dropped : list ascii,
            c :: buf = kept ++ dropped -> Some (c_str kept) = Some r ->
            (List.length r <= bufsz - 1)%nat /\ free_of NUL r
            /\ exists content' tail, Some content = Some content' /\ content' <> []
                                     /\ content' = r ++ tail).
  { intros kept dropped Ek [= <-].
    assert (Lk : (List.length kept <= List.length (c :: buf))%nat)
      by (rewrite Ek, length_app; lia).
    pose proof (c_str_length kept). split; [lia|]. split; [apply c_str_free|].
    destruct (c_str_prefix kept) as [tail Et].
    exists content, (tail ++ dropped ++ skipn (bufsz - 1) content).
    split; [reflexivity|]. split; [exact Hcontent|].
    rewrite <- Hsplit at 1. rewrite Ek, Et at 1. now rewrite <- !app_assoc. }
  destruct (Ascii.eqb (List.last (c :: buf) NUL) NEWLINE).
  - apply (G (removelast (c :: buf)) [List.last (c :: buf) NUL]).
    apply app_removelast_last. discriminate.
  - apply (G (c :: buf) []). now rewrite app_nil_r.
Qed.

Lemma read_string_file_fits_witness :
  (List.length (lit "cpu-thermal") <= 64 - 1)%nat.
Proof.
  apply (proj1 (read_string_file_fits (layout ascending_order (lit "cpu-thermal"))
                  (zone_type_path (lit "thermal_zone0")) 64 (lit "cpu-thermal")
                  ltac:(vm_compute; reflexivity))).
Defined.

End CatalogTables.

Section ReadStringBound.

Import CpuLogger.

Lemma read_string_file_bound (fs : filesystem) (path : cstr) (bufsz : nat) (r : cstr) :
  read_string_file fs path bufsz = Some r ->
  (List.length r <= bufsz - 1)%nat /\ free_of NUL r.
Proof.
  unfold read_string_file. destruct (file_content fs path) as [content|]; [|discriminate].
  pose proof (firstn_le_length (bufsz - 1) content) as Hlen.
  destruct (firstn (bufsz - 1) content) as [|c buf] eqn:B; [discriminate|].
  assert (Hr : (List.length (removelast (c :: buf)) <= List.length (c :: buf))%nat).
  { rewrite (app_removelast_last (l := c :: buf) NUL) at 2 by discriminate.
    rewrite length_app. lia. }
  destruct (Ascii.eqb (List.last (c :: buf) NUL) NEWLINE); intros E.
  - assert (Er : r = c_str (removelast (c :: buf))) by congruence. rewrite Er.
    split; [|apply c_str_free].
    pose proof (c_str_length (removelast (c :: buf))). lia.
  - assert (Er : r = c_str (c :: buf)) by congruence. rewrite Er.
    split; [|apply c_str_free].
    pose proof (c_str_length (c :: buf)). lia.
Qed.

End ReadStringBound.

Section CatalogBounds.

Import CpuLogger.

Lemma omap_provenance {A : Type} (pick : cstr -> option A) (entries : list cstr) :
  List.Forall (fun x => exists d, In d entries /\ pick d = Some x) (omap pick entries).
Proof.
  induction entries as [|d rest IH]; [constructor|].
  change (omap pick (d :: rest))
    with (match pick d with Some y => y :: omap pick rest | None => omap pick rest end).
  assert (IH' : List.Forall (fun x => exists d0, In d0 (d :: rest) /\ pick d0 = Some x)
                  (omap pick rest)).
  { eapply Forall_impl; [|exact IH]. intros x (d0 & Hin & E). exists d0.
    split; [now right | exact E]. }
  destruct (pick d) as [y|] eqn:E; [|exact IH'].
  constructor; [|exact IH']. exists d. split; [now left | exact E].
Qed.

Lemma Forall_take {A : Type} (P : A -> Prop) (n : nat) (l : list A) :
  List.Forall P l -> List.Forall P (take n l).
Proof.
  intros H. revert n. induction H as [|x l Hx _ IH]; intros [|n]; cbn; constructor; auto.
Qed.

(** X9. [scan_cpus] never writes past the table: started on a table that is
    not over-full it keeps the entries already there, appends to them,
    and stops at [MAX_CPUS] entries.  Every entry it appends comes from a
    name the directory enumeration returned, which begins with [cpu]
    followed by a digit and whose frequency node was readable at the
    time; the entry holds the path of that node. *)
Theorem scan_cpus_within_table (fs : filesystem) (cpus : list cpu_info_t) :
  (List.length cpus <= MAX_CPUS)%nat ->
  (List.length (scan_cpus fs cpus) <= MAX_CPUS)%nat
  /\ exists added : list cpu_info_t,
       scan_cpus fs cpus = cpus ++ added
       /\ List.Forall
            (fun c => exists d_name : cstr,
                 In d_name (default [] (dir_entries fs CPU_DIR))
                 /\ starts_with (lit "cpu") d_name = true
                 /\ isdigit (char_at d_name 3) = true
                 /\ freq_path c = cpu_freq_path d_name
                 /\ access_R_OK fs (freq_path c) = true
                 /\ cpu_num c = atoi (skipn 3 d_name))
            added.
Proof.
  intros Hlen. unfold scan_cpus.
  destruct (dir_entries fs CPU_DIR) as [entries|]; cbn [default].
  2:{ split; [exact Hlen|]. exists []. now rewrite app_nil_r. }
  rewrite (bounded_scan_spec (cpu_of fs) MAX_CPUS (scan_cpus_loop fs)); try assumption.
  2:{ reflexivity. }
  2:{ intros d rest table. cbn [scan_cpus_loop]. now rewrite scan_cpus_entry_spec. }
  split.
  - rewrite length_app, length_take. lia.
  - eexists. split; [reflexivity|]. apply Forall_take.
    eapply Forall_impl; [|apply omap_provenance].
    intros c (d & Hin & E). exists d. split; [exact Hin|].
    unfold cpu_of in E.
    destruct (strncmp_eq0 d (lit "cpu") 3) eqn:E1; [|discriminate].
    destruct (isdigit (char_at d 3)) eqn:E2; [|discriminate].
    destruct (access_R_OK fs (cpu_freq_path d)) eqn:E3; [|discriminate].
    cbn in E. injection E as <-. cbn [freq_path cpu_num].
    repeat split; try assumption; try reflexivity.
    unfold strncmp_eq0 in E1. apply cstr_eqb_eq in E1.
    apply starts_with_iff. exists (skipn 3 d).
    rewrite <- (firstn_skipn 3 d) at 1. now rewrite E1.
Qed.

Lemma scan_cpus_within_table_witness :
  (List.length (scan_cpus (layout other_order (lit "cpu-thermal")) []) <= MAX_CPUS)%nat.
Proof.
  apply (proj1 (scan_cpus_within_table (layout other_order (lit "cpu-thermal")) []
                  ltac:(cbn; lia))).
Defined.

(** X10. [scan_thermal_zones] never writes past its table, and what it
    copies into the 64 bytes of [type_name] fits them: every zone it
    appends comes from an enumerated name that begins with
    [thermal_zone], and holds the declared type of that entry, which has
    at most 63 characters and contains [cpu] or [CPU], and the
    temperature node of that entry.  The name is copied without a bound:
    the zone holds the entry name when it has fewer than 32 characters;
    a longer name overruns [zone_name], and the string then found there
    is its first 32 characters followed by the type. *)
Theorem scan_thermal_within_table (fs : filesystem) (zones : list thermal_info_t) :
  (List.length zones <= MAX_THERMAL_ZONES)%nat ->
  (List.length (scan_thermal_zones fs zones) <= MAX_THERMAL_ZONES)%nat
  /\ exists added : list thermal_info_t,
       scan_thermal_zones fs zones = zones ++ added
       /\ List.Forall
            (fun z =>
               exists d_name : cstr,
                 In d_name (default [] (dir_entries fs THERMAL_DIR))
                 /\ starts_with (lit "thermal_zone") d_name = true
                 /\ declared_type fs d_name = Some (type_name z)
                 /\ (List.length (type_name z) < 64)%nat
                 /\ free_of NUL (type_name z)
                 /\ (contains (lit "cpu") (type_name z)
                     \/ contains (lit "CPU") (type_name z))
                 /\ temp_path z = zone_temp_path d_name
                 /\ ((List.length d_name < 32)%nat -> zone_name z = d_name)
                 /\ ((32 <= List.length d_name)%nat ->
                     zone_name z = firstn 32 d_name ++ type_name z))
            added.
Proof.
  intros Hlen. unfold scan_thermal_zones.
  destruct (dir_entries fs THERMAL_DIR) as [entries|]; cbn [default].
  2:{ split; [exact Hlen|]. exists []. now rewrite app_nil_r. }
  rewrite (bounded_scan_spec (zone_of fs) MAX_THERMAL_ZONES (scan_thermal_loop fs));
    try assumption.
  2:{ reflexivity. }
  2:{ intros d rest table. cbn [scan_thermal_loop]. now rewrite scan_thermal_entry_spec. }
  split.
  - rewrite length_app, length_take. lia.
  - eexists. split; [reflexivity|]. apply Forall_take.
    eapply Forall_impl; [|apply omap_provenance].
    intros z (d & Hin & E). exists d. unfold zone_of, candidate in E.
    destruct (strncmp_eq0 d (lit "thermal_zone") 12) eqn:E1; [|discriminate].
    destruct (declared_type fs d) as [t|] eqn:E2; [|discriminate].
    destruct (type_matches t) eqn:E3; [|discriminate].
    injection E as <-. cbn [zone_name type_name temp_path].
    destruct (read_string_file_bound fs (zone_type_path d) 64 t E2) as [Hl Hf].
    split; [exact Hin|]. split.
    { unfold strncmp_eq0 in E1. apply cstr_eqb_eq in E1.
      apply starts_with_iff. exists (skipn 12 d).
      rewrite <- (firstn_skipn 12 d) at 1. now rewrite E1. }
    split; [reflexivity|]. split; [lia|]. split; [exact Hf|].
    split; [now apply type_matches_iff|]. split; [reflexivity|].
    unfold stored_zone_name, ZONE_NAME_SIZE.
    split; intros Hd; destruct (Nat.ltb_spec (List.length d) 32); (reflexivity || lia).
Qed.

Lemma scan_thermal_within_table_witness :
  (List.length (scan_thermal_zones (layout other_order (lit "cpu-thermal")) [])
   <= MAX_THERMAL_ZONES)%nat.
Proof.
  apply (proj1 (scan_thermal_within_table (layout other_order (lit "cpu-thermal")) []
                  ltac:(cbn; lia))).
Defined.

(** A zone whose directory name has 35 characters: the name found in the
    record is its first 32 characters followed by the type, while the
    type and the temperature node are those of the entry. *)
Example long_zone_name_overruns :
  scan_thermal_zones
    (mk_fs (fun dir => if cstr_eqb dir THERMAL_DIR
                       then Some [lit "thermal_zone_0123456789012345678abc"]
                       else None)
           (fun _ => false)
           (fun path =>
              if cstr_eqb path (zone_type_path (lit "thermal_zone_0123456789012345678abc"))
              then Some (lit "cpu-thermal" ++ [NEWLINE])
              else None))
    []
  = [mk_thermal_info (lit "thermal_zone_0123456789012345678cpu-thermal")
       (lit "cpu-thermal")
       (lit "/sys/class/thermal/thermal_zone_0123456789012345678abc/temp")].
Proof. vm_compute. reflexivity. Qed.

(** X11. The number [scan_cpus] stores for an entry is the number written in
    its name: for [cpu] followed by digits (and anything after them) it
    is the value of the digits, and the entry is stored exactly when the
    frequency node of that name is readable.  A name whose fourth
    character is not a digit, such as [cpufreq] or [cpuidle], stores
    nothing. *)
Theorem scan_cpus_entry_number (fs : filesystem) (cpus : list cpu_info_t)
    (ds rest : cstr) :
  Log.numeric_field ds -> stops_digits rest -> digits_value ds < 2 ^ 31 ->
  scan_cpus_entry fs cpus (lit "cpu" ++ ds ++ rest)
  = (if access_R_OK fs (cpu_freq_path (lit "cpu" ++ ds ++ rest))
     then cpus ++ [mk_cpu_info (digits_value ds) (cpu_freq_path (lit "cpu" ++ ds ++ rest))]
     else cpus)
  /\ (isdigit (char_at rest 0) = false ->
      scan_cpus_entry fs cpus (lit "cpu" ++ rest) = cpus).
Proof.
  intros Hf Hrest Hlt. split.
  - unfold scan_cpus_entry.
    change (strncmp_eq0 (lit "cpu" ++ ds ++ rest) (lit "cpu") 3) with true.
    change (char_at (lit "cpu" ++ ds ++ rest) 3) with (char_at (ds ++ rest) 0).
    change (skipn 3 (lit "cpu" ++ ds ++ rest)) with (ds ++ rest).
    destruct Hf as [Hne Hds]. destruct ds as [|d ds]; [contradiction|].
    inversion Hds as [|? ? Hd _]; subst.
    change (char_at ((d :: ds) ++ rest) 0) with d. rewrite Hd. cbn [negb].
    now rewrite (atoi_digits (d :: ds) rest (conj Hne Hds) Hrest Hlt).
  - intros Hc. unfold scan_cpus_entry.
    change (strncmp_eq0 (lit "cpu" ++ rest) (lit "cpu") 3) with true.
    change (char_at (lit "cpu" ++ rest) 3) with (char_at rest 0).
    now rewrite Hc.
Qed.

Lemma scan_cpus_entry_number_witness :
  scan_cpus_entry (layout ascending_order (lit "cpu-thermal")) [] (lit "cpu3")
  = [mk_cpu_info 3 (cpu_freq_path (lit "cpu3"))].
Proof.
  apply (proj1 (scan_cpus_entry_number (layout ascending_order (lit "cpu-thermal")) []
                  (lit "3") []
                  ltac:(split; [discriminate | repeat constructor])
                  ltac:(exact I)
                  ltac:(vm_compute; reflexivity))).
Defined.

End CatalogBounds.

(** ** The time option of logger.c, combined_gpu_logger.c and cpu_logger.c *)

Section TimeOption.

Import TimeArg.

Lemma time_arg_loop_outcome (args : list cstr) (out : Z) :
  (fst (time_arg_loop args out) = 0
   /\ 0 < snd (time_arg_loop args out) <= 2 ^ 63 - 1)
  \/ time_arg_loop args out = (-1, out).
Proof.
  induction args as [|arg rest IH]; [now right|].
  cbn [time_arg_loop].
  destruct (strncmp_eq0 arg (lit "-time") 5 || strncmp_eq0 arg (lit "-t") 2); [|exact IH].
  destruct (match strchr_after arg "="%char with
            | Some after => Some after
            | None => match rest with next :: _ => Some next | [] => None end
            end) as [v|]; [|now right].
  destruct (strtol v) as [[s r]|] eqn:E; [|now right].
  destruct (Z.leb_spec s 0); [now right|]. left. cbn [fst snd].
  pose proof (strtol_range v s r E). lia.
Qed.

(** X12. [parse_time_arg] either returns 0 and stores a number of seconds that
    is positive and fits a [long], or returns -1 and leaves the variable
    as it was. *)
Theorem parse_time_arg_outcome (argv : list cstr) (out : Z) :
  (fst (parse_time_arg argv out) = 0
   /\ 0 < snd (parse_time_arg argv out) <= 2 ^ 63 - 1)
  \/ parse_time_arg argv out = (-1, out).
Proof. apply time_arg_loop_outcome. Qed.

Lemma time_arg_loop_skip (pre rest : list cstr) (out : Z) :
  List.Forall (fun a => is_time_option a = false) pre ->
  time_arg_loop (pre ++ rest) out = time_arg_loop rest out.
Proof.
  intros H. induction H as [|a pre Ha _ IH]; [reflexivity|].
  cbn [app time_arg_loop]. unfold is_time_option in Ha. now rewrite Ha.
Qed.

(** X13. The four ways of giving the duration: [-t N], [-time N], [-t=N] and
    [-time=N], where [N] is a positive decimal number that fits a [long].
    The first argument that is a time option decides; what comes after
    it is not looked at. *)
Theorem time_option_forms (argv0 : cstr) (pre post : list cstr) (ds : cstr) (out : Z) :
  List.Forall (fun a => is_time_option a = false) pre ->
  Log.numeric_field ds ->
  0 < digits_value ds < 2 ^ 63 ->
  parse_time_arg (argv0 :: pre ++ [lit "-t"; ds] ++ post) out = (0, digits_value ds)
  /\ parse_time_arg (argv0 :: pre ++ [lit "-time"; ds] ++ post) out = (0, digits_value ds)
  /\ parse_time_arg (argv0 :: pre ++ [lit "-t=" ++ ds] ++ post) out = (0, digits_value ds)
  /\ parse_time_arg (argv0 :: pre ++ [lit "-time=" ++ ds] ++ post) out
     = (0, digits_value ds).
Proof.
  intros Hpre Hf [Hpos Hlt].
  pose proof (strtol_digits ds [] Hf I Hlt) as Hs. rewrite app_nil_r in Hs.
  assert (Hle : (digits_value ds <=? 0) = false) by (apply Z.leb_gt; exact Hpos).
  unfold parse_time_arg. cbn [tl].
  rewrite !(time_arg_loop_skip pre _ out Hpre).
  repeat split.
  - cbn [app time_arg_loop].
    change (strncmp_eq0 (lit "-time") (lit "-time") 5 || strncmp_eq0 (lit "-t") (lit "-t") 2)
      with true.
    change (strncmp_eq0 (lit "-t") (lit "-time") 5 || strncmp_eq0 (lit "-t") (lit "-t") 2)
      with true.
    change (strchr_after (lit "-t") "=") with (@None cstr). cbn iota.
    now rewrite Hs, Hle.
  - cbn [app time_arg_loop].
    change (strncmp_eq0 (lit "-time") (lit "-time") 5
            || strncmp_eq0 (lit "-time") (lit "-t") 2) with true.
    change (strchr_after (lit "-time") "=") with (@None cstr). cbn iota.
    now rewrite Hs, Hle.
  - cbn [app time_arg_loop].
    change (strncmp_eq0 (lit "-t=" ++ ds) (lit "-t") 2) with true.
    rewrite orb_true_r.
    change (strchr_after (lit "-t=" ++ ds) "=") with (Some ds). cbn iota.
    now rewrite Hs, Hle.
  - cbn [app time_arg_loop].
    change (strncmp_eq0 (lit "-time=" ++ ds) (lit "-time") 5) with true.
    cbn [orb].
    change (strchr_after (lit "-time=" ++ ds) "=") with (Some ds). cbn iota.
    now rewrite Hs, Hle.
Qed.

Lemma time_option_forms_witness :
  parse_time_arg [lit "./logger"; lit "-v"; lit "-time=30"; lit "-t"; lit "5"] (-1)
  = (0, 30).
Proof.
  apply (proj2 (proj2 (proj2 (time_option_forms (lit "./logger") [lit "-v"]
                                [lit "-t"; lit "5"] (lit "30") (-1)
                                ltac:(repeat constructor)
                                ltac:(split; [discriminate | repeat constructor])
                                ltac:(vm_compute; split; reflexivity))))).
Defined.

(** X14. The test for [-time] adds nothing to the test for [-t]: an argument
    is taken for the time option exactly when it begins with [-t].  So
    any other option that begins with these two characters is read as the
    time option, and fails the call unless a positive number follows. *)
Theorem time_option_is_prefix (arg : cstr) :
  is_time_option arg = starts_with (lit "-t") arg
  /\ (is_time_option arg = true <-> exists t : cstr, arg = lit "-t" ++ t).
Proof.
  assert (E : is_time_option arg = starts_with (lit "-t") arg).
  { unfold is_time_option, strncmp_eq0.
    destruct arg as [|a [|b arg]]; [reflexivity| |].
    - cbn. now rewrite andb_false_r, andb_false_r.
    - cbn [firstn lit String.list_ascii_of_string cstr_eqb starts_with].
      rewrite (Ascii.eqb_sym "-"%char a), (Ascii.eqb_sym "t"%char b).
      destruct (Ascii.eqb a "-"); [|reflexivity].
      destruct (Ascii.eqb b "t"); [|reflexivity].
      cbn [andb]. now rewrite orb_true_r. }
  split; [exact E|]. rewrite E. apply starts_with_iff.
Qed.

End TimeOption.

(** ** log.c: the GPU node and the custom sensors *)

Section SensorReaders.

Import LogIO.

Lemma fgets_chars_line (room : nat) (l more : list ascii) :
  free_of NEWLINE l -> (List.length l < room)%nat ->
  fgets_chars room (l ++ NEWLINE :: more) = (l ++ [NEWLINE], more).
Proof.
  intros H. revert room. induction H as [|c l Hc _ IH]; intros room Hlen.
  - destruct room as [|room]; [cbn in Hlen; lia|]. reflexivity.
  - destruct room as [|room]; [cbn in Hlen; lia|].
    cbn [app fgets_chars]. rewrite Hc, IH by (cbn in Hlen; lia). reflexivity.
Qed.

Lemma fgets_chars_all (room : nat) (l : list ascii) :
  free_of NEWLINE l -> (List.length l <= room)%nat -> fgets_chars room l = (l, []).
Proof.
  intros H. revert room. induction H as [|c l Hc _ IH]; intros room Hlen.
  - now destruct room.
  - destruct room as [|room]; [cbn in Hlen; lia|].
    cbn [fgets_chars]. rewrite Hc, IH by (cbn in Hlen; lia). reflexivity.
Qed.

Lemma fgets_chars_length (room : nat) (stream : list ascii) :
  (List.length (fst (fgets_chars room stream)) <= room)%nat.
Proof.
  revert stream. induction room as [|room IH]; intros stream.
  - destruct stream; cbn; lia.
  - destruct stream as [|c rest]; [cbn; lia|].
    cbn [fgets_chars]. destruct (Ascii.eqb c NEWLINE); [cbn; lia|].
    specialize (IH rest). destruct (fgets_chars room rest) as [l rest']. cbn in *. lia.
Qed.

Lemma fgets_length (size : nat) (stream : list ascii) (line : cstr) (rest : list ascii) :
  fgets size stream = Some (line, rest) ->
  (List.length line <= size - 1)%nat /\ free_of NUL line.
Proof.
  unfold fgets. destruct stream as [|c stream]; [discriminate|].
  pose proof (fgets_chars_length (size - 1) (c :: stream)) as H.
  destruct (fgets_chars (size - 1) (c :: stream)) as [l r]. cbn [fst] in H.
  intros E. assert (El : line = c_str l) by congruence. rewrite El.
  pose proof (c_str_length l). split; [lia | apply c_str_free].
Qed.

Lemma strcspn_le (s reject : cstr) : (strcspn s reject <= List.length s)%nat.
Proof.
  induction s as [|c s IH]; [cbn; lia|].
  cbn [strcspn List.length]. destruct (existsb (Ascii.eqb c) reject); lia.
Qed.

Lemma chomp_length (s : cstr) : List.length (chomp s) = strcspn s CRLF.
Proof. unfold chomp. apply firstn_length_le, strcspn_le. Qed.

Lemma chomp_free (s : cstr) : free_of CR (chomp s) /\ free_of NEWLINE (chomp s).
Proof.
  unfold chomp, free_of. induction s as [|c s [IH1 IH2]]; [split; constructor|].
  cbn [strcspn]. destruct (existsb (Ascii.eqb c) CRLF) eqn:E; [split; constructor|].
  cbn [existsb CRLF] in E. apply orb_false_iff in E as [E1 E2].
  apply orb_false_iff in E2 as [E2 _].
  cbn [firstn]. split; constructor; assumption.
Qed.

Lemma chomp_at_terminator (v rest : cstr) (c : ascii) :
  free_of CR v -> free_of NEWLINE v -> existsb (Ascii.eqb c) CRLF = true ->
  chomp (v ++ c :: rest) = v.
Proof.
  unfold chomp. intros H1 H2 Hc. induction v as [|x v IH].
  - cbn [app strcspn]. now rewrite Hc.
  - inversion H1 as [|? ? Hx1 Hv1]; inversion H2 as [|? ? Hx2 Hv2]; subst.
    cbn [app strcspn existsb CRLF]. rewrite Hx1, Hx2. cbn [orb firstn].
    now rewrite (IH Hv1 Hv2).
Qed.

Lemma chomp_plain (v : cstr) : free_of CR v -> free_of NEWLINE v -> chomp v = v.
Proof.
  unfold chomp. intros H1 H2. induction v as [|x v IH]; [reflexivity|].
  inversion H1 as [|? ? Hx1 Hv1]; inversion H2 as [|? ? Hx2 Hv2]; subst.
  cbn [strcspn existsb CRLF]. rewrite Hx1, Hx2. cbn [orb firstn].
  now rewrite (IH Hv1 Hv2).
Qed.

Lemma free_of_app (c : ascii) (a b : cstr) :
  free_of c a -> free_of c b -> free_of c (a ++ b).
Proof. unfold free_of. intros Ha Hb. apply Forall_app. now split. Qed.

Lemma digits_free (ds : cstr) :
  List.Forall (fun c => isdigit c = true) ds ->
  free_of NUL ds /\ free_of NEWLINE ds /\ free_of CR ds.
Proof.
  intros H. unfold free_of. induction H as [|d ds Hd _ (I1 & I2 & I3)].
  - repeat split; constructor.
  - destruct (digit_free d Hd) as (D1 & D2 & D3). repeat split; constructor; assumption.
Qed.

(** X15. [get_gpu_utilization] returns the number on the first line of the
    node, with its sign; what follows the first line is not looked at. *)
Theorem gpu_utilization_value (ds more : list ascii) :
  Log.numeric_field ds -> digits_value ds < 2 ^ 31 -> (List.length ds < 30)%nat ->
  get_gpu_utilization (Some (ds ++ NEWLINE :: more)) = digits_value ds
  /\ get_gpu_utilization (Some ("-"%char :: ds ++ NEWLINE :: more)) = - digits_value ds.
Proof.
  intros Hf Hlt Hlen.
  destruct (digits_free ds (proj2 Hf)) as (F0 & Fn & _).
  destruct (scan_decimal_digits ds [NEWLINE] Hf eq_refl) as (Hskip & Hpos & Hneg).
  pose proof (digits_value_nonneg ds (proj2 Hf)) as Hge.
  assert (Hline : free_of NUL (ds ++ [NEWLINE]))
    by (apply free_of_app; [exact F0 | repeat constructor]).
  split.
  - unfold get_gpu_utilization, fgets.
    destruct (ds ++ NEWLINE :: more) as [|c s] eqn:E; [now destruct ds|]. rewrite <- E.
    rewrite (fgets_chars_line (32 - 1) ds more Fn) by (cbn; lia).
    rewrite (c_str_plain _ Hline). cbn [scan]. rewrite Hskip.
    destruct (ds ++ [NEWLINE]) as [|c' s'] eqn:E'; [now destruct ds|].
    rewrite <- E' in Hpos |- *.
    unfold convert. rewrite Hpos. cbn [scan_count List.length Z.of_nat].
    unfold to_long. destruct (Z.ltb_spec (2 ^ 63 - 1) (digits_value ds)); [lia|].
    cbn. apply int_of_small. lia.
  - unfold get_gpu_utilization, fgets.
    change ("-"%char :: ds ++ NEWLINE :: more) with (("-"%char :: ds) ++ NEWLINE :: more).
    rewrite (fgets_chars_line (32 - 1) ("-"%char :: ds) more) by
      (try (constructor; [reflexivity | exact Fn]); cbn; lia).
    rewrite (c_str_plain (("-"%char :: ds) ++ [NEWLINE])) by
      (constructor; [reflexivity | exact Hline]).
    cbn [scan app skip_space]. change (isspace "-") with false. cbn iota.
    unfold convert. rewrite Hneg. cbn [scan_count List.length Z.of_nat].
    unfold to_long. destruct (Z.ltb_spec (2 ^ 63) (digits_value ds)); [lia|].
    cbn. apply int_of_small. lia.
Qed.

Lemma gpu_utilization_value_witness :
  get_gpu_utilization (Some (lit "87" ++ NEWLINE :: lit "ignored")) = 87.
Proof.
  apply (proj1 (gpu_utilization_value (lit "87") (lit "ignored")
                  ltac:(split; [discriminate | repeat constructor])
                  ltac:(vm_compute; reflexivity)
                  ltac:(cbn; lia))).
Defined.

(** X16. The value [read_generic_sensor_value] leaves in the buffer fits it,
    and holds no carriage return and no line feed. *)
Theorem sensor_value_clean (file : option (list ascii)) (buffer_len : nat) (r : cstr) :
  read_generic_sensor_value file buffer_len = Some r ->
  (List.length r <= buffer_len - 1)%nat
  /\ free_of CR r /\ free_of NEWLINE r /\ free_of NUL r.
Proof.
  unfold read_generic_sensor_value. destruct file as [content|]; [|discriminate].
  destruct (fgets buffer_len content) as [[value_buffer rest]|] eqn:E; [|discriminate].
  intros Er. assert (Ec : r = chomp value_buffer) by congruence. rewrite Ec.
  destruct (fgets_length _ _ _ _ E) as [Hl Hf].
  destruct (chomp_free value_buffer) as [H1 H2].
  split; [|split; [exact H1 | split; [exact H2|]]].
  - rewrite chomp_length. pose proof (strcspn_le value_buffer CRLF). lia.
  - unfold chomp. apply Forall_take. exact Hf.
Qed.

Lemma sensor_value_clean_witness :
  (List.length (lit "42000") <= MAX_SENSOR_VALUE_LEN - 1)%nat.
Proof.
  apply (proj1 (sensor_value_clean (Some (lit "42000" ++ CRLF ++ lit "next line"))
                  MAX_SENSOR_VALUE_LEN (lit "42000")
                  ltac:(vm_compute; reflexivity))).
Defined.

(** X17. [read_generic_sensor_value] returns the first line of the file
    without its terminator, whether the line ends in a line feed, in a
    carriage return and a line feed, or with the file. *)
Theorem sensor_value_line (v more : list ascii) (buffer_len : nat) :
  free_of NUL v -> free_of CR v -> free_of NEWLINE v ->
  (List.length v + 2 < buffer_len)%nat ->
  read_generic_sensor_value (Some (v ++ NEWLINE :: more)) buffer_len = Some v
  /\ read_generic_sensor_value (Some (v ++ CR :: NEWLINE :: more)) buffer_len = Some v
  /\ (v <> [] -> read_generic_sensor_value (Some v) buffer_len = Some v).
Proof.
  intros F0 Fc Fn Hlen. unfold read_generic_sensor_value, fgets. repeat split.
  - destruct (v ++ NEWLINE :: more) as [|c s] eqn:E; [now destruct v|]. rewrite <- E.
    rewrite (fgets_chars_line (buffer_len - 1) v more Fn) by lia.
    rewrite c_str_plain by (apply free_of_app; [exact F0 | repeat constructor]).
    now rewrite (chomp_at_terminator v [] NEWLINE Fc Fn eq_refl).
  - destruct (v ++ CR :: NEWLINE :: more) as [|c s] eqn:E; [now destruct v|]. rewrite <- E.
    change (v ++ CR :: NEWLINE :: more) with (v ++ [CR] ++ NEWLINE :: more).
    rewrite app_assoc.
    rewrite (fgets_chars_line (buffer_len - 1) (v ++ [CR]) more)
      by (try (apply free_of_app; [exact Fn | repeat constructor]);
          rewrite length_app; cbn; lia).
    rewrite c_str_plain
      by (repeat apply free_of_app; try exact F0; repeat constructor).
    rewrite <- app_assoc. cbn [app].
    now rewrite (chomp_at_terminator v [NEWLINE] CR Fc Fn eq_refl).
  - intros Hne. destruct v as [|c s] eqn:E; [contradiction|]. rewrite <- E in *.
    rewrite (fgets_chars_all (buffer_len - 1) v Fn) by lia.
    now rewrite (c_str_plain v F0), (chomp_plain v Fc Fn).
Qed.

Lemma sensor_value_line_witness :
  read_generic_sensor_value (Some (lit "42000" ++ CR :: NEWLINE :: lit "next line"))
    MAX_SENSOR_VALUE_LEN
  = Some (lit "42000").
Proof.
  apply (proj1 (proj2 (sensor_value_line (lit "42000") (lit "next line")
                         MAX_SENSOR_VALUE_LEN
                         ltac:(repeat constructor) ltac:(repeat constructor)
                         ltac:(repeat constructor)
                         ltac:(unfold MAX_SENSOR_VALUE_LEN; cbn; lia)))).
Defined.

End SensorReaders.

(** ** log.c: the list of custom sensors *)

Section SensorList.

Import LogIO.

Lemma load_paths_loop_spec (lines : list cstr) (count : nat) :
  forall paths : list cstr,
    (List.length paths <= count)%nat ->
    load_paths_loop lines count paths
    = paths ++ take (count - List.length paths)
                 (List.filter (fun l => (0 <? List.length l)%nat) (map chomp lines)).
Proof.
  induction lines as [|line rest IH]; intros paths Hlen.
  - cbn. now rewrite take_nil, app_nil_r.
  - cbn [load_paths_loop map List.filter].
    destruct (Nat.ltb_spec (List.length paths) count) as [Hlt|Hge].
    + destruct (0 <? List.length (chomp line))%nat.
      * rewrite IH by (rewrite length_app; cbn; lia).
        rewrite length_app. cbn [List.length]. rewrite <- app_assoc. cbn [app].
        replace (count - List.length paths)%nat
          with (S (count - (List.length paths + 1)))%nat by lia.
        reflexivity.
      * apply IH. exact Hlen.
    + replace (count - List.length paths)%nat with 0%nat by lia.
      now rewrite take_0, app_nil_r.
Qed.

Lemma counted_lines (lines : list cstr) :
  List.length (List.filter (fun l => (0 <? strcspn l CRLF)%nat) lines)
  = List.length (List.filter (fun l => (0 <? List.length l)%nat) (map chomp lines)).
Proof.
  induction lines as [|line rest IH]; [reflexivity|].
  cbn [map List.filter]. rewrite chomp_length.
  destruct (0 <? strcspn line CRLF)%nat; cbn [List.length]; now rewrite IH.
Qed.

Lemma fgets_loop_lines (fuel size : nat) (stream : list ascii) :
  List.Forall (fun l => (List.length l <= size - 1)%nat /\ free_of NUL l)
    (fgets_loop fuel size stream).
Proof.
  revert stream. induction fuel as [|fuel IH]; intros stream; [constructor|].
  cbn [fgets_loop]. destruct (fgets size stream) as [[line rest]|] eqn:E; [|constructor].
  constructor; [exact (fgets_length _ _ _ _ E) | apply IH].
Qed.

Lemma Forall_filter_map {A B : Type} (P : A -> Prop) (Q : B -> Prop) (f : A -> B)
    (keep : B -> bool) (l : list A) :
  (forall x, P x -> keep (f x) = true -> Q (f x)) ->
  List.Forall P l -> List.Forall Q (List.filter keep (map f l)).
Proof.
  intros H Hl. induction Hl as [|x l Hx _ IH]; [constructor|].
  cbn [map List.filter]. destruct (keep (f x)) eqn:E; [|exact IH].
  constructor; [now apply H | exact IH].
Qed.

(** X18. [load_custom_sensor_paths] stores the non-empty lines of the list
    file, each cut at its first carriage return or line feed, in the
    order of the file, and at most [MAX_CUSTOM_SENSORS] of them; with no
    file it stores nothing.  Every stored path is non-empty, shorter than
    the line buffer, and free of line terminators. *)
Theorem load_paths_closed_form (list_file : option (list ascii)) :
  load_custom_sensor_paths list_file
  = take MAX_CUSTOM_SENSORS
      (List.filter (fun l => (0 <? List.length l)%nat)
         (map chomp (fgets_lines MAX_SENSOR_PATH_LEN (default [] list_file))))
  /\ (List.length (load_custom_sensor_paths list_file) <= MAX_CUSTOM_SENSORS)%nat
  /\ List.Forall
       (fun p => p <> [] /\ (List.length p < MAX_SENSOR_PATH_LEN)%nat
                 /\ free_of CR p /\ free_of NEWLINE p /\ free_of NUL p)
       (load_custom_sensor_paths list_file).
Proof.
  assert (E : load_custom_sensor_paths list_file
              = take MAX_CUSTOM_SENSORS
                  (List.filter (fun l => (0 <? List.length l)%nat)
                     (map chomp (fgets_lines MAX_SENSOR_PATH_LEN (default [] list_file))))).
  { destruct list_file as [content|]; [|reflexivity].
    unfold load_custom_sensor_paths.
    change (default [] (Some content)) with content.
    set (lines := fgets_lines MAX_SENSOR_PATH_LEN content).
    rewrite (counted_lines lines).
    set (stored := List.filter (fun l => (0 <? List.length l)%nat) (map chomp lines)).
    destruct (Nat.eqb_spec (List.length stored) 0) as [Hz|Hnz].
    - destruct stored; [reflexivity | discriminate].
    - rewrite load_paths_loop_spec
        by (cbn [List.length]; destruct (MAX_CUSTOM_SENSORS <? List.length stored)%nat; lia).
      cbn [List.length app]. rewrite Nat.sub_0_r. fold stored.
      destruct (Nat.ltb_spec MAX_CUSTOM_SENSORS (List.length stored)); [reflexivity|].
      rewrite !firstn_all2 by lia. reflexivity. }
  split; [exact E|]. rewrite E. split; [rewrite length_take; lia|].
  apply Forall_take.
  apply (Forall_filter_map
           (fun l => (List.length l <= MAX_SENSOR_PATH_LEN - 1)%nat /\ free_of NUL l)).
  2:{ apply fgets_loop_lines. }
  intros l [Hl Hf] Hkeep. apply Nat.ltb_lt in Hkeep.
  destruct (chomp_free l) as [H1 H2].
  split; [intros Hnil; rewrite Hnil in Hkeep; cbn in Hkeep; lia|].
  split.
  { rewrite chomp_length. pose proof (strcspn_le l CRLF).
    unfold MAX_SENSOR_PATH_LEN in *. lia. }
  split; [exact H1|]. split; [exact H2|].
  unfold chomp. apply Forall_take. exact Hf.
Qed.

End SensorList.

(** ** log.c and util_logger.c: the command line *)

Section LogCommandLine.

Import LogIO.

Lemma parse_args_inv (n : nat) :
  forall (args : list cstr) (o o' : options),
    (List.length args <= n)%nat -> parse_args args o = Run o' ->
    ((run_duration_seconds o = -1 \/ 0 < run_duration_seconds o <= 2 ^ 63 - 1) ->
     (run_duration_seconds o' = -1 \/ 0 < run_duration_seconds o' <= 2 ^ 63 - 1))
    /\ (quiet_mode o' = true ->
        quiet_mode o = true \/ Exists (fun a => is_option a "-q" "--quiet" = true) args)
    /\ (forall f, csv_output_filename o' = Some f ->
                  csv_output_filename o = Some f \/ In f args)
    /\ (forall f, sensor_list_filename o' = Some f ->
                  sensor_list_filename o = Some f \/ In f args).
Proof.
  induction n as [|n IH]; intros args o o' Hlen.
  { destruct args; [|cbn in Hlen; lia]. cbn. intros [= <-]. tauto. }
  destruct args as [|arg rest]; [cbn; intros [= <-]; tauto|].
  cbn [List.length] in Hlen. cbn [parse_args].
  destruct (is_option arg "-o" "--out").
  { destruct rest as [|v rest']; [discriminate|]. cbn [List.length] in Hlen.
    intros E. apply IH in E; [|lia]. cbn in E. destruct E as (E1 & E2 & E3 & E4).
    split; [exact E1|]. split.
    - intros Hq. destruct (E2 Hq) as [?|?]; [now left|]. right. now do 2 constructor 2.
    - split; intros f Hf.
      + destruct (E3 f Hf) as [[= <-]|?]; right; cbn; tauto.
      + destruct (E4 f Hf) as [?|?]; [now left|]. right; cbn; tauto. }
  destruct (is_option arg "-d" "--duration").
  { destruct rest as [|v rest']; [discriminate|]. cbn [List.length] in Hlen.
    destruct (strtol v) as [[s [|c r]]|] eqn:Es; try discriminate.
    destruct (Z.leb_spec s 0) as [|Hs]; [discriminate|].
    pose proof (strtol_range v s [] Es) as Hr.
    intros E. apply IH in E; [|lia]. cbn in E. destruct E as (E1 & E2 & E3 & E4).
    split; [intros _; apply E1; right; lia|]. split.
    - intros Hq. destruct (E2 Hq) as [?|?]; [now left|]. right. now do 2 constructor 2.
    - split; intros f Hf.
      + destruct (E3 f Hf) as [?|?]; [now left|]. right; cbn; tauto.
      + destruct (E4 f Hf) as [?|?]; [now left|]. right; cbn; tauto. }
  destruct (is_option arg "-s" "--sensors").
  { destruct rest as [|v rest']; [discriminate|]. cbn [List.length] in Hlen.
    intros E. apply IH in E; [|lia]. cbn in E. destruct E as (E1 & E2 & E3 & E4).
    split; [exact E1|]. split.
    - intros Hq. destruct (E2 Hq) as [?|?]; [now left|]. right. now do 2 constructor 2.
    - split; intros f Hf.
      + destruct (E3 f Hf) as [?|?]; [now left|]. right; cbn; tauto.
      + destruct (E4 f Hf) as [[= <-]|?]; right; cbn; tauto. }
  destruct (is_option arg "-q" "--quiet") eqn:Eq.
  { intros E. apply IH in E; [|lia]. cbn in E. destruct E as (E1 & E2 & E3 & E4).
    split; [exact E1|]. split.
    - intros Hq. right. destruct (E2 Hq) as [?|?]; [now constructor 1 | now constructor 2].
    - split; intros f Hf.
      + destruct (E3 f Hf) as [?|?]; [now left|]. right; cbn; tauto.
      + destruct (E4 f Hf) as [?|?]; [now left|]. right; cbn; tauto. }
  destruct (is_option arg "-h" "--help"); discriminate.
Qed.

(** X19. The options [main] of log.c runs with: the duration is either left
    unlimited (-1) or a positive number that fits a [long]; quiet mode is
    on only if a [-q] or [--quiet] argument was given; and the two file
    names are arguments of the command line. *)
Theorem log_options_valid (argv : list cstr) (o : options) :
  main_options argv = Run o ->
  (run_duration_seconds o = -1 \/ 0 < run_duration_seconds o <= 2 ^ 63 - 1)
  /\ (quiet_mode o = true ->
      Exists (fun a => is_option a "-q" "--quiet" = true) (tl argv))
  /\ (forall f, csv_output_filename o = Some f -> In f (tl argv))
  /\ (forall f, sensor_list_filename o = Some f -> In f (tl argv)).
Proof.
  unfold main_options. intros E.
  destruct (parse_args_inv (List.length (tl argv)) (tl argv) initial_options o
              (le_n _) E) as (E1 & E2 & E3 & E4).
  split; [apply E1; now left|]. split.
  - intros Hq. destruct (E2 Hq) as [Hi|?]; [discriminate Hi | assumption].
  - split; intros f Hf.
    + destruct (E3 f Hf) as [Hi|?]; [discriminate Hi | assumption].
    + destruct (E4 f Hf) as [Hi|?]; [discriminate Hi | assumption].
Qed.

Lemma log_options_valid_witness :
  run_duration_seconds (mk_options (Some (lit "out.csv")) None 60 true) = -1
  \/ 0 < run_duration_seconds (mk_options (Some (lit "out.csv")) None 60 true)
     <= 2 ^ 63 - 1.
Proof.
  apply (proj1 (log_options_valid
                  [lit "./log"; lit "-q"; lit "-d"; lit "60"; lit "--out"; lit "out.csv"]
                  (mk_options (Some (lit "out.csv")) None 60 true)
                  ltac:(vm_compute; reflexivity))).
Defined.

(** X20. The duration argument of log.c: a positive decimal number is taken
    as it is written; a number followed by anything else, and zero, end
    the program with status 1. *)
Theorem duration_argument (ds : cstr) (rest : list cstr) (o : options) :
  Log.numeric_field ds -> digits_value ds < 2 ^ 63 ->
  (0 < digits_value ds ->
   parse_args (lit "-d" :: ds :: rest) o
   = parse_args rest (mk_options (csv_output_filename o) (sensor_list_filename o)
                                 (digits_value ds) (quiet_mode o)))
  /\ (digits_value ds = 0 -> parse_args (lit "-d" :: ds :: rest) o = Exit 1)
  /\ (forall (c : ascii) (junk : cstr),
        isdigit c = false -> parse_args (lit "-d" :: (ds ++ c :: junk) :: rest) o = Exit 1)
  /\ parse_args (lit "-d" :: ("-"%char :: ds) :: rest) o = Exit 1.
Proof.
  intros Hf Hlt.
  pose proof (strtol_digits ds [] Hf I Hlt) as Hs. rewrite app_nil_r in Hs.
  pose proof (digits_value_nonneg ds (proj2 Hf)) as Hge.
  repeat split.
  - intros Hpos. cbn [parse_args].
    change (is_option (lit "-d") "-o" "--out") with false.
    change (is_option (lit "-d") "-d" "--duration") with true. cbn iota.
    rewrite Hs. destruct (Z.leb_spec (digits_value ds) 0); [lia | reflexivity].
  - intros Hz. cbn [parse_args].
    change (is_option (lit "-d") "-o" "--out") with false.
    change (is_option (lit "-d") "-d" "--duration") with true. cbn iota.
    rewrite Hs. destruct (Z.leb_spec (digits_value ds) 0); [reflexivity | lia].
  - intros c junk Hc. cbn [parse_args].
    change (is_option (lit "-d") "-o" "--out") with false.
    change (is_option (lit "-d") "-d" "--duration") with true. cbn iota.
    now rewrite (strtol_digits ds (c :: junk) Hf Hc Hlt).
  - cbn [parse_args].
    change (is_option (lit "-d") "-o" "--out") with false.
    change (is_option (lit "-d") "-d" "--duration") with true. cbn iota.
    unfold strtol. cbn [skip_space]. change (isspace "-") with false. cbn iota.
    destruct (scan_decimal_digits ds [] Hf I) as (_ & _ & Hn).
    rewrite app_nil_r in Hn. rewrite Hn.
    unfold to_long. destruct (Z.ltb_spec (2 ^ 63) (digits_value ds)).
    + reflexivity.
    + destruct (Z.leb_spec (- digits_value ds) 0); [reflexivity | lia].
Qed.

Lemma duration_argument_witness :
  parse_args [lit "-d"; lit "90"] initial_options = Run (mk_options None None 90 false)
  /\ parse_args [lit "-d"; lit "90s"] initial_options = Exit 1.
Proof.
  pose proof (duration_argument (lit "90") [] initial_options
                ltac:(split; [discriminate | repeat constructor])
                ltac:(vm_compute; reflexivity)) as (Hok & _ & Hjunk & _).
  split.
  - apply Hok. vm_compute. reflexivity.
  - apply (Hjunk "s"%char []). reflexivity.
Defined.

End LogCommandLine.

Section UtilCommandLine.

Import UtilArgs.

Lemma util_parse_args_inv (n : nat) :
  forall (args : list cstr) (o o' : options),
    (List.length args <= n)%nat -> parse_args args o = Some o' ->
    (1 <= interval_sec o < 2 ^ 31 -> 1 <= interval_sec o' < 2 ^ 31)
    /\ ((samples o = -1 \/ 0 <= samples o <= 2 ^ 63 - 1) ->
        (samples o' = -1 \/ 0 <= samples o' <= 2 ^ 63 - 1))
    /\ (out_path o' = out_path o \/ In (out_path o') args)
    /\ Nat.even (List.length args) = true.
Proof.
  induction n as [|n IH]; intros args o o' Hlen.
  { destruct args; [|cbn in Hlen; lia]. cbn. intros [= <-]. tauto. }
  destruct args as [|arg [|v rest']]; [cbn; intros [= <-]; tauto | discriminate |].
  cbn [List.length] in Hlen. cbn [parse_args].
  change (Nat.even (List.length (arg :: v :: rest'))) with (Nat.even (List.length rest')).
  destruct (strcmp_eq0 arg (lit "-i")).
  { intros E. apply IH in E; [|lia]. cbn in E. destruct E as (E1 & E2 & E3 & E4).
    split; [|split; [exact E2 | split; [|exact E4]]].
    - intros _. apply E1. pose proof (int_of_range 0).
      destruct (Z.leb_spec (atoi v) 0); [lia|].
      unfold atoi in *. destruct (scan_decimal (skip_space v)) as [[[neg m] r]|]; [|lia].
      pose proof (int_of_range (to_long neg m)). lia.
    - destruct E3 as [->|?]; [now left | right; cbn; tauto]. }
  destruct (strcmp_eq0 arg (lit "-n")).
  { intros E. apply IH in E; [|lia]. cbn in E. destruct E as (E1 & E2 & E3 & E4).
    split; [exact E1|]. split; [|split; [|exact E4]].
    - intros _. apply E2.
      destruct (strtol v) as [[s r]|] eqn:Es.
      + pose proof (strtol_range v s r Es). destruct (Z.ltb_spec s 0); [now left | right; lia].
      + right. cbn. lia.
    - destruct E3 as [->|?]; [now left | right; cbn; tauto]. }
  destruct (strcmp_eq0 arg (lit "-o")); [|discriminate].
  intros E. apply IH in E; [|lia]. cbn in E. destruct E as (E1 & E2 & E3 & E4).
  split; [exact E1|]. split; [exact E2|]. split; [|exact E4].
  right. destruct E3 as [->|?]; cbn; tauto.
Qed.

(** X21. The options [main] of util_logger.c runs with: the interval is at
    least one second, the number of samples is -1 (no limit) or not
    negative, the output path is the default or an argument; and the
    command line is accepted only if every option has its value, so that
    the arguments come in pairs. *)
Theorem util_options_valid (argv : list cstr) (o : options) :
  main_options argv = Some o ->
  1 <= interval_sec o < 2 ^ 31
  /\ (samples o = -1 \/ 0 <= samples o <= 2 ^ 63 - 1)
  /\ (out_path o = lit "util_log.csv" \/ In (out_path o) (tl argv))
  /\ Nat.even (List.length (tl argv)) = true.
Proof.
  unfold main_options. intros E.
  destruct (util_parse_args_inv (List.length (tl argv)) (tl argv) initial_options o
              (le_n _) E) as (E1 & E2 & E3 & E4).
  split; [apply E1; cbn; lia|]. split; [apply E2; now left|]. split; assumption.
Qed.

Lemma util_options_valid_witness :
  1 <= interval_sec (mk_options 1 0 (lit "x.csv")) < 2 ^ 31.
Proof.
  apply (proj1 (util_options_valid
                  [lit "./util_logger"; lit "-i"; lit "-5"; lit "-n"; lit "abc";
                   lit "-o"; lit "x.csv"]
                  (mk_options 1 0 (lit "x.csv"))
                  ltac:(vm_compute; reflexivity))).
Defined.

End UtilCommandLine.

(** ** log.c: the sampling loop *)

Section SamplingLoop.

Import Log LogRun.

Lemma get_cpu_core_times_length (ps : option (list ascii)) (n : Z) (curr : list CpuTime) :
  get_cpu_core_times ps = (n, Some curr) ->
  n = Z.of_nat (List.length curr) /\ 0 < n.
Proof.
  destruct ps as [content|]; [|cbn; discriminate].
  rewrite get_cpu_core_times_spec.
  destruct (List.filter is_core_line (fgets_lines 512 content)) as [|l ls]; [discriminate|].
  intros E. assert (En : n = Z.of_nat (List.length (l :: ls))) by congruence.
  assert (Ec : curr = map (parse_core_line CpuTime_zero) (l :: ls)) by congruence.
  rewrite Ec, length_map, En. cbn [List.length]. lia.
Qed.

Lemma start_state (initial_stat : option (list ascii)) (st : loop_state) :
  start initial_stat = Some st ->
  List.length (prev_core_stats st) = prev_num_cpu_cores st
  /\ (0 < prev_num_cpu_cores st)%nat
  /\ csv_seconds_counter st = 0
  /\ csv_lines_since_last_flush st = 0.
Proof.
  unfold start. destruct (get_cpu_core_times initial_stat) as [n [prev|]] eqn:E; [|discriminate].
  destruct (get_cpu_core_times_length _ _ _ E) as [-> Hpos].
  destruct (Z.leb_spec (Z.of_nat (List.length prev)) 0); [lia|].
  intros [= <-]. cbn. rewrite Nat2Z.id. repeat split; lia.
Qed.

(** A pass either finds no usable sample and changes nothing, or goes
    through the display, the CSV block and the end of the pass. *)
Lemma step_cases (cfg : setup) (st : loop_state) (t : tick) :
  (snd (get_cpu_core_times (proc_stat t)) = None /\ step cfg st t = Continue st [])
  \/ exists curr : list CpuTime,
       snd (get_cpu_core_times (proc_stat t)) = Some curr
       /\ (0 < List.length curr)%nat
       /\ step cfg st t
          = match (if quiet_mode cfg then Some []
                   else console_cores st curr (List.length curr)),
                  csv_row cfg st curr (List.length curr)
                    (if gpu_monitoring_available cfg
                     then LogIO.get_gpu_utilization (gpu_node t) else -1)
                    (map (fun path => LogIO.sensor_cell (sensor_file t path))
                         (custom_sensor_paths cfg)) with
            | Some _, Some written => finish_pass cfg st curr (List.length curr) written
            | _, _ => Fault
            end.
Proof.
  unfold step.
  destruct (get_cpu_core_times (proc_stat t)) as [n [curr|]] eqn:E; [|left; auto].
  right. exists curr. destruct (get_cpu_core_times_length _ _ _ E) as [-> Hpos].
  cbn [snd]. split; [reflexivity|]. split; [lia|].
  destruct (Z.leb_spec (Z.of_nat (List.length curr)) 0); [lia|].
  rewrite Nat2Z.id. reflexivity.
Qed.

Lemma core_cell_fault (prev curr : list CpuTime) (bound i : nat) :
  (i < bound -> i < List.length curr)%nat ->
  core_cell prev curr bound i = None <-> (i < bound /\ List.length prev <= i)%nat.
Proof.
  intros Hc. unfold core_cell. destruct (Nat.ltb_spec i bound) as [Hlt|Hge].
  2:{ split; [discriminate | lia]. }
  destruct (prev !! i) as [p|] eqn:Ep.
  - apply lookup_lt_Some in Ep.
    destruct (curr !! i) as [c|] eqn:Ec.
    + split; [|lia]. destruct (successfully_parsed p =? 0); [discriminate|].
      destruct (successfully_parsed c =? 0); discriminate.
    + apply lookup_ge_None in Ec. specialize (Hc Hlt). lia.
  - apply lookup_ge_None in Ep. split; [lia | reflexivity].
Qed.

Lemma cores_fault (prev curr : list CpuTime) (bound n : nat) :
  (forall i, i < n -> i < bound -> i < List.length curr)%nat ->
  mapM (core_cell prev curr bound) (seq 0 n) = None
  <-> (List.length prev < Nat.min bound n)%nat.
Proof.
  intros Hc. rewrite mapM_None, List.Exists_exists. split.
  - intros (i & Hin & Hf). apply in_seq in Hin.
    apply core_cell_fault in Hf; [lia|]. intros; apply Hc; lia.
  - intros H. exists (List.length prev). split; [apply in_seq; lia|].
    apply core_cell_fault; [intros; apply Hc; lia | lia].
Qed.

Lemma console_cores_fault (st : loop_state) (curr : list CpuTime) :
  console_cores st curr (List.length curr) = None
  <-> (List.length (prev_core_stats st)
       < Nat.min (prev_num_cpu_cores st) (List.length curr))%nat.
Proof. unfold console_cores. apply cores_fault. intros; lia. Qed.

Lemma csv_cores_fault (st : loop_state) (curr : list CpuTime) :
  csv_cores st curr (List.length curr) = None
  <-> (List.length (prev_core_stats st)
       < Nat.min (prev_num_cpu_cores st) (List.length curr))%nat.
Proof.
  unfold csv_cores. rewrite cores_fault by (intros; lia). lia.
Qed.

Lemma finish_pass_no_fault (cfg : setup) (st : loop_state) (curr : list CpuTime)
    (num : nat) (written : list event) :
  finish_pass cfg st curr num written <> Fault.
Proof.
  unfold finish_pass.
  destruct ((0 <? run_duration_seconds cfg)
            && (run_duration_seconds cfg <=? long_of (add64 (csv_seconds_counter st) 1)));
    discriminate.
Qed.

(** A pass reads outside the previous sample exactly when that sample
    has fewer entries than both the core count the loop goes by and the
    current sample; the display is concerned unless quiet mode is on, the
    CSV block when a file is open. *)
Lemma step_fault_iff (cfg : setup) (st : loop_state) (t : tick) :
  step cfg st t = Fault
  <-> exists curr : list CpuTime,
        snd (get_cpu_core_times (proc_stat t)) = Some curr
        /\ (quiet_mode cfg = false \/ csv_file cfg = true)
        /\ (List.length (prev_core_stats st)
            < Nat.min (prev_num_cpu_cores st) (List.length curr))%nat.
Proof.
  destruct (step_cases cfg st t) as [[Hn ->] | (curr & Hc & _ & ->)].
  { split; [discriminate|]. intros (curr & Hc & _). congruence. }
  pose proof (console_cores_fault st curr) as Hcon.
  pose proof (csv_cores_fault st curr) as Hcsv.
  unfold csv_row.
  split.
  - intros Hf. exists curr. split; [exact Hc|].
    destruct (quiet_mode cfg).
    + destruct (csv_file cfg).
      * destruct (csv_cores st curr (List.length curr)).
        -- now apply finish_pass_no_fault in Hf.
        -- split; [now right | now apply Hcsv].
      * now apply finish_pass_no_fault in Hf.
    + destruct (console_cores st curr (List.length curr)).
      * destruct (csv_file cfg).
        -- destruct (csv_cores st curr (List.length curr)).
           ++ now apply finish_pass_no_fault in Hf.
           ++ split; [now right | now apply Hcsv].
        -- now apply finish_pass_no_fault in Hf.
      * split; [now left | now apply Hcon].
  - intros (curr' & Hc' & Hmode & Hlt).
    assert (curr' = curr) by congruence. subst curr'.
    apply Hcon in Hlt as Hcon'. apply Hcsv in Hlt as Hcsv'.
    destruct (quiet_mode cfg).
    + destruct Hmode as [Hq|Hf]; [discriminate|]. rewrite Hf, Hcsv'. reflexivity.
    + rewrite Hcon'. reflexivity.
Qed.

(** What a pass that does not fault leaves behind. *)
Lemma step_state (cfg : setup) (st st' : loop_state) (t : tick) (out : list event) :
  step cfg st t = Continue st' out \/ step cfg st t = Stop st' out ->
  (st' = st /\ out = [] /\ snd (get_cpu_core_times (proc_stat t)) = None)
  \/ exists (curr : list CpuTime) (written : list event),
       snd (get_cpu_core_times (proc_stat t)) = Some curr
       /\ csv_row cfg st curr (List.length curr)
            (if gpu_monitoring_available cfg
             then LogIO.get_gpu_utilization (gpu_node t) else -1)
            (map (fun path => LogIO.sensor_cell (sensor_file t path))
                 (custom_sensor_paths cfg)) = Some written
       /\ (finish_pass cfg st curr (List.length curr) written = Continue st' out
           \/ finish_pass cfg st curr (List.length curr) written = Stop st' out)
       /\ step cfg st t = finish_pass cfg st curr (List.length curr) written.
Proof.
  destruct (step_cases cfg st t) as [[Hn ->] | (curr & Hc & _ & ->)].
  - intros [[= <- <-] | [=]]. left. auto.
  - intros H. right. exists curr.
    destruct (if quiet_mode cfg then Some [] else console_cores st curr (List.length curr));
      [|destruct H; discriminate].
    destruct (csv_row cfg st curr (List.length curr) _ _) as [written|];
      [|destruct H; discriminate].
    exists written. auto.
Qed.

Lemma finish_pass_state (cfg : setup) (st st' : loop_state) (curr : list CpuTime)
    (num : nat) (written out : list event) :
  finish_pass cfg st curr num written = Continue st' out
  \/ finish_pass cfg st curr num written = Stop st' out ->
  prev_core_stats st' = curr
  /\ prev_num_cpu_cores st' = (if quiet_mode cfg then prev_num_cpu_cores st else num)
  /\ csv_seconds_counter st' = add64 (csv_seconds_counter st) 1.
Proof.
  unfold finish_pass.
  destruct ((0 <? run_duration_seconds cfg)
            && (run_duration_seconds cfg <=? long_of (add64 (csv_seconds_counter st) 1)));
    intros [H|H]; try discriminate H; injection H as <- _; cbn; auto.
Qed.

(** X22. Without quiet mode the loop reads inside its arrays whatever
    [/proc/stat] holds from one pass to the next: the core count it goes
    by is the size of the previous sample, at the start and after every
    pass. *)
Theorem console_mode_in_bounds (cfg : setup) (initial_stat : option (list ascii))
    (st : loop_state) (ticks : list tick) :
  quiet_mode cfg = false ->
  start initial_stat = Some st ->
  exists (out : list event) (st' : loop_state),
    main_loop cfg st ticks = Some (out, st')
    /\ List.length (prev_core_stats st') = prev_num_cpu_cores st'.
Proof.
  intros Hq Hs. destruct (start_state _ _ Hs) as (Hinv & _). clear Hs.
  revert st Hinv. induction ticks as [|t rest IH]; intros st Hinv.
  { exists [], st. auto. }
  cbn [main_loop]. destruct (step cfg st t) as [|st1 out1|st1 out1] eqn:E.
  - apply step_fault_iff in E as (curr & _ & _ & Hlt). lia.
  - assert (Hinv1 : List.length (prev_core_stats st1) = prev_num_cpu_cores st1).
    { destruct (step_state cfg st st1 t out1 (or_introl E))
        as [(-> & _) | (curr & written & _ & _ & Hf & _)]; [exact Hinv|].
      destruct (finish_pass_state _ _ _ _ _ _ _ Hf) as (-> & -> & _).
      now rewrite Hq. }
    destruct (IH st1 Hinv1) as (outs & st' & -> & Hinv'). eauto.
  - exists out1, st1. split; [reflexivity|].
    destruct (step_state cfg st st1 t out1 (or_intror E))
      as [(-> & _) | (curr & written & _ & _ & Hf & _)]; [exact Hinv|].
    destruct (finish_pass_state _ _ _ _ _ _ _ Hf) as (-> & -> & _).
    now rewrite Hq.
Qed.

Lemma console_mode_in_bounds_witness :
  exists (out : list event) (st' : loop_state),
    main_loop (mk_setup false true false [] (-1))
      (mk_state (map (parse_core_line CpuTime_zero)
                     (List.filter is_core_line (fgets_lines 512 (stat_with_cores 4))))
                4 0 0)
      [stat_tick (stat_with_cores 2); stat_tick (stat_with_cores 4)]
    = Some (out, st')
    /\ List.length (prev_core_stats st') = prev_num_cpu_cores st'.
Proof.
  apply (console_mode_in_bounds (mk_setup false true false [] (-1))
           (Some (stat_with_cores 4))).
  - reflexivity.
  - vm_compute. reflexivity.
Defined.

(** X23. In quiet mode the core count the loop goes by stays the one found at
    the start, while the previous sample is replaced on every pass.  The
    loop still reads inside its arrays as long as no sample has fewer
    cores than were found at the start. *)
Theorem quiet_mode_in_bounds_unless_cores_drop (cfg : setup) (st : loop_state)
    (ticks : list tick) :
  quiet_mode cfg = true ->
  (prev_num_cpu_cores st <= List.length (prev_core_stats st))%nat ->
  List.Forall
    (fun t => forall curr, snd (get_cpu_core_times (proc_stat t)) = Some curr ->
                           (prev_num_cpu_cores st <= List.length curr)%nat)
    ticks ->
  exists (out : list event) (st' : loop_state),
    main_loop cfg st ticks = Some (out, st')
    /\ prev_num_cpu_cores st' = prev_num_cpu_cores st
    /\ (prev_num_cpu_cores st' <= List.length (prev_core_stats st'))%nat.
Proof.
  intros Hq Hinv Hticks. revert st Hinv Hticks.
  induction ticks as [|t rest IH]; intros st Hinv Hticks.
  { exists [], st. auto. }
  inversion Hticks as [|? ? Ht Hrest]; subst.
  assert (Hst : forall st1 out1,
             step cfg st t = Continue st1 out1 \/ step cfg st t = Stop st1 out1 ->
             prev_num_cpu_cores st1 = prev_num_cpu_cores st
             /\ (prev_num_cpu_cores st1 <= List.length (prev_core_stats st1))%nat).
  { intros st1 out1 E.
    destruct (step_state cfg st st1 t out1 E)
      as [(-> & _) | (curr & written & Hc & _ & Hf & _)]; [auto|].
    destruct (finish_pass_state _ _ _ _ _ _ _ Hf) as (-> & -> & _).
    rewrite Hq. split; [reflexivity | exact (Ht curr Hc)]. }
  cbn [main_loop]. destruct (step cfg st t) as [|st1 out1|st1 out1] eqn:E.
  - apply step_fault_iff in E as (curr & _ & _ & Hlt). lia.
  - destruct (Hst st1 out1 (or_introl eq_refl)) as [E1 E2].
    destruct (IH st1 E2) as (outs & st' & -> & E3 & E4).
    { rewrite E1. exact Hrest. }
    exists (out1 ++ outs), st'. rewrite E3 in *. auto.
  - destruct (Hst st1 out1 (or_intror eq_refl)) as [E1 E2].
    exists out1, st1. auto.
Qed.

Lemma quiet_mode_in_bounds_unless_cores_drop_witness :
  exists (out : list event) (st' : loop_state),
    main_loop (mk_setup true true false [] (-1))
      (mk_state (map (parse_core_line CpuTime_zero)
                     (List.filter is_core_line (fgets_lines 512 (stat_with_cores 2))))
                2 0 0)
      [stat_tick (stat_with_cores 4); stat_tick (stat_with_cores 2)]
    = Some (out, st')
    /\ prev_num_cpu_cores st' = 2%nat
    /\ (prev_num_cpu_cores st' <= List.length (prev_core_stats st'))%nat.
Proof.
  apply (quiet_mode_in_bounds_unless_cores_drop (mk_setup true true false [] (-1))).
  - reflexivity.
  - vm_compute. lia.
  - repeat constructor; intros curr E; vm_compute in E; injection E as <-;
      vm_compute; lia.
Defined.

(** X24. In quiet mode with a CSV file, a sample with fewer cores than at the
    start followed by a sample with more cores than that one makes the
    loop read outside the previous sample: the row is built for the core
    count of the start, over an array that has the size of the smaller
    sample. *)
Theorem quiet_mode_reads_out_of_bounds (cfg : setup) (initial_stat : option (list ascii))
    (st : loop_state) (t1 t2 : tick) (rest : list tick) (curr1 curr2 : list CpuTime) :
  quiet_mode cfg = true -> csv_file cfg = true ->
  run_duration_seconds cfg <> 1 ->
  start initial_stat = Some st ->
  snd (get_cpu_core_times (proc_stat t1)) = Some curr1 ->
  snd (get_cpu_core_times (proc_stat t2)) = Some curr2 ->
  (List.length curr1 < prev_num_cpu_cores st)%nat ->
  (List.length curr1 < List.length curr2)%nat ->
  main_loop cfg st (t1 :: t2 :: rest) = None.
Proof.
  intros Hq Hcsv Hd Hs H1 H2 Hdrop Hgrow.
  destruct (start_state _ _ Hs) as (Hinv & _ & Hcount & _).
  cbn [main_loop]. destruct (step cfg st t1) as [|st1 out1|st1 out1] eqn:E; [reflexivity| |].
  - destruct (step_state cfg st st1 t1 out1 (or_introl E))
      as [(_ & _ & Hn) | (curr & written & Hc & _ & Hf & _)]; [congruence|].
    assert (curr = curr1) by congruence. subst curr.
    destruct (finish_pass_state _ _ _ _ _ _ _ Hf) as (Ep & En & _).
    rewrite Hq in En.
    assert (F : step cfg st1 t2 = Fault).
    { apply step_fault_iff. exists curr2. split; [exact H2|]. split; [now right|].
      rewrite Ep, En. lia. }
    now rewrite F.
  - exfalso.
    destruct (step_state cfg st st1 t1 out1 (or_intror E))
      as [(_ & _ & Hn) | (curr & written & Hc & _ & _ & Hf)]; [congruence|].
    rewrite Hf in E. unfold finish_pass in E. rewrite Hcount in E.
    change (long_of (add64 0 1)) with 1 in E.
    destruct (Z.ltb_spec 0 (run_duration_seconds cfg));
      destruct (Z.leb_spec (run_duration_seconds cfg) 1);
      cbn [andb] in E; try discriminate E; lia.
Qed.

Lemma quiet_mode_reads_out_of_bounds_witness :
  main_loop (mk_setup true true false [] (-1))
    (mk_state (map (parse_core_line CpuTime_zero)
                   (List.filter is_core_line (fgets_lines 512 (stat_with_cores 4))))
              4 0 0)
    [stat_tick (stat_with_cores 2); stat_tick (stat_with_cores 4)]
  = None.
Proof.
  apply (quiet_mode_reads_out_of_bounds (mk_setup true true false [] (-1))
           (Some (stat_with_cores 4)) _ _ _ []
           (map (parse_core_line CpuTime_zero)
                (List.filter is_core_line (fgets_lines 512 (stat_with_cores 2))))
           (map (parse_core_line CpuTime_zero)
                (List.filter is_core_line (fgets_lines 512 (stat_with_cores 4))))).
  - reflexivity.
  - reflexivity.
  - discriminate.
  - vm_compute. reflexivity.
  - vm_compute. reflexivity.
  - vm_compute. reflexivity.
  - vm_compute. lia.
  - vm_compute. lia.
Defined.

End SamplingLoop.

(** ** log.c: what the sampling loop writes *)

Section SamplingOutput.

Import Log LogRun.

Lemma finish_pass_flush (cfg : setup) (st st' : loop_state) (curr : list CpuTime)
    (num : nat) (written out : list event) :
  finish_pass cfg st curr num written = Continue st' out
  \/ finish_pass cfg st curr num written = Stop st' out ->
  (csv_file cfg = false /\ out = written
   /\ csv_lines_since_last_flush st' = csv_lines_since_last_flush st)
  \/ (csv_file cfg = true
      /\ 10 <= (csv_lines_since_last_flush st + 1) mod U32_MOD
      /\ out = written ++ [Flush] /\ csv_lines_since_last_flush st' = 0)
  \/ (csv_file cfg = true
      /\ (csv_lines_since_last_flush st + 1) mod U32_MOD < 10
      /\ out = written
      /\ csv_lines_since_last_flush st' = (csv_lines_since_last_flush st + 1) mod U32_MOD).
Proof.
  unfold finish_pass, CSV_FLUSH_INTERVAL.
  destruct (csv_file cfg); cbn [andb];
    [destruct (Z.leb_spec 10 ((csv_lines_since_last_flush st + 1) mod U32_MOD))|];
    destruct ((0 <? run_duration_seconds cfg)
              && (run_duration_seconds cfg <=? long_of (add64 (csv_seconds_counter st) 1)));
    intros [E|E]; try discriminate E; injection E as <- <-; cbn; auto 10.
Qed.

(** The state and the output of a pass that does not fault. *)
Lemma step_output (cfg : setup) (st st' : loop_state) (t : tick) (out : list event) :
  step cfg st t = Continue st' out \/ step cfg st t = Stop st' out ->
  (st' = st /\ out = [])
  \/ (prev_num_cpu_cores st'
      = (if quiet_mode cfg then prev_num_cpu_cores st
         else List.length (prev_core_stats st'))
      /\ csv_seconds_counter st' = add64 (csv_seconds_counter st) 1
      /\ ((csv_file cfg = false /\ out = []
           /\ csv_lines_since_last_flush st' = csv_lines_since_last_flush st)
          \/ (csv_file cfg = true
              /\ exists cells : list cell,
                   List.length cells
                   = (prev_num_cpu_cores st
                      + (if gpu_monitoring_available cfg then 1 else 0)
                      + List.length (custom_sensor_paths cfg))%nat
                   /\ ((10 <= (csv_lines_since_last_flush st + 1) mod U32_MOD
                        /\ out = [Row (csv_seconds_counter st) cells; Flush]
                        /\ csv_lines_since_last_flush st' = 0)
                       \/ ((csv_lines_since_last_flush st + 1) mod U32_MOD < 10
                           /\ out = [Row (csv_seconds_counter st) cells]
                           /\ csv_lines_since_last_flush st'
                              = (csv_lines_since_last_flush st + 1) mod U32_MOD))))).
Proof.
  intros H.
  destruct (step_state cfg st st' t out H)
    as [(-> & -> & _) | (curr & written & _ & Hw & Hf & _)]; [now left|].
  right. destruct (finish_pass_state _ _ _ _ _ _ _ Hf) as (Ep & En & Ec).
  split; [now rewrite En, Ep|]. split; [exact Ec|].
  unfold csv_row in Hw.
  destruct (finish_pass_flush _ _ _ _ _ _ _ Hf)
    as [(Hcsv & -> & El) | [(Hcsv & Hl & -> & El) | (Hcsv & Hl & -> & El)]];
    rewrite Hcsv in Hw.
  - left. injection Hw as Hw; subst written. auto.
  - right. split; [exact Hcsv|].
    destruct (csv_cores st curr (List.length curr)) as [cores|] eqn:Ecores; [|discriminate].
    injection Hw as Hw; subst written. eexists.
    split; [|left; split; [exact Hl | split; [reflexivity | exact El]]].
    apply length_mapM in Ecores. rewrite length_seq in Ecores.
    rewrite !length_app, !length_map, <- Ecores. unfold gpu_cells.
    destruct (gpu_monitoring_available cfg); cbn [List.length]; lia.
  - right. split; [exact Hcsv|].
    destruct (csv_cores st curr (List.length curr)) as [cores|] eqn:Ecores; [|discriminate].
    injection Hw as Hw; subst written. eexists.
    split; [|right; split; [exact Hl | split; [reflexivity | exact El]]].
    apply length_mapM in Ecores. rewrite length_seq in Ecores.
    rewrite !length_app, !length_map, <- Ecores. unfold gpu_cells.
    destruct (gpu_monitoring_available cfg); cbn [List.length]; lia.
Qed.




Lemma loop_timestamps (cfg : setup) :
  csv_file cfg = true ->
  forall (ticks : list tick) (st st' : loop_state) (out : list event),
    0 <= csv_seconds_counter st ->
    csv_seconds_counter st + Z.of_nat (List.length ticks) < U64_MOD ->
    main_loop cfg st ticks = Some (out, st') ->
    timestamps out = seqZ (csv_seconds_counter st)
                          (csv_seconds_counter st' - csv_seconds_counter st)
    /\ csv_seconds_counter st <= csv_seconds_counter st'
       <= csv_seconds_counter st + Z.of_nat (List.length ticks).
Proof.
  intros Hcsv.
  assert (Hstep : forall st st1 t out1,
             0 <= csv_seconds_counter st -> csv_seconds_counter st + 1 < U64_MOD ->
             step cfg st t = Continue st1 out1 \/ step cfg st t = Stop st1 out1 ->
             (timestamps out1 = [] /\ csv_seconds_counter st1 = csv_seconds_counter st)
             \/ (timestamps out1 = [csv_seconds_counter st]
                 /\ csv_seconds_counter st1 = csv_seconds_counter st + 1)).
  { intros st st1 t out1 H0 H1 H.
    destruct (step_output cfg st st1 t out1 H) as [(-> & ->) | (_ & Ec & Hout)];
      [now left|].
    right. rewrite add64_small in Ec by (unfold U64_MOD in *; lia).
    split; [|exact Ec].
    destruct Hout as [(Hf & _) | (_ & cells & _ & [(_ & -> & _) | (_ & -> & _)])];
      [congruence | reflexivity | reflexivity]. }
  induction ticks as [|t rest IH]; intros st st' out H0 Hlen.
  { intros [= <- <-]. rewrite Z.sub_diag. cbn. split; [reflexivity | lia]. }
  cbn [List.length] in Hlen. rewrite Nat2Z.inj_succ in Hlen.
  cbn [main_loop]. destruct (step cfg st t) as [|st1 out1|st1 out1] eqn:E; [discriminate| |].
  - destruct (main_loop cfg st1 rest) as [[outs st2]|] eqn:Er; [|discriminate].
    intros [= <- <-]. unfold timestamps. rewrite omap_app. fold (timestamps out1).
    fold (timestamps outs).
    destruct (Hstep st st1 t out1 H0 ltac:(lia) (or_introl E)) as [[-> Ec] | [-> Ec]];
      destruct (IH st1 st2 outs ltac:(lia) ltac:(lia) Er) as [Ets Hr]; rewrite Ets, Ec.
    + cbn [app List.length]. split; [reflexivity | lia].
    + cbn [app List.length]. split; [|lia].
      rewrite (seqZ_cons (csv_seconds_counter st)) by lia.
      f_equal. f_equal; lia.
  - intros [= <- <-].
    destruct (Hstep st st1 t out1 H0 ltac:(lia) (or_intror E)) as [[-> Ec] | [-> Ec]];
      rewrite Ec.
    + rewrite Z.sub_diag. cbn. split; [reflexivity | lia].
    + replace (csv_seconds_counter st + 1 - csv_seconds_counter st) with 1 by lia.
      cbn. split; [reflexivity | lia].
Qed.

(** X26. The time stamps of the rows are the numbers 0, 1, 2, ... without a
    gap: the counter advances with every row written, not with the
    clock, so a pass in which [/proc/stat] could not be read leaves no
    row and no gap. *)
Theorem timestamps_count_rows (cfg : setup) (initial_stat : option (list ascii))
    (st st' : loop_state) (ticks : list tick) (out : list event) :
  csv_file cfg = true ->
  start initial_stat = Some st ->
  Z.of_nat (List.length ticks) < U64_MOD ->
  main_loop cfg st ticks = Some (out, st') ->
  timestamps out = seqZ 0 (csv_seconds_counter st')
  /\ 0 <= csv_seconds_counter st' <= Z.of_nat (List.length ticks).
Proof.
  intros Hcsv Hs Hlen Hrun.
  destruct (start_state _ _ Hs) as (_ & _ & Hc & _).
  destruct (loop_timestamps cfg Hcsv ticks st st' out) as [E R];
    rewrite ?Hc; try lia; try exact Hrun.
  rewrite Hc, Z.sub_0_r in E. rewrite Hc in R. split; [exact E | lia].
Qed.

Lemma timestamps_count_rows_witness :
  timestamps [Row 0 [NA; NA]; Row 1 [NA; NA]] = seqZ 0 2.
Proof.
  apply (proj1 (timestamps_count_rows (mk_setup true true false [] (-1))
                  (Some (stat_with_cores 2))
                  (mk_state (map (parse_core_line CpuTime_zero)
                               (List.filter is_core_line
                                  (fgets_lines 512 (stat_with_cores 2)))) 2 0 0)
                  (mk_state (map (parse_core_line CpuTime_zero)
                               (List.filter is_core_line
                                  (fgets_lines 512 (lit "cpu0" ++ NEWLINE
                                                    :: lit "cpu1" ++ [NEWLINE])))) 2 2 2)
                  [stat_tick (lit "cpu0 1" ++ NEWLINE :: lit "cpu1 1" ++ [NEWLINE]);
                   mk_tick None None (fun _ => None);
                   stat_tick (lit "cpu0" ++ NEWLINE :: lit "cpu1" ++ [NEWLINE])]
                  [Row 0 [NA; NA]; Row 1 [NA; NA]]
                  ltac:(reflexivity) ltac:(vm_compute; reflexivity)
                  ltac:(vm_compute; reflexivity) ltac:(vm_compute; reflexivity))).
Defined.

End SamplingOutput.

Section SamplingDuration.

Import Log LogRun.

Lemma step_continue (cfg : setup) (st st' : loop_state) (t : tick) (out : list event) :
  step cfg st t = Continue st' out ->
  st' = st
  \/ ~ (0 < run_duration_seconds cfg
        /\ run_duration_seconds cfg <= long_of (csv_seconds_counter st')).
Proof.
  intros E. destruct (step_state cfg st st' t out (or_introl E))
    as [(-> & _) | (curr & written & _ & _ & _ & Hs)]; [now left|].
  right. rewrite Hs in E. unfold finish_pass in E.
  destruct ((0 <? run_duration_seconds cfg)
            && (run_duration_seconds cfg <=? long_of (add64 (csv_seconds_counter st) 1)))
    eqn:C; [discriminate|].
  injection E as <- _. cbn [csv_seconds_counter]. intros [A B].
  apply andb_false_iff in C as [C|C]; [apply Z.ltb_ge in C | apply Z.leb_gt in C]; lia.
Qed.

Lemma loop_duration (cfg : setup) :
  0 < run_duration_seconds cfg < 2 ^ 63 ->
  forall (ticks : list tick) (st st' : loop_state) (out : list event),
    0 <= csv_seconds_counter st < run_duration_seconds cfg ->
    main_loop cfg st ticks = Some (out, st') ->
    csv_seconds_counter st <= csv_seconds_counter st' <= run_duration_seconds cfg.
Proof.
  intros Hd. induction ticks as [|t rest IH]; intros st st' out Hc.
  { intros [= <- <-]. lia. }
  cbn [main_loop]. destruct (step cfg st t) as [|st1 out1|st1 out1] eqn:E; [discriminate| |].
  - destruct (main_loop cfg st1 rest) as [[outs st2]|] eqn:Er; [|discriminate].
    intros [= <- <-].
    destruct (step_output cfg st st1 t out1 (or_introl E)) as [(-> & _) | (_ & Ec & _)].
    { exact (IH st st2 outs Hc Er). }
    rewrite add64_small in Ec by (unfold U64_MOD; lia).
    destruct (step_continue cfg st st1 t out1 E) as [-> | Hn]; [lia|].
    rewrite Ec, long_of_small in Hn by lia.
    pose proof (IH st1 st2 outs ltac:(lia) Er). lia.
  - intros [= <- <-].
    destruct (step_output cfg st st1 t out1 (or_intror E)) as [(-> & _) | (_ & Ec & _)];
      [lia|].
    rewrite add64_small in Ec by (unfold U64_MOD; lia). lia.
Qed.

(** X27. With a duration [d] the loop ends after at most [d] passes that
    found a sample: the counter it compares with [d], which is also the
    time stamp of the next row, never goes beyond [d]. *)
Theorem duration_bounds_passes (cfg : setup) (initial_stat : option (list ascii))
    (st st' : loop_state) (ticks : list tick) (out : list event) :
  0 < run_duration_seconds cfg < 2 ^ 63 ->
  start initial_stat = Some st ->
  main_loop cfg st ticks = Some (out, st') ->
  0 <= csv_seconds_counter st' <= run_duration_seconds cfg.
Proof.
  intros Hd Hs Hrun. destruct (start_state _ _ Hs) as (_ & _ & Hc & _).
  pose proof (loop_duration cfg Hd ticks st st' out ltac:(lia) Hrun). lia.
Qed.

Lemma duration_bounds_passes_witness :
  0 <= csv_seconds_counter
         (mk_state (map (parse_core_line CpuTime_zero)
                      (List.filter is_core_line (fgets_lines 512 (stat_with_cores 1))))
                   1 2 2)
    <= 2.
Proof.
  apply (duration_bounds_passes (mk_setup true true false [] 2)
           (Some (stat_with_cores 1))
           (mk_state (map (parse_core_line CpuTime_zero)
                        (List.filter is_core_line (fgets_lines 512 (stat_with_cores 1))))
                     1 0 0)
           _
           (repeat (stat_tick (stat_with_cores 1)) 5)
           [Row 0 [Percent 0]; Row 1 [Percent 0]]).
  - cbn. lia.
  - vm_compute. reflexivity.
  - vm_compute. reflexivity.
Defined.

Lemma loop_unflushed (cfg : setup) :
  forall (ticks : list tick) (st st' : loop_state) (out : list event) (k : nat),
    csv_lines_since_last_flush st = Z.of_nat k -> (k < 10)%nat ->
    main_loop cfg st ticks = Some (out, st') ->
    csv_lines_since_last_flush st'
    = Z.of_nat (fold_left (fun n e => match e with Row _ _ => S n | Flush => O end) out k)
    /\ (fold_left (fun n e => match e with Row _ _ => S n | Flush => O end) out k < 10)%nat.
Proof.
  assert (Hstep : forall st st1 t out1 k,
             csv_lines_since_last_flush st = Z.of_nat k -> (k < 10)%nat ->
             step cfg st t = Continue st1 out1 \/ step cfg st t = Stop st1 out1 ->
             csv_lines_since_last_flush st1
             = Z.of_nat (fold_left (fun n e => match e with Row _ _ => S n | Flush => O end)
                                   out1 k)
             /\ (fold_left (fun n e => match e with Row _ _ => S n | Flush => O end) out1 k
                 < 10)%nat).
  { intros st st1 t out1 k Hk Hlt H.
    destruct (step_output cfg st st1 t out1 H) as [(-> & ->) | (_ & _ & Hout)];
      [cbn; auto|].
    destruct Hout as [(_ & -> & ->) | (_ & cells & _ & Hrow)]; [cbn; auto|].
    assert (Hmod : (csv_lines_since_last_flush st + 1) mod U32_MOD = Z.of_nat k + 1).
    { rewrite Hk. apply Z.mod_small. unfold U32_MOD. lia. }
    rewrite Hmod in Hrow.
    destruct Hrow as [(Hl & -> & ->) | (Hl & -> & ->)]; cbn [fold_left]; split; lia. }
  induction ticks as [|t rest IH]; intros st st' out k Hk Hlt.
  { intros [= <- <-]. cbn. auto. }
  cbn [main_loop]. destruct (step cfg st t) as [|st1 out1|st1 out1] eqn:E; [discriminate| |].
  - destruct (main_loop cfg st1 rest) as [[outs st2]|] eqn:Er; [|discriminate].
    intros [= <- <-]. rewrite fold_left_app.
    destruct (Hstep st st1 t out1 k Hk Hlt (or_introl E)) as [H1 H2].
    exact (IH st1 st2 outs _ H1 H2 Er).
  - intros [= <- <-]. exact (Hstep st st1 t out1 k Hk Hlt (or_intror E)).
Qed.

(** X28. The rows are flushed to the file in groups of ten: the flush follows
    the tenth row written since the last one, so that the counter of
    unflushed rows is the number of rows written since the last flush and
    stays below ten at the end of every pass. *)
Theorem flush_every_tenth_row (cfg : setup) (initial_stat : option (list ascii))
    (st st' : loop_state) (ticks : list tick) (out : list event) :
  start initial_stat = Some st ->
  main_loop cfg st ticks = Some (out, st') ->
  csv_lines_since_last_flush st' = Z.of_nat (unflushed out)
  /\ Z.of_nat (unflushed out) < CSV_FLUSH_INTERVAL.
Proof.
  intros Hs Hrun. destruct (start_state _ _ Hs) as (_ & _ & _ & Hl).
  destruct (loop_unflushed cfg ticks st st' out 0 Hl ltac:(lia) Hrun) as [H1 H2].
  unfold unflushed, CSV_FLUSH_INTERVAL. split; [exact H1 | lia].
Qed.

Lemma flush_every_tenth_row_witness :
  Z.of_nat
    (unflushed (flat_map (fun k => [Row (Z.of_nat k) [Percent 0]]) (seq 0 10) ++ [Flush]
                ++ [Row 10 [Percent 0]; Row 11 [Percent 0]]))
  < CSV_FLUSH_INTERVAL.
Proof.
  apply (proj2 (flush_every_tenth_row (mk_setup true true false [] (-1))
                  (Some (stat_with_cores 1))
                  (mk_state (map (parse_core_line CpuTime_zero)
                               (List.filter is_core_line
                                  (fgets_lines 512 (stat_with_cores 1)))) 1 0 0)
                  (mk_state (map (parse_core_line CpuTime_zero)
                               (List.filter is_core_line
                                  (fgets_lines 512 (stat_with_cores 1)))) 1 12 2)
                  (repeat (stat_tick (stat_with_cores 1)) 12)
                  _
                  ltac:(vm_compute; reflexivity) ltac:(vm_compute; reflexivity))).
Defined.

End SamplingDuration.

(** ** util_logger.c: the rows of the log *)

Section UtilRows.

Import UtilLogger UtilRun.

Lemma read_cpu_snapshot_returns (proc_stat : option (list ascii)) :
  match proc_stat with
  | Some _ => exists snap, read_cpu_snapshot proc_stat = Some (0, snap) /\ well_sized snap
  | None => read_cpu_snapshot proc_stat = Some (-1, snap_zero)
  end.
Proof.
  destruct proc_stat as [content|]; [|reflexivity].
  unfold read_cpu_snapshot.
  destruct (snapshot_lines_total (fgets_lines 1024 content) snap_zero snap_zero_well_sized)
    as (snap & -> & W).
  now exists snap.
Qed.

Lemma util_loop_rows (samples : Z) :
  forall (ticks : list tick) (sample_idx : Z) (s1 : cpu_snap_t),
    0 <= sample_idx ->
    sample_idx + Z.of_nat (List.length ticks) < 2 ^ 63 ->
    exists rows : list row,
      main_loop samples sample_idx s1 ticks = Some rows
      /\ map UtilRun.sample_idx rows
         = seqZ (sample_idx + 1) (Z.of_nat (List.length rows))
      /\ List.Forall (fun r => List.length (cells r) = MAX_CORES) rows
      /\ List.length rows
         = (if samples <? 0 then readable ticks
            else Nat.min (readable ticks) (Z.to_nat (samples - sample_idx))).
Proof.
  assert (Hrow : forall idx gpu s1 s2 rows,
             0 <= idx ->
             map UtilRun.sample_idx rows = seqZ (idx + 1 + 1) (Z.of_nat (List.length rows)) ->
             List.Forall (fun r => List.length (cells r) = MAX_CORES) rows ->
             map UtilRun.sample_idx (mk_row (idx + 1) gpu (row_cells s1 s2) :: rows)
             = seqZ (idx + 1) (Z.of_nat (List.length (mk_row (idx + 1) gpu (row_cells s1 s2)
                                                      :: rows)))
             /\ List.Forall (fun r => List.length (cells r) = MAX_CORES)
                  (mk_row (idx + 1) gpu (row_cells s1 s2) :: rows)).
  { intros idx gpu s1 s2 rows H0 E1 E2. split.
    - cbn [map UtilRun.sample_idx List.length]. rewrite E1.
      rewrite (seqZ_cons (idx + 1)) by lia. f_equal. f_equal; lia.
    - constructor; [|exact E2]. cbn [cells]. unfold row_cells.
      rewrite length_map. apply length_seq. }
  destruct (Z.ltb_spec samples 0) as [Hneg|Hpos].
  - induction ticks as [|t rest IH]; intros idx s1 H0 Hlen.
    { exists []. split; [reflexivity|]. split; [reflexivity|]. split; [constructor|].
      reflexivity. }
    cbn [List.length] in Hlen. rewrite Nat2Z.inj_succ in Hlen.
    cbn [main_loop readable].
    assert (Hs : (samples <? 0) = true) by (apply Z.ltb_lt; exact Hneg).
    rewrite Hs. cbn [orb].
    pose proof (read_cpu_snapshot_returns (proc_stat t)) as Hr.
    destruct (proc_stat t) as [content|].
    + destruct Hr as (s2 & -> & _). cbn [Z.eqb negb].
      rewrite long_of_small by lia.
      destruct (IH (idx + 1) s2 ltac:(lia) ltac:(lia)) as (rows & -> & E1 & E2 & E3).
      eexists. split; [reflexivity|].
      destruct (Hrow idx (gpu_busy_column (gpu_node t)) s1 s2 rows H0 E1 E2) as [R1 R2].
      split; [exact R1|]. split; [exact R2|]. cbn [List.length]. now rewrite E3.
    + rewrite Hr. cbn [Z.eqb negb]. exists [].
      split; [reflexivity|]. split; [reflexivity|]. split; [constructor | reflexivity].
  - induction ticks as [|t rest IH]; intros idx s1 H0 Hlen.
    { exists []. split; [reflexivity|]. split; [reflexivity|]. split; [constructor|].
      reflexivity. }
    cbn [List.length] in Hlen. rewrite Nat2Z.inj_succ in Hlen.
    cbn [main_loop readable].
    assert (Hs : (samples <? 0) = false) by (apply Z.ltb_ge; exact Hpos).
    rewrite Hs. cbn [orb].
    destruct (Z.ltb_spec idx samples) as [Hlt|Hge].
    + pose proof (read_cpu_snapshot_returns (proc_stat t)) as Hr.
      destruct (proc_stat t) as [content|].
      * destruct Hr as (s2 & -> & _). cbn [Z.eqb negb].
        rewrite long_of_small by lia.
        destruct (IH (idx + 1) s2 ltac:(lia) ltac:(lia)) as (rows & -> & E1 & E2 & E3).
        eexists. split; [reflexivity|].
        destruct (Hrow idx (gpu_busy_column (gpu_node t)) s1 s2 rows H0 E1 E2) as [R1 R2].
        split; [exact R1|]. split; [exact R2|]. cbn [List.length]. rewrite E3.
        replace (Z.to_nat (samples - idx)) with (S (Z.to_nat (samples - (idx + 1))))
          by lia.
        reflexivity.
      * rewrite Hr. cbn [Z.eqb negb]. exists [].
        split; [reflexivity|]. split; [reflexivity|]. split; [constructor | reflexivity].
    + exists []. split; [reflexivity|]. split; [reflexivity|]. split; [constructor|].
      replace (Z.to_nat (samples - idx)) with 0%nat by lia. cbn [List.length]. lia.
Qed.

(** X29. The rows of the log of util_logger.c are numbered 1, 2, 3, ... and
    have eight utilization cells each.  The loop never writes outside a
    snapshot; it writes one row per pass until the requested number of
    samples is reached, and ends for good, without a row, at the first
    pass in which [/proc/stat] cannot be opened. *)
Theorem util_logger_rows (samples : Z) (s1 : cpu_snap_t) (ticks : list tick) :
  Z.of_nat (List.length ticks) < 2 ^ 63 ->
  exists rows : list row,
    main_loop samples 0 s1 ticks = Some rows
    /\ map UtilRun.sample_idx rows = seqZ 1 (Z.of_nat (List.length rows))
    /\ List.Forall (fun r => List.length (cells r) = MAX_CORES) rows
    /\ List.length rows
       = (if samples <? 0 then readable ticks
          else Nat.min (readable ticks) (Z.to_nat samples)).
Proof.
  intros Hlen.
  destruct (util_loop_rows samples ticks 0 s1 ltac:(lia) ltac:(lia))
    as (rows & E0 & E1 & E2 & E3).
  exists rows. rewrite Z.sub_0_r in E3. auto.
Qed.

Lemma util_logger_rows_witness :
  exists rows : list row,
    main_loop 3 0 snap_zero
      [mk_tick (Some (lit "cpu0 1 2 3 4 5" ++ [NEWLINE])) None;
       mk_tick (Some (lit "cpu0 2 3 4 5 6" ++ [NEWLINE])) (Some (lit "17"));
       mk_tick None None;
       mk_tick (Some (lit "cpu0 3 4 5 6 7" ++ [NEWLINE])) None]
    = Some rows
    /\ map UtilRun.sample_idx rows = seqZ 1 (Z.of_nat (List.length rows))
    /\ List.Forall (fun r => List.length (cells r) = MAX_CORES) rows
    /\ List.length rows = 2%nat.
Proof.
  apply (util_logger_rows 3 snap_zero
           [mk_tick (Some (lit "cpu0 1 2 3 4 5" ++ [NEWLINE])) None;
            mk_tick (Some (lit "cpu0 2 3 4 5 6" ++ [NEWLINE])) (Some (lit "17"));
            mk_tick None None;
            mk_tick (Some (lit "cpu0 3 4 5 6 7" ++ [NEWLINE])) None]).
  cbn. lia.
Defined.

End UtilRows.

(** ** The counter nodes as numbers *)

Section CounterValues.

Import Logger CpuLogger.

Lemma c_str_app_plain (a b : list ascii) : free_of NUL a -> c_str (a ++ b) = a ++ c_str b.
Proof.
  intros H. induction H as [|c a Hc _ IH]; [reflexivity|].
  cbn [app c_str]. now rewrite Hc, IH.
Qed.

Lemma c_str_stops_digits (r : list ascii) : stops_digits r -> stops_digits (c_str r).
Proof.
  destruct r as [|c r]; [exact (fun H => H)|]. cbn [stops_digits c_str].
  destruct (Ascii.eqb c NUL); [exact (fun _ => I) | exact (fun H => H)].
Qed.

Lemma take_stops_digits (n : nat) (r : list ascii) : stops_digits r -> stops_digits (take n r).
Proof. destruct n, r; cbn; auto. Qed.

Lemma read_buffer_digits (bufsz : nat) (ds rest : list ascii) :
  Log.numeric_field ds -> stops_digits rest -> (List.length ds <= bufsz - 1)%nat ->
  exists tail : cstr,
    read_buffer bufsz (ds ++ rest) = Some (ds ++ tail) /\ stops_digits tail.
Proof.
  intros [Hne Hds] Hrest Hlen. unfold read_buffer.
  rewrite firstn_app, (firstn_all2 (n := bufsz - 1) ds) by lia.
  destruct (digits_free ds Hds) as (F0 & _).
  exists (c_str (take (bufsz - 1 - List.length ds) rest)).
  split; [|now apply c_str_stops_digits, take_stops_digits].
  rewrite <- (c_str_app_plain ds _ F0).
  destruct ds as [|d ds]; [contradiction | reflexivity].
Qed.

(** X30. A node that holds a decimal number, followed by a line feed or by
    anything that is not a digit, reads as that number: through an open
    descriptor with [read_int_fd], and by path with [read_int_file].
    The number has to fit the buffer and an [int]. *)
Theorem counter_node_value (fd : Z) (fs : filesystem) (path : cstr) (bufsz : nat)
    (ds rest : list ascii) :
  Log.numeric_field ds -> stops_digits rest -> digits_value ds < 2 ^ 31 ->
  (0 <= fd -> (List.length ds <= bufsz - 1)%nat ->
   read_int_fd fd (Some (ds ++ rest)) bufsz = digits_value ds)
  /\ ((List.length ds <= 127)%nat -> file_content fs path = Some (ds ++ rest) ->
      read_int_file fs path = digits_value ds).
Proof.
  intros Hf Hrest Hlt.
  assert (Hparse : forall tail, stops_digits tail ->
                                fast_parse_int (ds ++ tail) = digits_value ds).
  { intros tail Ht.
    destruct (fast_parse_int_value_plain ds tail Hf Ht Hlt) as [E _]. exact E. }
  split.
  - intros Hfd Hlen. unfold read_int_fd.
    destruct (Z.ltb_spec fd 0); [lia|].
    destruct (read_buffer_digits bufsz ds rest Hf Hrest Hlen) as (tail & -> & Ht).
    now apply Hparse.
  - intros Hlen Hc. unfold read_int_file. rewrite Hc.
    destruct (read_buffer_digits 128 ds rest Hf Hrest ltac:(cbn; lia)) as (tail & -> & Ht).
    now apply Hparse.
Qed.

Lemma counter_node_value_witness :
  read_int_fd 3 (Some (lit "45000" ++ [NEWLINE])) 128 = 45000.
Proof.
  apply (proj1 (counter_node_value 3 (layout ascending_order (lit "cpu-thermal")) []
                  128 (lit "45000") [NEWLINE]
                  ltac:(split; [discriminate | repeat constructor])
                  ltac:(reflexivity)
                  ltac:(vm_compute; reflexivity))).
  - lia.
  - cbn. lia.
Defined.

End CounterValues.
